(** * The CERS risk-scoring pipeline of [analysis/advanced_risk_analysis.py]

    A shallow embedding of [KillerMoveAnalyzer]: the three input
    tables, their aggregation at (date, state, district) granularity, the
    outer merge, feature engineering, the per-district Citizen Exclusion
    Risk Score and the batch driver [run_full_analysis].

    Numbers.  pandas computes on IEEE doubles and, for a column of whole
    numbers without a missing cell, on [int64]; the embedding computes on
    exact rationals [Q].  A sum of [int64] cells that reaches 2^63 wraps
    in pandas and does not here; [within_int64] names the input whose
    sums stay below this bound.  A missing cell (pandas' NaN) is [None].
    The square root inside [Series.std] is a parameter [fsqrt] of the
    development, of which only non-negativity is ever assumed.

    Input.  A CSV file is the table that [pd.read_csv] returns for it,
    with its dates parsed; files that pandas rejects are outside the
    embedding.

    Environment.  The date that [datetime.now()] returns and the values
    that [uuid.uuid4()] returns are parameters of the methods that call
    them. *)

From Stdlib Require Import QArith Qround Qabs ZArith Lia Lqa String Ascii.
From Stdlib Require OrderedTypeEx.
From stdpp Require Import base list option sorting strings gmap pretty.

Local Open Scope Q_scope.

(** ** Rational arithmetic as numpy uses it *)

Definition Qlt_bool (x y : Q) : bool := negb (Qle_bool y x).

(** [Series.clip(lower, upper)] *)
Definition clip (lower upper x : Q) : Q :=
  if Qlt_bool x lower then lower
  else if Qlt_bool upper x then upper
  else x.

Definition Qsum (l : list Q) : Q := foldr Qplus 0 l.

Definition Qlen {A} (l : list A) : Q := inject_Z (Z.of_nat (length l)).

(** ['sum'] and ['count'] of a groupby aggregation skip missing cells.
    The sum is exact: it has no counterpart of the wrap of an [int64]
    sum at 2^63. *)
Definition nansum (l : list (option Q)) : Q := Qsum (omap id l).
Definition count {A} (l : list (option A)) : Q := Qlen (omap id l).

(** ['mean'] of a group.  A group of a groupby is never empty. *)
Definition mean (l : list Q) : Q := Qsum l / Qlen l.

(** [Series.mean()] of a whole column: NaN on an empty column. *)
Definition series_mean (l : list Q) : option Q :=
  match l with [] => None | _ => Some (mean l) end.

(** [Series.max()]: NaN on an empty column. *)
Definition series_max (l : list Q) : option Q :=
  match l with
  | [] => None
  | x :: l' => Some (foldr (λ y m, if Qlt_bool m y then y else m) x l')
  end.

(** numpy's [rint]: round to the nearest integer, ties to even. *)
Definition rint (x : Q) : Z :=
  let f := Qfloor x in
  match Qcompare (x - inject_Z f) (1 # 2) with
  | Lt => f
  | Gt => (f + 1)%Z
  | Eq => if Z.even f then f else (f + 1)%Z
  end.

(** [Series.round(2)] *)
Definition round2 (x : Q) : Q := inject_Z (rint (x * 100)) / 100.

(** Element-wise division and selection as [_engineer_features] uses
    them: [np.where] receives both branches already evaluated, and a
    quotient by zero is a non-finite double, here [None]. *)
Definition np_divide (x y : Q) : option Q :=
  if Qeq_bool y 0 then None else Some (x / y).

Definition np_where (c : bool) (x y : option Q) : option Q :=
  if c then x else y.

(** ** Dates and grouping keys *)

Record Date := mkDate { dt_year : Z; dt_month : Z; dt_day : Z }.

Global Instance Date_eq_dec : EqDecision Date.
Proof. solve_decision. Defined.

(** Days since 1970-01-01 in the proleptic Gregorian calendar. *)
Definition days_from_civil (d : Date) : Z :=
  let y := if (dt_month d <=? 2)%Z then (dt_year d - 1)%Z else dt_year d in
  let era := (y / 400)%Z in
  let yoe := (y - era * 400)%Z in
  let mp := if (dt_month d <=? 2)%Z then (dt_month d + 9)%Z else (dt_month d - 3)%Z in
  let doy := ((153 * mp + 2) / 5 + dt_day d - 1)%Z in
  let doe := (yoe * 365 + yoe / 4 - yoe / 100 + doy)%Z in
  (era * 146097 + doe - 719468)%Z.

(** [.dt.dayofweek]: Monday is 0. *)
Definition dayofweek (d : Date) : Z := ((days_from_civil d + 3) mod 7)%Z.

(** [.dt.quarter] *)
Definition quarter_of (d : Date) : Z := ((dt_month d - 1) / 3 + 1)%Z.

Definition lex (c1 c2 : comparison) : comparison :=
  match c1 with Eq => c2 | _ => c1 end.

Definition date_compare (a b : Date) : comparison :=
  lex (dt_year a ?= dt_year b)%Z
      (lex (dt_month a ?= dt_month b)%Z (dt_day a ?= dt_day b)%Z).

(** The key (date, state, district) of the integrated table. *)
Definition Key : Type := Date * string * string.

Definition key_compare (a b : Key) : comparison :=
  lex (date_compare a.1.1 b.1.1)
      (lex (String.compare a.1.2 b.1.2) (String.compare a.2 b.2)).

Definition key_le (a b : Key) : Prop := key_compare a b ≠ Gt.

Global Instance comparison_eq_dec : EqDecision comparison.
Proof. solve_decision. Defined.

Global Instance key_le_dec a b : Decision (key_le a b).
Proof. unfold key_le. apply _. Defined.

(** The key (state, district) of the district risk table. *)
Definition DistrictKey : Type := string * string.

Definition district_le (a b : DistrictKey) : Prop :=
  lex (String.compare a.1 b.1) (String.compare a.2 b.2) ≠ Gt.

Global Instance district_le_dec a b : Decision (district_le a b).
Proof. unfold district_le. apply _. Defined.

(** ** [DataFrame.groupby]

    Rows whose key has a missing component are dropped (pandas'
    [dropna=True]); the groups come out in sorted key order
    ([sort=True]). *)

Section GroupBy.
Context {R K : Type} `{EqDecision K}.
Context (le : relation K) `{!∀ x y, Decision (le x y)}.
Variable by_ : R → option K.

Definition group_keys (df : list R) : list K :=
  merge_sort le (remove_dups (omap by_ df)).

Definition get_group (df : list R) (k : K) : list R :=
  filter (λ r, by_ r = Some k) df.

Definition groupby (df : list R) : list (K * list R) :=
  (λ k, (k, get_group df k)) <$> group_keys df.
End GroupBy.

(** ** [DataFrame.merge(..., how='outer')]

    Every left row is paired with each right row of the same key, or with
    a missing right side when there is none; right rows whose key no left
    row has follow with a missing left side.  The result is sorted by
    key. *)

Section Merge.
Context {A B K : Type} `{EqDecision K}.
Context (le : relation K) `{!∀ x y, Decision (le x y)}.
Variables (on_left : A → K) (on_right : B → K).

Definition merge_row_le (x y : K * option A * option B) : Prop :=
  le x.1.1 y.1.1.

Global Instance merge_row_le_dec x y : Decision (merge_row_le x y).
Proof. unfold merge_row_le. apply _. Defined.

Definition matches (a : A) (right : list B) : list (K * option A * option B) :=
  match filter (λ b, on_right b = on_left a) right with
  | [] => [(on_left a, Some a, None)]
  | bs => (λ b, (on_left a, Some a, Some b)) <$> bs
  end.

Definition right_only (left : list A) (right : list B)
  : list (K * option A * option B) :=
  (λ b, (on_right b, None, Some b))
    <$> filter (λ b, on_right b ∉ on_left <$> left) right.

Definition merge_outer (left : list A) (right : list B)
  : list (K * option A * option B) :=
  merge_sort merge_row_le
    ((left ≫= λ a, matches a right) ++ right_only left right).
End Merge.

(** ** The three input tables

    One record per CSV line, as [load_all_datasets] leaves them after
    [pd.concat] and [pd.to_datetime]: every cell may be missing;
    [pincode] is read as a string. *)

Record EnrolmentRow := mkEnrolment {
  enr_date : option Date; enr_state : option string;
  enr_district : option string; enr_pincode : option string;
  enr_age_0_5 : option Q; enr_age_5_17 : option Q;
  enr_age_18_greater : option Q }.

Record DemographicRow := mkDemographic {
  dem_date : option Date; dem_state : option string;
  dem_district : option string; dem_pincode : option string;
  dem_demo_age_5_17 : option Q; dem_demo_age_17_ : option Q }.

Record BiometricRow := mkBiometric {
  bio_date : option Date; bio_state : option string;
  bio_district : option string; bio_pincode : option string;
  bio_bio_age_5_17 : option Q; bio_bio_age_17_ : option Q }.

Definition mk_key (d : option Date) (s t : option string) : option Key :=
  d' ← d; s' ← s; t' ← t; Some (d', s', t').

Definition enr_key (r : EnrolmentRow) : option Key :=
  mk_key (enr_date r) (enr_state r) (enr_district r).
Definition dem_key (r : DemographicRow) : option Key :=
  mk_key (dem_date r) (dem_state r) (dem_district r).
Definition bio_key (r : BiometricRow) : option Key :=
  mk_key (bio_date r) (bio_state r) (bio_district r).

(** ** [create_integrated_dataset]: the three aggregates *)

Record EnrolAgg := mkEnrolAgg {
  ea_key : Key; ea_age_0_5 : Q; ea_age_5_17 : Q; ea_age_18_greater : Q;
  ea_enrol_count : Q }.

Record DemoAgg := mkDemoAgg {
  da_key : Key; da_demo_age_5_17 : Q; da_demo_age_17_ : Q; da_demo_count : Q }.

Record BioAgg := mkBioAgg {
  ba_key : Key; ba_bio_age_5_17 : Q; ba_bio_age_17_ : Q; ba_bio_count : Q }.

Definition enrol_agg (enrolment_data : list EnrolmentRow) : list EnrolAgg :=
  (λ kg : Key * list EnrolmentRow,
     {| ea_key := kg.1;
        ea_age_0_5 := nansum (enr_age_0_5 <$> kg.2);
        ea_age_5_17 := nansum (enr_age_5_17 <$> kg.2);
        ea_age_18_greater := nansum (enr_age_18_greater <$> kg.2);
        ea_enrol_count := count (enr_pincode <$> kg.2) |})
    <$> groupby key_le enr_key enrolment_data.

Definition demo_agg (demographic_data : list DemographicRow) : list DemoAgg :=
  (λ kg : Key * list DemographicRow,
     {| da_key := kg.1;
        da_demo_age_5_17 := nansum (dem_demo_age_5_17 <$> kg.2);
        da_demo_age_17_ := nansum (dem_demo_age_17_ <$> kg.2);
        da_demo_count := count (dem_pincode <$> kg.2) |})
    <$> groupby key_le dem_key demographic_data.

Definition bio_agg (biometric_data : list BiometricRow) : list BioAgg :=
  (λ kg : Key * list BiometricRow,
     {| ba_key := kg.1;
        ba_bio_age_5_17 := nansum (bio_bio_age_5_17 <$> kg.2);
        ba_bio_age_17_ := nansum (bio_bio_age_17_ <$> kg.2);
        ba_bio_count := count (bio_pincode <$> kg.2) |})
    <$> groupby key_le bio_key biometric_data.

(** ** The merged table

    A row of [combined], over cells of type [C]: [option Q] straight after
    the two merges, [Q] after [fillna(0)]. *)

Record Combined (C : Type) := mkCombined {
  key : Key;
  age_0_5 : C; age_5_17 : C; age_18_greater : C; enrol_count : C;
  demo_age_5_17 : C; demo_age_17_ : C; demo_count : C;
  bio_age_5_17 : C; bio_age_17_ : C; bio_count : C }.

Arguments mkCombined {C}.
Arguments key {C}.
Arguments age_0_5 {C}.
Arguments age_5_17 {C}.
Arguments age_18_greater {C}.
Arguments enrol_count {C}.
Arguments demo_age_5_17 {C}.
Arguments demo_age_17_ {C}.
Arguments demo_count {C}.
Arguments bio_age_5_17 {C}.
Arguments bio_age_17_ {C}.
Arguments bio_count {C}.

Definition date {C} (r : Combined C) : Date := (key r).1.1.
Definition key_state {C} (r : Combined C) : string := (key r).1.2.
Definition key_district {C} (r : Combined C) : string := (key r).2.

Definition EnrolDemo : Type := Key * option EnrolAgg * option DemoAgg.
Definition EnrolDemoBio : Type := Key * option EnrolDemo * option BioAgg.

Definition enrol_side (m : EnrolDemoBio) : option EnrolAgg := m.1.2 ≫= λ l, l.1.2.
Definition demo_side (m : EnrolDemoBio) : option DemoAgg := m.1.2 ≫= λ l, l.2.
Definition bio_side (m : EnrolDemoBio) : option BioAgg := m.2.

Definition columns (m : EnrolDemoBio) : Combined (option Q) :=
  {| key := m.1.1;
     age_0_5 := ea_age_0_5 <$> enrol_side m;
     age_5_17 := ea_age_5_17 <$> enrol_side m;
     age_18_greater := ea_age_18_greater <$> enrol_side m;
     enrol_count := ea_enrol_count <$> enrol_side m;
     demo_age_5_17 := da_demo_age_5_17 <$> demo_side m;
     demo_age_17_ := da_demo_age_17_ <$> demo_side m;
     demo_count := da_demo_count <$> demo_side m;
     bio_age_5_17 := ba_bio_age_5_17 <$> bio_side m;
     bio_age_17_ := ba_bio_age_17_ <$> bio_side m;
     bio_count := ba_bio_count <$> bio_side m |}.

(** [DataFrame.fillna(value)] on one row *)
Definition fillna (value : Q) (r : Combined (option Q)) : Combined Q :=
  {| key := key r;
     age_0_5 := default value (age_0_5 r);
     age_5_17 := default value (age_5_17 r);
     age_18_greater := default value (age_18_greater r);
     enrol_count := default value (enrol_count r);
     demo_age_5_17 := default value (demo_age_5_17 r);
     demo_age_17_ := default value (demo_age_17_ r);
     demo_count := default value (demo_count r);
     bio_age_5_17 := default value (bio_age_5_17 r);
     bio_age_17_ := default value (bio_age_17_ r);
     bio_count := default value (bio_count r) |}.

Definition merged (ea : list EnrolAgg) (da : list DemoAgg) (ba : list BioAgg)
  : list EnrolDemoBio :=
  merge_outer key_le (λ l : EnrolDemo, l.1.1) ba_key
    (merge_outer key_le ea_key da_key ea da) ba.

(** The local [combined] of [create_integrated_dataset], after
    [fillna(0, inplace=True)]. *)
Definition combined (enrolment_data : list EnrolmentRow)
    (demographic_data : list DemographicRow)
    (biometric_data : list BiometricRow) : list (Combined Q) :=
  fillna 0 <$> (columns <$> merged (enrol_agg enrolment_data)
                  (demo_agg demographic_data) (bio_agg biometric_data)).

(** ** [_engineer_features] *)

Record Engineered := mkEngineered {
  base : Combined Q;
  total_enrol : Q; total_demo : Q; total_bio : Q;
  demo_enrol_gap : Q; bio_enrol_gap : Q; bio_demo_gap : Q;
  demo_completion_rate : Q; bio_completion_rate : Q;
  youth_ratio_enrol : Q; youth_ratio_demo : Q; youth_ratio_bio : Q;
  month : Z; quarter : Z; day_of_week : Z;
  is_quarter_end : Z; is_harvest_season : Z; is_festival_season : Z }.

(** [Series.isin(values).astype(int)] *)
Definition isin (x : Z) (values : list Z) : Z :=
  Z.b2z (bool_decide (x ∈ values)).

(** The columns added to one row.  [None] stands for a row in which a
    selected value would be a non-finite double. *)
Definition engineer_row (df : Combined Q) : option Engineered :=
  let total_enrol := age_0_5 df + age_5_17 df + age_18_greater df in
  let total_demo := demo_age_5_17 df + demo_age_17_ df in
  let total_bio := bio_age_5_17 df + bio_age_17_ df in
  let month := dt_month (date df) in
  demo_completion_rate ←
    np_where (Qlt_bool 0 (enrol_count df))
      ((λ q, q * 100) <$> np_divide (demo_count df) (enrol_count df))
      (Some 100);
  bio_completion_rate ←
    np_where (Qlt_bool 0 (enrol_count df))
      ((λ q, q * 100) <$> np_divide (bio_count df) (enrol_count df))
      (Some 100);
  youth_ratio_enrol ←
    np_where (Qlt_bool 0 total_enrol)
      (np_divide (age_5_17 df) total_enrol) (Some 0);
  youth_ratio_demo ←
    np_where (Qlt_bool 0 total_demo)
      (np_divide (demo_age_5_17 df) total_demo) (Some 0);
  youth_ratio_bio ←
    np_where (Qlt_bool 0 total_bio)
      (np_divide (bio_age_5_17 df) total_bio) (Some 0);
  Some
    {| base := df;
       total_enrol := total_enrol;
       total_demo := total_demo;
       total_bio := total_bio;
       demo_enrol_gap := enrol_count df - demo_count df;
       bio_enrol_gap := enrol_count df - bio_count df;
       bio_demo_gap := demo_count df - bio_count df;
       demo_completion_rate := demo_completion_rate;
       bio_completion_rate := bio_completion_rate;
       youth_ratio_enrol := youth_ratio_enrol;
       youth_ratio_demo := youth_ratio_demo;
       youth_ratio_bio := youth_ratio_bio;
       month := month;
       quarter := quarter_of (date df);
       day_of_week := dayofweek (date df);
       is_quarter_end := isin month [3; 6; 9; 12]%Z;
       is_harvest_season := isin month [4; 5; 10; 11]%Z;
       is_festival_season := isin month [10; 11; 3; 4]%Z |}.

Definition engineer (df : list (Combined Q)) : option (list Engineered) :=
  mapM engineer_row df.

(** ** [calculate_exclusion_risk_score] *)

Inductive Category := Low | Medium | High | Critical.

Global Instance Category_eq_dec : EqDecision Category.
Proof. solve_decision. Defined.

(** [pd.cut(x, bins, labels)] with the default [right=True],
    [include_lowest=False]: the intervals are open on the left and closed
    on the right; a value in none of them has no category. *)
Fixpoint cut {L} (bins : list Q) (labels : list L) (x : Q) : option L :=
  match bins with
  | [] => None
  | lo :: bins' =>
      match bins', labels with
      | hi :: _, lab :: labels' =>
          if Qlt_bool lo x && Qle_bool x hi then Some lab
          else cut bins' labels' x
      | _, _ => None
      end
  end.

(** [Series.rank(pct=True)] with the default [method='average']. *)
Definition rank_pct (col : list Q) (x : Q) : Q :=
  let less := Qlen (List.filter (λ y, Qlt_bool y x) col) in
  let equal := Qlen (List.filter (λ y, Qeq_bool y x) col) in
  (less + (equal + 1) / 2) / Qlen col.

(** The per-district aggregate, over the type [C] of the volatility cell:
    [option Q] as the aggregation leaves it, [Q] after its [fillna(0)]. *)
Record DistrictAgg (C : Type) := mkDistrictAgg {
  state : string; district : string;
  avg_bio_completion : Q; avg_demo_completion : Q;
  avg_bio_gap : Q; bio_gap_volatility : C;
  district_youth_ratio_enrol : Q; district_youth_ratio_bio : Q;
  total_enrolments : Q }.

Arguments mkDistrictAgg {C}.
Arguments state {C}.
Arguments district {C}.
Arguments avg_bio_completion {C}.
Arguments avg_demo_completion {C}.
Arguments avg_bio_gap {C}.
Arguments bio_gap_volatility {C}.
Arguments district_youth_ratio_enrol {C}.
Arguments district_youth_ratio_bio {C}.
Arguments total_enrolments {C}.

Record DistrictRisk := mkDistrictRisk {
  stats : DistrictAgg Q;
  gap_risk : Q; migration_risk : Q; volatility_risk : Q;
  volume_rank : Q; volume_pressure_risk : Q;
  CERS : Q; risk_category : option Category }.

Definition district_of (r : Engineered) : option DistrictKey :=
  Some (key_state (base r), key_district (base r)).

Definition fill_volatility (a : DistrictAgg (option Q)) : DistrictAgg Q :=
  {| state := state a; district := district a;
     avg_bio_completion := avg_bio_completion a;
     avg_demo_completion := avg_demo_completion a;
     avg_bio_gap := avg_bio_gap a;
     bio_gap_volatility := default 0 (bio_gap_volatility a);
     district_youth_ratio_enrol := district_youth_ratio_enrol a;
     district_youth_ratio_bio := district_youth_ratio_bio a;
     total_enrolments := total_enrolments a |}.

(** The weighted sum of the four component scores. *)
Definition composite (gap migration volatility volume : Q) : Q :=
  gap * 0.40 + migration * 0.25 + volatility * 0.20 + volume * 0.15.

(** The component scores, the CERS and the category of one district row;
    [max_volatility] and the column [totals] are those of the whole
    table. *)
Definition score (max_volatility : option Q) (totals : list Q)
    (a : DistrictAgg Q) : DistrictRisk :=
  let gap_risk := 100 - clip 0 100 (avg_bio_completion a) in
  let migration_risk :=
    clip 0 100
      (Qabs (district_youth_ratio_enrol a - district_youth_ratio_bio a) * 500) in
  let volatility_risk :=
    match max_volatility with
    | Some m => if Qlt_bool 0 m then bio_gap_volatility a / m * 100 else 0
    | None => 0
    end in
  let volume_rank := rank_pct totals (total_enrolments a) in
  let volume_pressure_risk :=
    clip 0 100 (volume_rank * (100 - avg_bio_completion a)) in
  let cers :=
    round2 (composite gap_risk migration_risk volatility_risk
              volume_pressure_risk) in
  {| stats := a;
     gap_risk := gap_risk;
     migration_risk := migration_risk;
     volatility_risk := volatility_risk;
     volume_rank := volume_rank;
     volume_pressure_risk := volume_pressure_risk;
     CERS := cers;
     risk_category :=
       cut [0; 30; 50; 70; 100] [Low; Medium; High; Critical] cers |}.

(** [sort_values('CERS', ascending=False)]: the order relation of the
    sort. *)
Definition CERS_descending (a b : DistrictRisk) : Prop :=
  Qle_bool (CERS b) (CERS a) = true.

Global Instance CERS_descending_dec a b : Decision (CERS_descending a b).
Proof. unfold CERS_descending. apply _. Defined.

Section Volatility.
Variable fsqrt : Q → Q.

(** The sample variance and [Series.std()] (one delta degree of freedom):
    missing for a group of fewer than two rows. *)
Definition var (l : list Q) : Q :=
  Qsum ((λ x, (x - mean l) * (x - mean l)) <$> l) / (Qlen l - 1).

Definition std (l : list Q) : option Q :=
  if decide (2 ≤ length l)%nat then Some (fsqrt (var l)) else None.

(** [df.groupby(['state', 'district']).agg({...})] with the columns
    renamed. *)
Definition district_agg (df : list Engineered) : list (DistrictAgg (option Q)) :=
  (λ kg : DistrictKey * list Engineered,
     {| state := kg.1.1; district := kg.1.2;
        avg_bio_completion := mean (bio_completion_rate <$> kg.2);
        avg_demo_completion := mean (demo_completion_rate <$> kg.2);
        avg_bio_gap := mean (bio_enrol_gap <$> kg.2);
        bio_gap_volatility := std (bio_enrol_gap <$> kg.2);
        district_youth_ratio_enrol := mean (youth_ratio_enrol <$> kg.2);
        district_youth_ratio_bio := mean (youth_ratio_bio <$> kg.2);
        total_enrolments := Qsum ((λ r, enrol_count (base r)) <$> kg.2) |})
    <$> groupby district_le district_of df.

(** The table [district_risk] before it is sorted. *)
Definition scored (df : list Engineered) : list DistrictRisk :=
  let agg := fill_volatility <$> district_agg df in
  let max_volatility := series_max (bio_gap_volatility <$> agg) in
  score max_volatility (total_enrolments <$> agg) <$> agg.

(** The table that [calculate_exclusion_risk_score] returns. *)
Definition district_risk (df : list Engineered) : list DistrictRisk :=
  merge_sort CERS_descending (scored df).

End Volatility.

(** The [risk_summary] dictionary. *)
Record RiskSummary := mkRiskSummary {
  total_districts : nat;
  critical_risk_districts : nat;
  high_risk_districts : nat;
  medium_risk_districts : nat;
  low_risk_districts : nat;
  avg_cers : option Q;
  top_10_districts : list (string * string * Q * option Category * Q) }.

Definition count_category (c : Category) (t : list DistrictRisk) : nat :=
  length (filter (λ r, risk_category r = Some c) t).

Definition risk_summary (t : list DistrictRisk) : RiskSummary :=
  {| total_districts := length t;
     critical_risk_districts := count_category Critical t;
     high_risk_districts := count_category High t;
     medium_risk_districts := count_category Medium t;
     low_risk_districts := count_category Low t;
     avg_cers := series_mean (CERS <$> t);
     top_10_districts :=
       (λ r, (state (stats r), district (stats r), CERS r, risk_category r,
              total_enrolments (stats r))) <$> take 10 t |}.

(** ** The analyzer object and the world it runs in *)

(** [self.combined_data]: the merged table, to which [_engineer_features]
    adds its columns in place. *)
Inductive Frame :=
| Merged (rows : list (Combined Q))
| Features (rows : list Engineered).

(** The values stored in the dictionary [self.insights].

    The statistics of [discover_hidden_pattern],
    [propose_intervention_framework] and [quantify_economic_impact]
    (quantiles, a t-test, cost estimates) are outside what is verified
    here: each of these dictionaries is represented by the data it is
    computed from, of which it is a function. *)
Inductive Insight :=
| HiddenPattern (active : list Engineered)
| CersDistricts (table : list DistrictRisk)
| CersSummary (summary : RiskSummary)
| Interventions (cers_data : list DistrictRisk) (df : list Engineered)
    (seasonal_pattern : option Insight)
| EconomicImpact (interventions cers_summary : option Insight).

Record Analyzer := mkAnalyzer {
  workspace_path : string;
  enrolment_data : option (list EnrolmentRow);
  demographic_data : option (list DemographicRow);
  biometric_data : option (list BiometricRow);
  combined_data : option Frame;
  insights : gmap string Insight }.

(** [KillerMoveAnalyzer.__init__] *)
Definition __init__ (workspace_path : string) : Analyzer :=
  {| workspace_path := workspace_path;
     enrolment_data := None; demographic_data := None;
     biometric_data := None; combined_data := None;
     insights := ∅ |}.

(** The executive report: the values interpolated into the Markdown
    template, the run date first. *)
Record Report := mkReport {
  report_date : string;
  report_cers_summary : RiskSummary;
  report_hidden_pattern : Insight;
  report_interventions : Insight;
  report_economic_impact : Insight }.

(** A version-4 UUID, as the number it encodes. *)
Definition UUID : Type := N.

(** What the pipeline writes under
    [analysis_outputs/strategic_analysis].  An HTML chart is the data it
    plots and the id of its [<div>]: [write_html] draws this id with
    [uuid.uuid4()] each time it writes a figure, so that it is no function
    of the figure. *)
Inductive Artefact :=
| CersRiskMap (div_id : UUID) (rows : list DistrictRisk)
| TopRiskDistricts (div_id : UUID) (rows : list DistrictRisk)
| EconomicImpactChart (div_id : UUID) (impact : Insight)
| SeasonalPatterns (div_id : UUID) (seasonal : list (Z * Q * Q))
| ExecutiveReport (report : Report)
| InsightsJson (json : gmap string Insight).

Inductive Method :=
| m_load_all_datasets | m_create_integrated_dataset
| m_discover_hidden_pattern | m_calculate_exclusion_risk_score
| m_propose_intervention_framework | m_quantify_economic_impact
| m_generate_visualizations | m_generate_executive_report.

Global Instance Method_eq_dec : EqDecision Method.
Proof. solve_decision. Defined.

(** The pieces of state a method consumes or produces: the attributes of
    [self], the keys of [self.insights], and the output directory. *)
Inductive Field :=
| f_enrolment_data | f_demographic_data | f_biometric_data
| f_combined_data | f_insights (k : string) | f_output_dir.

Global Instance Field_eq_dec : EqDecision Field.
Proof. solve_decision. Defined.

Inductive Event :=
| Enter (m : Method)
| Consume (f : Field)
| Produce (f : Field).

Global Instance Event_eq_dec : EqDecision Event.
Proof. solve_decision. Defined.

Inductive Exception :=
| ValueError                     (* pd.concat: no objects to concatenate *)
| NoneTypeError (f : Field)      (* an attribute of self is still None *)
| KeyError (k : string)          (* a missing dictionary key or column *)
| FileNotFoundError              (* the output directory does not exist *)
| TypeError                      (* a stored value of another type *)
| NonFiniteCell.                 (* not raised by Python: see [engineer_row] *)

Record World := mkWorld {
  self : Analyzer;
  trace : list Event;
  output_dir : bool;
  written : list (string * Artefact) }.

(** The input files, in the order in which [glob.glob] lists them: each
    file as the table that [pd.read_csv] returns for it, its dates as
    [pd.to_datetime] parses them.  A file that [read_csv] rejects, a table
    without one of the columns the pipeline reads and a date that
    [to_datetime] rejects are no values of this type: the exceptions they
    raise are outside the model. *)
Record Files := mkFiles {
  api_data_aadhar_enrolment : list (list EnrolmentRow);
  api_data_aadhar_demographic : list (list DemographicRow);
  api_data_aadhar_biometric : list (list BiometricRow) }.

(** ** A state-and-exception monad for the methods *)

Definition M (A : Type) : Type := World → Exception + A * World.

Global Instance M_ret : MRet M := λ A a w, inr (a, w).

Global Instance M_bind : MBind M := λ A B f m w,
  match m w with
  | inl e => inl e
  | inr (a, w') => f a w'
  end.

Definition raise {A} (e : Exception) : M A := λ _, inl e.

Definition emit (e : Event) : M () := λ w,
  inr ((), {| self := self w; trace := trace w ++ [e];
              output_dir := output_dir w; written := written w |}).

Definition get_self : M Analyzer := λ w, inr (self w, w).

Definition put_self (s : Analyzer) : M () := λ w,
  inr ((), {| self := s; trace := trace w;
              output_dir := output_dir w; written := written w |}).

(** [os.makedirs(output_dir, exist_ok=True)] *)
Definition makedirs : M () := λ w,
  inr ((), {| self := self w; trace := trace w ++ [Produce f_output_dir];
              output_dir := true; written := written w |}).

(** Writing a file of the output directory, which must exist. *)
Definition write_file (name : string) (a : Artefact) : M () := λ w,
  if output_dir w then
    inr ((), {| self := self w; trace := trace w ++ [Consume f_output_dir];
                output_dir := output_dir w; written := written w ++ [(name, a)] |})
  else inl FileNotFoundError.

(** Reading an attribute of [self] that must not be [None]. *)
Definition attribute {A} (f : Field) (get : Analyzer → option A) : M A :=
  emit (Consume f);;
  s ← get_self;
  match get s with
  | Some v => mret v
  | None => raise (NoneTypeError f)
  end.

(** [self.combined_data] with the engineered columns; [column] is the
    first of them the caller looks up. *)
Definition features (column : string) : M (list Engineered) :=
  fr ← attribute f_combined_data combined_data;
  match fr with
  | Features rows => mret rows
  | Merged _ => raise (KeyError column)
  end.

(** [self.insights[k]] *)
Definition insight (k : string) : M Insight :=
  emit (Consume (f_insights k));;
  s ← get_self;
  match insights s !! k with
  | Some v => mret v
  | None => raise (KeyError k)
  end.

(** [self.insights.get(k, {})] *)
Definition insight_get (k : string) : M (option Insight) :=
  emit (Consume (f_insights k));;
  s ← get_self;
  mret (insights s !! k).

(** [self.insights[k] = v] *)
Definition set_insight (k : string) (v : Insight) : M () :=
  s ← get_self;
  put_self {| workspace_path := workspace_path s;
              enrolment_data := enrolment_data s;
              demographic_data := demographic_data s;
              biometric_data := biometric_data s;
              combined_data := combined_data s;
              insights := <[k := v]> (insights s) |};;
  emit (Produce (f_insights k)).

Definition set_combined_data (fr : Frame) : M () :=
  s ← get_self;
  put_self {| workspace_path := workspace_path s;
              enrolment_data := enrolment_data s;
              demographic_data := demographic_data s;
              biometric_data := biometric_data s;
              combined_data := Some fr;
              insights := insights s |};;
  emit (Produce f_combined_data).

(** [pd.concat(dfs, ignore_index=True)] *)
Definition pd_concat {A} (dfs : list (list A)) : M (list A) :=
  match dfs with
  | [] => raise ValueError
  | _ => mret (concat dfs)
  end.

(** ** Paths *)

(** [s.endswith('/')] *)
Fixpoint endswith_sep (s : string) : bool :=
  match s with
  | EmptyString => false
  | String c EmptyString => Ascii.eqb c "/"%char
  | String _ s' => endswith_sep s'
  end.

(** [os.path.join(a, b)] of [posixpath] *)
Definition os_path_join (a b : string) : string :=
  if String.prefix "/" b then b
  else if bool_decide (a = EmptyString) || endswith_sep a then String.append a b
  else String.append a (String.append "/" b).

(** [os.path.join(self.workspace_path, "analysis_outputs",
    "strategic_analysis")], the [output_dir] of the two rendering
    methods. *)
Definition strategic_analysis_dir (workspace_path : string) : string :=
  os_path_join (os_path_join workspace_path "analysis_outputs")
    "strategic_analysis".

(** [os.path.join(output_dir, "strategic_analysis_REPORT.md")] *)
Definition report_path (workspace_path : string) : string :=
  os_path_join (strategic_analysis_dir workspace_path)
    "strategic_analysis_REPORT.md".

(** ** The methods of [KillerMoveAnalyzer] *)

Definition load_all_datasets (files : Files) : M () :=
  emit (Enter m_load_all_datasets);;
  enrolment ← pd_concat (api_data_aadhar_enrolment files);
  s ← get_self;
  put_self {| workspace_path := workspace_path s;
              enrolment_data := Some enrolment;
              demographic_data := demographic_data s;
              biometric_data := biometric_data s;
              combined_data := combined_data s;
              insights := insights s |};;
  emit (Produce f_enrolment_data);;
  demographic ← pd_concat (api_data_aadhar_demographic files);
  s ← get_self;
  put_self {| workspace_path := workspace_path s;
              enrolment_data := enrolment_data s;
              demographic_data := Some demographic;
              biometric_data := biometric_data s;
              combined_data := combined_data s;
              insights := insights s |};;
  emit (Produce f_demographic_data);;
  biometric ← pd_concat (api_data_aadhar_biometric files);
  s ← get_self;
  put_self {| workspace_path := workspace_path s;
              enrolment_data := enrolment_data s;
              demographic_data := demographic_data s;
              biometric_data := Some biometric;
              combined_data := combined_data s;
              insights := insights s |};;
  emit (Produce f_biometric_data).

Definition frame_rows (fr : Frame) : list (Combined Q) :=
  match fr with
  | Merged rows => rows
  | Features rows => base <$> rows
  end.

Definition _engineer_features : M () :=
  df ← attribute f_combined_data combined_data;
  match engineer (frame_rows df) with
  | Some rows => set_combined_data (Features rows)
  | None => raise NonFiniteCell
  end.

Definition create_integrated_dataset : M () :=
  emit (Enter m_create_integrated_dataset);;
  enrolment ← attribute f_enrolment_data enrolment_data;
  demographic ← attribute f_demographic_data demographic_data;
  biometric ← attribute f_biometric_data biometric_data;
  set_combined_data (Merged (combined enrolment demographic biometric));;
  _engineer_features.

Definition discover_hidden_pattern : M Insight :=
  emit (Enter m_discover_hidden_pattern);;
  df ← features "month";
  let active :=
    List.filter (λ r, Qlt_bool 0 (enrol_count (base r))
                      && Qlt_bool 0 (bio_count (base r))) df in
  set_insight "hidden_pattern" (HiddenPattern active);;
  insight "hidden_pattern".

(** [groupby('month')] with the mean of the two completion rates, for the
    seasonal chart. *)
Definition seasonal (df : list Engineered) : list (Z * Q * Q) :=
  (λ kg : Z * list Engineered,
     (kg.1, mean (bio_completion_rate <$> kg.2),
      mean (demo_completion_rate <$> kg.2)))
    <$> groupby Z.le (λ r, Some (month r)) df.

Section Pipeline.
Variable fsqrt : Q → Q.

Definition calculate_exclusion_risk_score : M (list DistrictRisk) :=
  emit (Enter m_calculate_exclusion_risk_score);;
  df ← features "bio_completion_rate";
  let district_risk := district_risk fsqrt df in
  set_insight "cers_districts" (CersDistricts district_risk);;
  set_insight "cers_summary" (CersSummary (risk_summary district_risk));;
  mret district_risk.

Definition propose_intervention_framework (cers_data : list DistrictRisk)
  : M Insight :=
  emit (Enter m_propose_intervention_framework);;
  df ← features "bio_completion_rate";
  seasonal_pattern ← insight_get "hidden_pattern";
  let interventions := Interventions cers_data df seasonal_pattern in
  set_insight "interventions" interventions;;
  mret interventions.

Definition quantify_economic_impact : M Insight :=
  emit (Enter m_quantify_economic_impact);;
  interventions ← insight_get "interventions";
  cers_summary ← insight_get "cers_summary";
  let impact := EconomicImpact interventions cers_summary in
  set_insight "economic_impact" impact;;
  mret impact.

(** [self.insights['cers_districts']], a district table. *)
Definition cers_districts : M (list DistrictRisk) :=
  i ← insight "cers_districts";
  match i with
  | CersDistricts t => mret t
  | _ => raise TypeError
  end.

(** [self.insights['cers_summary']], a summary dictionary. *)
Definition cers_summary : M RiskSummary :=
  i ← insight "cers_summary";
  match i with
  | CersSummary s => mret s
  | _ => raise TypeError
  end.

(** [uuid4 k] is the value that the call number [k] of [uuid.uuid4()]
    returns during this call of the method: one call per figure
    written. *)
Definition generate_visualizations (uuid4 : nat → UUID) : M () :=
  emit (Enter m_generate_visualizations);;
  makedirs;;
  cers_data ← cers_districts;
  write_file "cers_risk_map.html"
    (CersRiskMap (uuid4 0%nat) (take 100 cers_data));;
  write_file "top_risk_districts.html"
    (TopRiskDistricts (uuid4 1%nat) (take 20 cers_data));;
  impact ← insight "economic_impact";
  write_file "economic_impact.html" (EconomicImpactChart (uuid4 2%nat) impact);;
  df ← features "month";
  write_file "seasonal_patterns.html"
    (SeasonalPatterns (uuid4 3%nat) (seasonal df)).

(** [strftime('%B %d, %Y')] *)
Definition month_name (m : Z) : string :=
  match m with
  | 1 => "January" | 2 => "February" | 3 => "March" | 4 => "April"
  | 5 => "May" | 6 => "June" | 7 => "July" | 8 => "August"
  | 9 => "September" | 10 => "October" | 11 => "November"
  | 12 => "December" | _ => ""
  end%Z.

Definition strftime_B_d_Y (now : Date) : string :=
  month_name (dt_month now) +:+ " "
  +:+ (if (dt_day now <? 10)%Z then "0" else "") +:+ pretty (dt_day now)
  +:+ ", " +:+ pretty (dt_year now).

(** [insights_serializable]: a copy of [self.insights] in which the
    district table is cut to its first 100 rows. *)
Definition insights_serializable (ins : gmap string Insight)
  : gmap string Insight :=
  match ins !! "cers_districts" with
  | Some (CersDistricts t) =>
      <["cers_districts" := CersDistricts (take 100 t)]> ins
  | _ => ins
  end.

Definition generate_executive_report (now : Date) : M string :=
  emit (Enter m_generate_executive_report);;
  cers_summary ← cers_summary;
  hidden_pattern ← insight "hidden_pattern";
  interventions ← insight "interventions";
  economic_impact ← insight "economic_impact";
  let report :=
    {| report_date := strftime_B_d_Y now;
       report_cers_summary := cers_summary;
       report_hidden_pattern := hidden_pattern;
       report_interventions := interventions;
       report_economic_impact := economic_impact |} in
  write_file "strategic_analysis_REPORT.md" (ExecutiveReport report);;
  s ← get_self;
  write_file "strategic_analysis_insights.json"
    (InsightsJson (insights_serializable (insights s)));;
  mret (report_path (workspace_path s)).

(** [run_full_analysis]; [now] is the date [datetime.now()] returns when
    the report is generated, and [uuid4] the values [uuid.uuid4()]
    returns while the charts are written. *)
Definition run_full_analysis (files : Files) (now : Date)
    (uuid4 : nat → UUID) : M string :=
  load_all_datasets files;;
  create_integrated_dataset;;
  discover_hidden_pattern;;
  cers_data ← calculate_exclusion_risk_score;
  propose_intervention_framework cers_data;;
  quantify_economic_impact;;
  generate_visualizations uuid4;;
  report_path ← generate_executive_report now;
  mret report_path.

End Pipeline.

(** The world in which [analyzer = KillerMoveAnalyzer(workspace)] has just
    been built; [output_dir] tells whether the output directory is
    already there. *)
Definition boot (workspace : string) (output_dir : bool) : World :=
  {| self := __init__ workspace; trace := [];
     output_dir := output_dir; written := [] |}.

(** A square root to ten decimal places, the instance of [fsqrt] the
    examples run with. *)
Definition sqrt10 (x : Q) : Q :=
  inject_Z (Z.sqrt (Qfloor (x * inject_Z (10 ^ 20)))) / inject_Z (10 ^ 10).

(** ** Vocabulary of the statements

    What a row of the merged table holds on each of its three sides:
    zeros where the side is absent, the aggregate's values where it is
    present. *)

Definition enrol_absent (c : Combined Q) : Prop :=
  age_0_5 c = 0 ∧ age_5_17 c = 0 ∧ age_18_greater c = 0 ∧ enrol_count c = 0.

Definition demo_absent (c : Combined Q) : Prop :=
  demo_age_5_17 c = 0 ∧ demo_age_17_ c = 0 ∧ demo_count c = 0.

Definition bio_absent (c : Combined Q) : Prop :=
  bio_age_5_17 c = 0 ∧ bio_age_17_ c = 0 ∧ bio_count c = 0.

Definition enrol_from (a : EnrolAgg) (c : Combined Q) : Prop :=
  age_0_5 c = ea_age_0_5 a ∧ age_5_17 c = ea_age_5_17 a ∧
  age_18_greater c = ea_age_18_greater a ∧ enrol_count c = ea_enrol_count a.

Definition demo_from (a : DemoAgg) (c : Combined Q) : Prop :=
  demo_age_5_17 c = da_demo_age_5_17 a ∧ demo_age_17_ c = da_demo_age_17_ a ∧
  demo_count c = da_demo_count a.

Definition bio_from (a : BioAgg) (c : Combined Q) : Prop :=
  bio_age_5_17 c = ba_bio_age_5_17 a ∧ bio_age_17_ c = ba_bio_age_17_ a ∧
  bio_count c = ba_bio_count a.

(** ** A small run

    Two districts of one state over two dates, and a third district that
    only the demographic file knows. *)

Definition sample_enrolment (d : Date) (state district : string)
    (a b c : Z) : EnrolmentRow :=
  mkEnrolment (Some d) (Some state) (Some district) (Some "403001")
    (Some (inject_Z a)) (Some (inject_Z b)) (Some (inject_Z c)).

Definition sample_demographic (d : Date) (state district : string)
    (a b : Z) : DemographicRow :=
  mkDemographic (Some d) (Some state) (Some district) (Some "403001")
    (Some (inject_Z a)) (Some (inject_Z b)).

Definition sample_biometric (d : Date) (state district : string)
    (a b : Z) : BiometricRow :=
  mkBiometric (Some d) (Some state) (Some district) (Some "403001")
    (Some (inject_Z a)) (Some (inject_Z b)).

Definition sample_files : Files :=
  let d1 := mkDate 2025 3 14 in
  let d2 := mkDate 2025 4 2 in
  {| api_data_aadhar_enrolment :=
       [[sample_enrolment d1 "Goa" "North Goa" 1 2 3;
         sample_enrolment d1 "Goa" "North Goa" 1 0 0];
        [sample_enrolment d2 "Goa" "North Goa" 1 2 3;
         sample_enrolment d2 "Goa" "South Goa" 4 4 4]];
     api_data_aadhar_demographic :=
       [[sample_demographic d1 "Goa" "North Goa" 5 5;
         sample_demographic d2 "Kerala" "Idukki" 1 1]];
     api_data_aadhar_biometric :=
       [[sample_biometric d1 "Goa" "North Goa" 2 2;
         sample_biometric d2 "Goa" "North Goa" 2 2;
         sample_biometric d2 "Goa" "North Goa" 2 2;
         sample_biometric d2 "Goa" "North Goa" 2 2]] |}.


(** Two sequences of values of [uuid.uuid4()], for two runs. *)
Definition uuid4_first_run (k : nat) : UUID := N.of_nat (2 * k).

(** The world after [load_all_datasets] on the sample files. *)
Definition sample_loaded : World := Eval vm_compute in
  match load_all_datasets sample_files (boot "workspace" false) with
  | inr (_, w) => w
  | inl _ => boot "workspace" false
  end.

(** A merged row with no enrolment, demographic or biometric activity. *)
Definition idle_row : Combined Q :=
  {| key := (mkDate 2025 4 2, "Kerala", "Idukki");
     age_0_5 := 0; age_5_17 := 0; age_18_greater := 0; enrol_count := 0;
     demo_age_5_17 := 0; demo_age_17_ := 0; demo_count := 0;
     bio_age_5_17 := 0; bio_age_17_ := 0; bio_count := 0 |}.

(** The world after [create_integrated_dataset] on the loaded sample. *)
Definition sample_integrated : World := Eval vm_compute in
  match create_integrated_dataset sample_loaded with
  | inr (_, w) => w
  | inl _ => sample_loaded
  end.

(** The district table of the sample run and the world it leaves. *)
Definition sample_scored : list DistrictRisk * World := Eval vm_compute in
  match calculate_exclusion_risk_score sqrt10 sample_integrated with
  | inr tw => tw
  | inl _ => ([], sample_integrated)
  end.

(** A run in which one district is known to the demographic file only;
    the enrolment and biometric files hold no line. *)
Definition lone_files : Files :=
  {| api_data_aadhar_enrolment := [[]];
     api_data_aadhar_demographic :=
       [[sample_demographic (mkDate 2025 4 2) "Kerala" "Idukki" 1 1]];
     api_data_aadhar_biometric := [[]] |}.

Definition lone_integrated : World := Eval vm_compute in
  match (load_all_datasets lone_files;; create_integrated_dataset)
          (boot "workspace" false) with
  | inr (_, w) => w
  | inl _ => boot "workspace" false
  end.

(** ** The closed form of a run

    What a run that starts from a freshly built analyzer leaves behind,
    written as a function of the input files and of the run date; the
    theorems below show that [run_full_analysis] computes exactly this. *)

Definition pipeline_trace : list Event :=
  [ Enter m_load_all_datasets;
      Produce f_enrolment_data; Produce f_demographic_data;
      Produce f_biometric_data;
    Enter m_create_integrated_dataset;
      Consume f_enrolment_data; Consume f_demographic_data;
      Consume f_biometric_data; Produce f_combined_data;
      Consume f_combined_data; Produce f_combined_data;
    Enter m_discover_hidden_pattern;
      Consume f_combined_data; Produce (f_insights "hidden_pattern");
      Consume (f_insights "hidden_pattern");
    Enter m_calculate_exclusion_risk_score;
      Consume f_combined_data; Produce (f_insights "cers_districts");
      Produce (f_insights "cers_summary");
    Enter m_propose_intervention_framework;
      Consume f_combined_data; Consume (f_insights "hidden_pattern");
      Produce (f_insights "interventions");
    Enter m_quantify_economic_impact;
      Consume (f_insights "interventions");
      Consume (f_insights "cers_summary");
      Produce (f_insights "economic_impact");
    Enter m_generate_visualizations;
      Produce f_output_dir; Consume (f_insights "cers_districts");
      Consume f_output_dir; Consume f_output_dir;
      Consume (f_insights "economic_impact"); Consume f_output_dir;
      Consume f_combined_data; Consume f_output_dir;
    Enter m_generate_executive_report;
      Consume (f_insights "cers_summary");
      Consume (f_insights "hidden_pattern");
      Consume (f_insights "interventions");
      Consume (f_insights "economic_impact");
      Consume f_output_dir; Consume f_output_dir ].

Section ClosedForm.
Variable fsqrt : Q → Q.

Definition final_hidden_pattern (df : list Engineered) : Insight :=
  HiddenPattern
    (List.filter (λ r, Qlt_bool 0 (enrol_count (base r))
                       && Qlt_bool 0 (bio_count (base r))) df).

Definition final_interventions (df : list Engineered) : Insight :=
  Interventions (district_risk fsqrt df) df (Some (final_hidden_pattern df)).

Definition final_summary (df : list Engineered) : Insight :=
  CersSummary (risk_summary (district_risk fsqrt df)).

Definition final_impact (df : list Engineered) : Insight :=
  EconomicImpact (Some (final_interventions df)) (Some (final_summary df)).

Definition final_insights (df : list Engineered) : gmap string Insight :=
  <["economic_impact" := final_impact df]>
    (<["interventions" := final_interventions df]>
       (<["cers_summary" := final_summary df]>
          (<["cers_districts" := CersDistricts (district_risk fsqrt df)]>
             (<["hidden_pattern" := final_hidden_pattern df]> ∅)))).

Definition final_report (df : list Engineered) (now : Date) : Report :=
  {| report_date := strftime_B_d_Y now;
     report_cers_summary := risk_summary (district_risk fsqrt df);
     report_hidden_pattern := final_hidden_pattern df;
     report_interventions := final_interventions df;
     report_economic_impact := final_impact df |}.

Definition final_world (workspace : string) (files : Files) (now : Date)
    (uuid4 : nat → UUID) : World :=
  let enrolment := concat (api_data_aadhar_enrolment files) in
  let demographic := concat (api_data_aadhar_demographic files) in
  let biometric := concat (api_data_aadhar_biometric files) in
  let df := default [] (engineer (combined enrolment demographic biometric)) in
  {| self :=
       {| workspace_path := workspace;
          enrolment_data := Some enrolment;
          demographic_data := Some demographic;
          biometric_data := Some biometric;
          combined_data := Some (Features df);
          insights := final_insights df |};
     trace := pipeline_trace;
     output_dir := true;
     written :=
       [ ("cers_risk_map.html",
          CersRiskMap (uuid4 0%nat) (take 100 (district_risk fsqrt df)));
         ("top_risk_districts.html",
          TopRiskDistricts (uuid4 1%nat) (take 20 (district_risk fsqrt df)));
         ("economic_impact.html",
          EconomicImpactChart (uuid4 2%nat) (final_impact df));
         ("seasonal_patterns.html",
          SeasonalPatterns (uuid4 3%nat) (seasonal df));
         ("strategic_analysis_REPORT.md",
          ExecutiveReport (final_report df now));
         ("strategic_analysis_insights.json",
          InsightsJson (insights_serializable (final_insights df))) ] |}.

End ClosedForm.

(** The files hold at least one CSV file of each kind. *)
Definition has_files (files : Files) : Prop :=
  api_data_aadhar_enrolment files ≠ [] ∧
  api_data_aadhar_demographic files ≠ [] ∧
  api_data_aadhar_biometric files ≠ [].

(** The methods a trace enters, in order. *)
Definition entered (tr : list Event) : list Method :=
  omap (λ e, match e with Enter m => Some m | _ => None end) tr.

(** No event of [tr] consumes a piece of state that is neither in [seen]
    nor produced earlier in [tr]. *)
Fixpoint produced_before (seen : list Field) (tr : list Event) : bool :=
  match tr with
  | [] => true
  | Enter _ :: tr' => produced_before seen tr'
  | Produce f :: tr' => produced_before (f :: seen) tr'
  | Consume f :: tr' => bool_decide (f ∈ seen) && produced_before seen tr'
  end.




(** ** [generate_presentation_dashboard.py]: the second chart

    [top_20] as the script selects it from the [top_10_districts] list of
    the insights file. *)

Definition top_20 {A} (top_10_districts : list A) : list A :=
  if decide (20 ≤ length top_10_districts)%nat
  then take 20 top_10_districts
  else top_10_districts.

(** The rows of a district table that [pd.cut] left without a category. *)
Definition uncategorised (t : list DistrictRisk) : nat :=
  length (filter (λ r, risk_category r = None) t).

(** ** [propose_intervention_framework]: the figures

    The numbers the method stores under ['interventions'], as functions
    of its argument [cers_data] and of [self.combined_data]. *)

(** Python's [int()] on a float: truncation toward zero. *)
Definition int_ (x : Q) : Z := Z.quot (Qnum x) (Z.pos (Qden x)).

Definition string_le (a b : string) : Prop := String.compare a b ≠ Gt.

Global Instance string_le_dec a b : Decision (string_le a b).
Proof. unfold string_le. apply _. Defined.

(** [pd.concat([critical_districts, high_districts])] *)
Definition priority_districts (cers_data : list DistrictRisk)
  : list DistrictRisk :=
  filter (λ r, risk_category r = Some Critical) cers_data
  ++ filter (λ r, risk_category r = Some High) cers_data.

Record Route := mkRoute {
  route_state : string;
  route_priority_districts : list string;
  avg_risk_score : Q;
  affected_population : Q }.

Definition avg_risk_descending (a b : Route) : Prop :=
  Qle_bool (avg_risk_score b) (avg_risk_score a) = true.

Global Instance avg_risk_descending_dec a b : Decision (avg_risk_descending a b).
Proof. unfold avg_risk_descending. apply _. Defined.

Definition routes_by_state (priority : list DistrictRisk) : list Route :=
  merge_sort avg_risk_descending
    ((λ kg : string * list DistrictRisk,
        {| route_state := kg.1;
           route_priority_districts := (λ r, district (stats r)) <$> kg.2;
           avg_risk_score := mean (CERS <$> kg.2);
           affected_population :=
             Qsum ((λ r, total_enrolments (stats r)) <$> kg.2) |})
       <$> groupby string_le (λ r, Some (state (stats r))) priority).

Record MobileVanOptimizer := mkMobileVanOptimizer {
  priority_states : list Route;
  total_districts_to_cover : nat;
  estimated_population_reached : Z }.

Definition mobile_van_optimizer (cers_data : list DistrictRisk)
  : MobileVanOptimizer :=
  let priority := priority_districts cers_data in
  {| priority_states := take 10 (routes_by_state priority);
     total_districts_to_cover := length priority;
     estimated_population_reached :=
       int_ (Qsum ((λ r, total_enrolments (stats r)) <$> priority)) |}.

(** [Series.max()] of the date column, as a day number: missing on an
    empty column. *)
Definition latest_day (df : list Engineered) : option Z :=
  match df with
  | [] => None
  | r :: df' =>
      Some (foldr (λ x m, Z.max (days_from_civil (date (base x))) m)
              (days_from_civil (date (base r))) df')
  end.

(** [df[df['date'] >= df['date'].max() - pd.Timedelta(days=90)]] *)
Definition recent_data (df : list Engineered) : list Engineered :=
  match latest_day df with
  | Some m => filter (λ r, (m - 90 ≤ days_from_civil (date (base r)))%Z) df
  | None => []
  end.

Record AlertCandidate := mkAlertCandidate {
  alert_state : string; alert_district : string;
  alert_bio_completion_rate : Q; alert_demo_completion_rate : Q;
  alert_enrol_count : Q }.

Definition alert_candidates (df : list Engineered) : list AlertCandidate :=
  List.filter
    (λ a, Qlt_bool (alert_bio_completion_rate a) 80
          && Qlt_bool 50 (alert_enrol_count a))
    ((λ kg : DistrictKey * list Engineered,
        {| alert_state := kg.1.1; alert_district := kg.1.2;
           alert_bio_completion_rate := mean (bio_completion_rate <$> kg.2);
           alert_demo_completion_rate := mean (demo_completion_rate <$> kg.2);
           alert_enrol_count :=
             Qsum ((λ r, enrol_count (base r)) <$> kg.2) |})
       <$> groupby district_le district_of (recent_data df)).

Record ProactiveAlerts := mkProactiveAlerts {
  alert_target_districts : nat;
  estimated_beneficiaries : Z;
  cost_per_sms : Q;
  total_campaign_cost : Q }.

Definition proactive_alerts (df : list Engineered) : ProactiveAlerts :=
  let candidates := alert_candidates df in
  let enrol := Qsum (alert_enrol_count <$> candidates) in
  {| alert_target_districts := length candidates;
     estimated_beneficiaries := int_ (enrol * 0.3);
     cost_per_sms := 0.10;
     total_campaign_cost := enrol * 0.3 * 0.10 |}.

Definition total_enrolments_descending (a b : DistrictRisk) : Prop :=
  Qle_bool (total_enrolments (stats b)) (total_enrolments (stats a)) = true.

Global Instance total_enrolments_descending_dec a b :
  Decision (total_enrolments_descending a b).
Proof. unfold total_enrolments_descending. apply _. Defined.

(** [cers_data[cers_data['volatility_risk'] > 70]], sorted by
    [total_enrolments], largest first. *)
Definition volatile_districts (cers_data : list DistrictRisk)
  : list DistrictRisk :=
  merge_sort total_enrolments_descending
    (List.filter (λ r, Qlt_bool 70 (volatility_risk r)) cers_data).

Record CapacityBuilding := mkCapacityBuilding {
  capacity_target_districts : nat;
  priority_locations : list (string * string * Q * Q) }.

Definition capacity_building (cers_data : list DistrictRisk)
  : CapacityBuilding :=
  let volatile := volatile_districts cers_data in
  {| capacity_target_districts := length volatile;
     priority_locations :=
       (λ r, (state (stats r), district (stats r), volatility_risk r,
              total_enrolments (stats r))) <$> take 20 volatile |}.

(** ** [quantify_economic_impact]: the figures

    The amounts before they are formatted as currency strings.
    [interventions] is [self.insights.get('interventions', {})]; a field
    of a missing dictionary reads as 0. *)

Record EconomicFigures := mkEconomicFigures {
  citizens_at_risk : Z;
  annual_exclusion_cost : Z;
  num_vans_needed : Z;
  mobile_van_annual_cost : Z;
  citizens_served_by_vans : Q;
  alert_cost : Q;
  capacity_building_cost : Z;
  total_intervention_cost : Q;
  citizens_helped : Q;
  exclusion_prevented_savings : Q;
  efficiency_savings : Q;
  admin_savings : Q;
  total_annual_savings : Q;
  net_benefit : Q;
  roi : Q;
  payback_period_months : option Q }.

(** Python's [min(a, b)]: [b] only where it is strictly smaller. *)
Definition py_min (a b : Q) : Q := if Qlt_bool b a then b else a.

Definition economic_figures (affected_population : Z)
    (total_districts_to_cover : Z) (alert_cost : Q)
    (alert_beneficiaries : Z) (target_districts : Z) : EconomicFigures :=
  let COST_PER_EXCLUDED_CITIZEN := 5000%Z in
  let MOBILE_VAN_COST := 200000%Z in
  let ENROLLMENT_CENTER_UPGRADE := 500000%Z in
  let CITIZENS_PER_VAN_PER_DAY := 150%Z in
  let WORKING_DAYS_PER_MONTH := 25%Z in
  let BENEFIT_DELIVERY_EFFICIENCY_GAIN := 0.15 in
  let exclusion_rate := 0.20 in
  let citizens_at_risk := int_ (inject_Z affected_population * exclusion_rate) in
  let annual_exclusion_cost := (citizens_at_risk * COST_PER_EXCLUDED_CITIZEN)%Z in
  let num_vans_needed := int_ (inject_Z total_districts_to_cover / 5) in
  let mobile_van_annual_cost := (num_vans_needed * MOBILE_VAN_COST * 12)%Z in
  let citizens_served_by_vans :=
    inject_Z (num_vans_needed * CITIZENS_PER_VAN_PER_DAY
              * WORKING_DAYS_PER_MONTH * 12) * 0.7 in
  let num_centers := (target_districts * 2)%Z in
  let capacity_building_cost := (num_centers * ENROLLMENT_CENTER_UPGRADE)%Z in
  let total_intervention_cost :=
    inject_Z mobile_van_annual_cost + alert_cost
    + inject_Z capacity_building_cost in
  let citizens_helped :=
    py_min (citizens_served_by_vans + inject_Z alert_beneficiaries)
           (inject_Z citizens_at_risk) in
  let exclusion_prevented_savings :=
    citizens_helped * inject_Z COST_PER_EXCLUDED_CITIZEN in
  let avg_benefit_per_citizen := 12000%Z in
  let efficiency_savings :=
    inject_Z (affected_population * avg_benefit_per_citizen)
    * BENEFIT_DELIVERY_EFFICIENCY_GAIN in
  let reapplication_cost_per_case := 500 in
  let reapplications_prevented := citizens_helped * 0.5 in
  let admin_savings := reapplications_prevented * reapplication_cost_per_case in
  let total_annual_savings :=
    exclusion_prevented_savings + efficiency_savings + admin_savings in
  let net_benefit := total_annual_savings - total_intervention_cost in
  {| citizens_at_risk := citizens_at_risk;
     annual_exclusion_cost := annual_exclusion_cost;
     num_vans_needed := num_vans_needed;
     mobile_van_annual_cost := mobile_van_annual_cost;
     citizens_served_by_vans := citizens_served_by_vans;
     alert_cost := alert_cost;
     capacity_building_cost := capacity_building_cost;
     total_intervention_cost := total_intervention_cost;
     citizens_helped := citizens_helped;
     exclusion_prevented_savings := exclusion_prevented_savings;
     efficiency_savings := efficiency_savings;
     admin_savings := admin_savings;
     total_annual_savings := total_annual_savings;
     net_benefit := net_benefit;
     roi := if Qlt_bool 0 total_intervention_cost
            then net_benefit / total_intervention_cost * 100 else 0;
     payback_period_months :=
       if Qlt_bool 0 total_annual_savings
       then Some (total_intervention_cost / (total_annual_savings / 12))
       else None |}.

(** The figures of the dictionary that [quantify_economic_impact] stores,
    read off the stored interventions. *)
Definition economic_impact_figures (interventions : option Insight)
  : EconomicFigures :=
  match interventions with
  | Some (Interventions cers_data df _) =>
      economic_figures
        (estimated_population_reached (mobile_van_optimizer cers_data))
        (Z.of_nat (total_districts_to_cover (mobile_van_optimizer cers_data)))
        (total_campaign_cost (proactive_alerts df))
        (estimated_beneficiaries (proactive_alerts df))
        (Z.of_nat (capacity_target_districts (capacity_building cers_data)))
  | _ => economic_figures 0 0 0 0 0
  end.

(** ** Vocabulary on the input files *)

(** A cell holds no negative number. *)
Definition nonneg_cell (c : option Q) : Prop := ∀ q, c = Some q → 0 <= q.

(** The age columns of the three input tables hold no negative number. *)
Definition nonneg_ages (e : list EnrolmentRow) (d : list DemographicRow)
    (b : list BiometricRow) : Prop :=
  Forall (λ r, nonneg_cell (enr_age_0_5 r) ∧ nonneg_cell (enr_age_5_17 r)
               ∧ nonneg_cell (enr_age_18_greater r)) e ∧
  Forall (λ r, nonneg_cell (dem_demo_age_5_17 r)
               ∧ nonneg_cell (dem_demo_age_17_ r)) d ∧
  Forall (λ r, nonneg_cell (bio_bio_age_5_17 r)
               ∧ nonneg_cell (bio_bio_age_17_ r)) b.


(** A merged row of a busy district: 60 enrolment records and 30 biometric
    records on one day, and the table that holds this row alone. *)
Definition busy_row : Combined Q :=
  {| key := (mkDate 2025 4 2, "Goa", "North Goa");
     age_0_5 := 10; age_5_17 := 20; age_18_greater := 30; enrol_count := 60;
     demo_age_5_17 := 20; demo_age_17_ := 40; demo_count := 60;
     bio_age_5_17 := 10; bio_age_17_ := 20; bio_count := 30 |}.

Definition busy_rows : list Engineered := Eval vm_compute in
  default [] (engineer [busy_row]).

(** ** [biometric_analysis.py], [multi_dataset_analysis.py]: file names

    A string is the UTF-8 text of the Python string.  The two patterns of
    [safe_name] are ASCII characters, which occur in UTF-8 text only as
    themselves, so that replacing bytes is replacing characters. *)

(** [s.replace(old, new)] for one-character [old] and [new]. *)
Fixpoint str_replace (old new : ascii) (s : string) : string :=
  match s with
  | EmptyString => EmptyString
  | String c s' =>
      String (if Ascii.eqb c old then new else c) (str_replace old new s')
  end.

(** [name.replace(" ", "_").replace("/", "-")] *)
Definition safe_name (name : string) : string :=
  str_replace "/"%char "-"%char (str_replace " "%char "_"%char name).

(** The path that [save_plot] writes the figure to, and returns. *)
Definition save_plot (out_dir name : string) : string :=
  os_path_join out_dir (String.append (safe_name name) ".png").

(** The path that [save_html] writes the figure to, and returns. *)
Definition save_html (out_dir name : string) : string :=
  os_path_join out_dir (String.append (safe_name name) ".html").

(** ** [generate_insights.py]: columns and shares *)

(** [k in s] on strings *)
Fixpoint str_in (k s : string) : bool :=
  String.prefix k s
  || match s with
     | EmptyString => false
     | String _ s' => str_in k s'
     end.

Section Columns.
(** [str.lower] *)
Variable lower : string → string.

(** [any(k in c.lower() for k in keys)] *)
Definition any_key_in (keys : list string) (c : string) : bool :=
  existsb (λ k, str_in k (lower c)) keys.

Fixpoint pick_col (cols keys : list string) : option string :=
  match cols with
  | [] => None
  | c :: cols' => if any_key_in keys c then Some c else pick_col cols' keys
  end.

(** The last two lists of [identify_columns]. *)
Definition label_candidates (columns : list string) : list string :=
  List.filter
    (any_key_in ["status"; "result"; "outcome"; "verification_status";
                 "biometric_status"; "success"; "failed"; "failure";
                 "quality_pass"; "match_result"]) columns.

Definition geo_candidates (columns : list string) : list string :=
  List.filter (any_key_in ["state"; "district"; "pincode"; "pin"; "center"])
    columns.

(** The two columns that [kpis_for_df] picks. *)
Definition state_col (columns : list string) : option string :=
  pick_col columns ["state"].

Definition district_col (columns : list string) : option string :=
  pick_col columns ["district"].
End Columns.

Section Shares.
Context {Cell : Type} `{EqDecision Cell}.

(** A table: its columns in order, each with its cells, a missing cell
    being [None].  Column names are distinct, as [read_csv] makes them. *)
Definition DataFrame : Type := list (string * list (option Cell)).

(** [df[c]], for [c in df.columns] *)
Fixpoint df_column (df : DataFrame) (c : string) : option (list (option Cell)) :=
  match df with
  | [] => None
  | (name, cells) :: df' =>
      if decide (name = c) then Some cells else df_column df' c
  end.

Definition count_descending (a b : option Cell * Q) : Prop :=
  Qle_bool b.2 a.2 = true.

Global Instance count_descending_dec a b : Decision (count_descending a b).
Proof. unfold count_descending. apply _. Defined.

(** [Series.value_counts(dropna=False)]: one entry per distinct value, the
    missing value among them, largest count first. *)
Definition value_counts (s : list (option Cell)) : list (option Cell * Q) :=
  merge_sort count_descending
    ((λ v, (v, Qlen (filter (λ x, x = v) s))) <$> remove_dups s).

Definition state_shares (df : DataFrame) (state_col : option string)
  : list (option Cell * Q) :=
  match state_col with
  | None => []
  | Some c =>
      if decide (c = EmptyString) then []
      else match df_column df c with
           | None => []
           | Some s =>
               let vc := value_counts s in
               let total := Qsum (snd <$> vc) in
               if Qeq_bool total 0 then []
               else merge_sort count_descending
                      ((λ kv, (kv.1, kv.2 / total)) <$> vc)
           end
  end.
End Shares.

(** A table of four records, one of them without a state. *)
Definition sample_states : @DataFrame string :=
  [("date", [Some "14-03-2025"; Some "14-03-2025"; Some "02-04-2025";
             Some "02-04-2025"]);
   ("state", [Some "Goa"; None; Some "Kerala"; Some "Goa"])].

(** ** Vocabulary on orders *)

(** [cmp] is the three-way comparison of a total order. *)
Definition order_compare {A} (cmp : A → A → comparison) : Prop :=
  (∀ a b, cmp a b = Eq ↔ a = b) ∧
  (∀ a b, cmp a b = CompOpp (cmp b a)) ∧
  (∀ a b c, cmp a b = Lt → cmp b c = Lt → cmp a c = Lt).

(** The age cells of each input table add up to less than 2^63: no sum
    of them, over a group or along a row, leaves the range of [int64]. *)
Definition within_int64 (e : list EnrolmentRow) (d : list DemographicRow)
    (b : list BiometricRow) : Prop :=
  nansum (enr_age_0_5 <$> e) + nansum (enr_age_5_17 <$> e)
  + nansum (enr_age_18_greater <$> e) < inject_Z (2 ^ 63) ∧
  nansum (dem_demo_age_5_17 <$> d) + nansum (dem_demo_age_17_ <$> d)
  < inject_Z (2 ^ 63) ∧
  nansum (bio_bio_age_5_17 <$> b) + nansum (bio_bio_age_17_ <$> b)
  < inject_Z (2 ^ 63).

(** * Properties *)

(** ** Facts about the arithmetic *)

Lemma Qlt_bool_iff (x y : Q) : Qlt_bool x y = true ↔ x < y.
Proof.
  unfold Qlt_bool. rewrite negb_true_iff, <- not_true_iff_false, Qle_bool_iff.
  split; [apply Qnot_le_lt | apply Qlt_not_le].
Qed.

Lemma Qlt_bool_false (x y : Q) : Qlt_bool x y = false ↔ y <= x.
Proof.
  unfold Qlt_bool. rewrite negb_false_iff. apply Qle_bool_iff.
Qed.

Lemma clip_bounds (lower upper x : Q) :
  lower <= upper → lower <= clip lower upper x ∧ clip lower upper x <= upper.
Proof.
  intros Hlu. unfold clip.
  destruct (Qlt_bool x lower) eqn:E1.
  - split; [apply Qle_refl | exact Hlu].
  - apply Qlt_bool_false in E1.
    destruct (Qlt_bool upper x) eqn:E2.
    + split; [exact Hlu | apply Qle_refl].
    + apply Qlt_bool_false in E2. split; assumption.
Qed.

Lemma rint_bounds (a b : Z) (x : Q) :
  inject_Z a <= x → x <= inject_Z b → (a ≤ rint x ≤ b)%Z.
Proof.
  intros Ha Hb.
  assert (Hfa : (a ≤ Qfloor x)%Z).
  { rewrite <- (Qfloor_Z a). apply Qfloor_resp_le, Ha. }
  assert (Hfb : (Qfloor x ≤ b)%Z).
  { rewrite <- (Qfloor_Z b). apply Qfloor_resp_le, Hb. }
  assert (Hup : x - inject_Z (Qfloor x) > 0 → (Qfloor x + 1 ≤ b)%Z).
  { intros Hpos.
    destruct (Z.eq_dec (Qfloor x) b) as [Heq|Hne]; [|lia].
    exfalso. rewrite Heq in Hpos. lra. }
  unfold rint.
  destruct (Qcompare_spec (x - inject_Z (Qfloor x)) (1 # 2)) as [He|Hl|Hg].
  - destruct (Z.even (Qfloor x)); [lia|].
    split; [lia|]. apply Hup. rewrite He. reflexivity.
  - lia.
  - split; [lia|]. apply Hup. lra.
Qed.

Lemma round2_bounds (x : Q) : 0 <= x → x <= 100 → 0 <= round2 x ∧ round2 x <= 100.
Proof.
  intros H0 H100.
  destruct (rint_bounds 0 10000 (x * 100)) as [Hlo Hhi].
  - change (inject_Z 0) with 0. lra.
  - change (inject_Z 10000) with 10000. lra.
  - unfold round2.
    rewrite Zle_Qle in Hlo, Hhi.
    change (inject_Z 0) with 0 in Hlo. change (inject_Z 10000) with 10000 in Hhi.
    set (z := inject_Z (rint (x * 100))) in *.
    split.
    + apply Qle_shift_div_l; [reflexivity | lra].
    + apply Qle_shift_div_r; [reflexivity | lra].
Qed.



(** ** Feature engineering *)

Lemma np_where_guarded (f : Q → Q) (x y other : Q) :
  np_where (Qlt_bool 0 y) (f <$> np_divide x y) (Some other)
  = Some (if Qlt_bool 0 y then f (x / y) else other).
Proof.
  destruct (Qlt_bool 0 y) eqn:E; [|reflexivity].
  apply Qlt_bool_iff in E. unfold np_divide.
  destruct (Qeq_bool y 0) eqn:E0; [|reflexivity].
  apply Qeq_bool_iff in E0. rewrite E0 in E. discriminate E.
Qed.

Lemma np_where_guarded_id (x y other : Q) :
  np_where (Qlt_bool 0 y) (np_divide x y) (Some other)
  = Some (if Qlt_bool 0 y then x / y else other).
Proof.
  transitivity (np_where (Qlt_bool 0 y) (id <$> np_divide x y) (Some other)).
  - f_equal. destruct (np_divide x y); reflexivity.
  - apply (np_where_guarded id).
Qed.

(** [engineer_row] never fails, and these are the columns it adds. *)
Lemma engineer_row_Some (df : Combined Q) :
  engineer_row df = Some
    {| base := df;
       total_enrol := age_0_5 df + age_5_17 df + age_18_greater df;
       total_demo := demo_age_5_17 df + demo_age_17_ df;
       total_bio := bio_age_5_17 df + bio_age_17_ df;
       demo_enrol_gap := enrol_count df - demo_count df;
       bio_enrol_gap := enrol_count df - bio_count df;
       bio_demo_gap := demo_count df - bio_count df;
       demo_completion_rate :=
         if Qlt_bool 0 (enrol_count df)
         then demo_count df / enrol_count df * 100 else 100;
       bio_completion_rate :=
         if Qlt_bool 0 (enrol_count df)
         then bio_count df / enrol_count df * 100 else 100;
       youth_ratio_enrol :=
         if Qlt_bool 0 (age_0_5 df + age_5_17 df + age_18_greater df)
         then age_5_17 df / (age_0_5 df + age_5_17 df + age_18_greater df)
         else 0;
       youth_ratio_demo :=
         if Qlt_bool 0 (demo_age_5_17 df + demo_age_17_ df)
         then demo_age_5_17 df / (demo_age_5_17 df + demo_age_17_ df) else 0;
       youth_ratio_bio :=
         if Qlt_bool 0 (bio_age_5_17 df + bio_age_17_ df)
         then bio_age_5_17 df / (bio_age_5_17 df + bio_age_17_ df) else 0;
       month := dt_month (date df);
       quarter := quarter_of (date df);
       day_of_week := dayofweek (date df);
       is_quarter_end := isin (dt_month (date df)) [3; 6; 9; 12]%Z;
       is_harvest_season := isin (dt_month (date df)) [4; 5; 10; 11]%Z;
       is_festival_season := isin (dt_month (date df)) [10; 11; 3; 4]%Z |}.
Proof.
  unfold engineer_row.
  rewrite !np_where_guarded, !np_where_guarded_id. reflexivity.
Qed.

Lemma engineer_Forall2 (df : list (Combined Q)) (rows : list Engineered) :
  engineer df = Some rows → Forall2 (λ c r, engineer_row c = Some r) df rows.
Proof. unfold engineer. apply mapM_Some_1. Qed.

Lemma engineer_total (df : list (Combined Q)) : is_Some (engineer df).
Proof.
  unfold engineer. apply mapM_is_Some, Forall_forall.
  intros c _. unfold compose. rewrite engineer_row_Some. eauto.
Qed.

Lemma engineer_base (df : list (Combined Q)) (rows : list Engineered) :
  engineer df = Some rows → base <$> rows = df.
Proof.
  intros H. apply engineer_Forall2 in H.
  induction H as [|c r df rows Hr _ IH]; [reflexivity|].
  rewrite engineer_row_Some in Hr. injection Hr as <-.
  cbn. f_equal. exact IH.
Qed.

Lemma engineer_elem (df : list (Combined Q)) (rows : list Engineered) r :
  engineer df = Some rows → r ∈ rows →
  base r ∈ df ∧ engineer_row (base r) = Some r.
Proof.
  intros H Hr. apply engineer_Forall2 in H.
  induction H as [|c r' df rows Hc _ IH]; [by apply elem_of_nil in Hr|].
  apply elem_of_cons in Hr as [->|Hr].
  - assert (base r' = c) as ->.
    { rewrite engineer_row_Some in Hc. by injection Hc as <-. }
    split; [left | exact Hc].
  - destruct (IH Hr) as [? ?]. split; [by right | done].
Qed.

(** ** Grouping *)

Section GroupByFacts.
Context {R K : Type} `{EqDecision K}.
Context (le : relation K) `{!∀ x y, Decision (le x y)}.
Variable by_ : R → option K.

Lemma elem_of_group_keys (df : list R) (k : K) :
  k ∈ group_keys le by_ df ↔ ∃ r, r ∈ df ∧ by_ r = Some k.
Proof.
  unfold group_keys.
  rewrite merge_sort_Permutation, elem_of_remove_dups, list_elem_of_omap.
  reflexivity.
Qed.

Lemma NoDup_group_keys (df : list R) : NoDup (group_keys le by_ df).
Proof.
  unfold group_keys. rewrite merge_sort_Permutation. apply NoDup_remove_dups.
Qed.

Lemma groupby_keys (df : list R) :
  fst <$> groupby le by_ df = group_keys le by_ df.
Proof.
  unfold groupby. rewrite <- list_fmap_compose. apply list_fmap_id.
Qed.

Lemma elem_of_groupby (df : list R) (kg : K * list R) :
  kg ∈ groupby le by_ df ↔
  kg.1 ∈ group_keys le by_ df ∧ kg.2 = get_group by_ df kg.1.
Proof.
  unfold groupby. rewrite list_elem_of_fmap. split.
  - intros (k & -> & Hk). done.
  - intros [Hk Hg]. exists kg.1. split; [|done].
    destruct kg as [k g]. cbn in *. by rewrite Hg.
Qed.

Lemma elem_of_get_group (df : list R) (k : K) (r : R) :
  r ∈ get_group by_ df k ↔ r ∈ df ∧ by_ r = Some k.
Proof. unfold get_group. rewrite list_elem_of_filter. tauto. Qed.

Lemma get_group_nonempty (df : list R) (k : K) :
  k ∈ group_keys le by_ df → get_group by_ df k ≠ [].
Proof.
  rewrite elem_of_group_keys. intros (r & Hr & Hk) Hnil.
  assert (r ∈ get_group by_ df k) as Hin by (by apply elem_of_get_group).
  rewrite Hnil in Hin. by apply elem_of_nil in Hin.
Qed.

(** An aggregation of the groups has one row per key. *)
Lemma agg_keys {T} (agg : K * list R → T) (key_of : T → K) (df : list R) :
  (∀ kg, key_of (agg kg) = kg.1) →
  key_of <$> (agg <$> groupby le by_ df) = group_keys le by_ df.
Proof.
  intros Hk. rewrite <- list_fmap_compose, <- groupby_keys.
  apply list_fmap_ext. intros _ kg _. apply Hk.
Qed.

End GroupByFacts.

(** ** The outer merge *)

Section MergeFacts.
Context {A B K : Type} `{EqDecision K}.
Context (le : relation K) `{!∀ x y, Decision (le x y)}.
Variables (on_left : A → K) (on_right : B → K).

Local Abbreviation row := (K * option A * option B)%type.

Lemma filter_key_absent (k : K) (right : list B) :
  k ∉ on_right <$> right → filter (λ b, on_right b = k) right = [].
Proof.
  induction right as [|b right IH]; [done|].
  rewrite fmap_cons, not_elem_of_cons. intros [Hne Hno].
  rewrite filter_cons_False by done. by apply IH.
Qed.

Lemma filter_key_NoDup (k : K) (right : list B) :
  NoDup (on_right <$> right) →
  (length (filter (λ b, on_right b = k) right) ≤ 1)%nat.
Proof.
  induction right as [|b right IH]; [cbn; lia|].
  rewrite fmap_cons, NoDup_cons. intros [Hb Hnd].
  rewrite filter_cons. destruct (decide (on_right b = k)) as [Heq|Hne].
  - rewrite filter_key_absent; [cbn; lia|]. by rewrite <- Heq.
  - by apply IH.
Qed.

Lemma elem_of_matches (a : A) (right : list B) (x : row) :
  x ∈ matches on_left on_right a right ↔
  x.1.1 = on_left a ∧ x.1.2 = Some a ∧
  match x.2 with
  | Some b => b ∈ right ∧ on_right b = on_left a
  | None => on_left a ∉ on_right <$> right
  end.
Proof.
  unfold matches.
  destruct (filter _ right) as [|b0 bs] eqn:E.
  - rewrite list_elem_of_singleton.
    assert (on_left a ∉ on_right <$> right) as Hno.
    { intros (b & Hb & Hin)%list_elem_of_fmap.
      assert (b ∈ filter (λ b, on_right b = on_left a) right) as Hf
        by (by apply list_elem_of_filter).
      rewrite E in Hf. by apply elem_of_nil in Hf. }
    split.
    + intros ->. done.
    + destruct x as [[k oa] [b|]]; cbn.
      * intros (_ & _ & Hb & Hk). destruct Hno.
        rewrite <- Hk. by apply list_elem_of_fmap_2.
      * by intros (-> & -> & _).
  - rewrite <- E, list_elem_of_fmap. setoid_rewrite list_elem_of_filter. split.
    + intros (b & -> & Hk & Hb). done.
    + destruct x as [[k oa] [b|]]; cbn.
      * intros (-> & -> & Hb & Hk). exists b. done.
      * intros (_ & _ & Hno). destruct Hno.
        assert (b0 ∈ filter (λ b, on_right b = on_left a) right) as Hf
          by (rewrite E; left).
        apply list_elem_of_filter in Hf as [Hk Hb].
        rewrite <- Hk. by apply list_elem_of_fmap_2.
Qed.

Lemma matches_keys (a : A) (right : list B) :
  NoDup (on_right <$> right) →
  (λ x : row, x.1.1) <$> matches on_left on_right a right = [on_left a].
Proof.
  intros Hnd. unfold matches.
  pose proof (filter_key_NoDup (on_left a) right Hnd) as Hlen.
  destruct (filter _ right) as [|b [|b' bs]]; cbn in *; [done | done | lia].
Qed.

Lemma matched_keys (left : list A) (right : list B) :
  NoDup (on_right <$> right) →
  (λ x : row, x.1.1) <$> (left ≫= λ a, matches on_left on_right a right)
  = on_left <$> left.
Proof.
  intros Hnd. induction left as [|a left IH]; [done|].
  rewrite bind_cons, fmap_app, IH, matches_keys by done. done.
Qed.

Lemma right_only_keys (left : list A) (right : list B) :
  (λ x : row, x.1.1) <$> right_only on_left on_right left right
  = on_right <$> filter (λ b, on_right b ∉ on_left <$> left) right.
Proof. unfold right_only. by rewrite <- list_fmap_compose. Qed.

Lemma merge_outer_keys (left : list A) (right : list B) :
  NoDup (on_right <$> right) →
  (λ x : row, x.1.1) <$> merge_outer le on_left on_right left right
  ≡ₚ (on_left <$> left)
     ++ (on_right <$> filter (λ b, on_right b ∉ on_left <$> left) right).
Proof.
  intros Hnd. unfold merge_outer.
  rewrite merge_sort_Permutation, fmap_app, matched_keys, right_only_keys by done.
  done.
Qed.

Lemma NoDup_fmap_filter {X Y} (f : X → Y) (P : X → Prop)
    `{!∀ x, Decision (P x)} (l : list X) :
  NoDup (f <$> l) → NoDup (f <$> filter P l).
Proof.
  induction l as [|x l IH]; [done|].
  rewrite fmap_cons, NoDup_cons. intros [Hx Hnd].
  rewrite filter_cons. destruct (decide (P x)); [|by apply IH].
  rewrite fmap_cons, NoDup_cons. split; [|by apply IH].
  intros (y & Hy & Hin%list_elem_of_filter)%list_elem_of_fmap.
  apply Hx. rewrite Hy. apply list_elem_of_fmap_2. tauto.
Qed.

(** The merge of two tables with unique keys has unique keys. *)
Lemma merge_outer_NoDup (left : list A) (right : list B) :
  NoDup (on_left <$> left) → NoDup (on_right <$> right) →
  NoDup ((λ x : row, x.1.1) <$> merge_outer le on_left on_right left right).
Proof.
  intros Hl Hr. rewrite merge_outer_keys by done.
  apply NoDup_app. split; [done|]. split.
  - intros k Hk (b & -> & [Hb _]%list_elem_of_filter)%list_elem_of_fmap. done.
  - by apply NoDup_fmap_filter.
Qed.

(** Its keys are the union of the keys of the two sides. *)
Lemma merge_outer_key_union (left : list A) (right : list B) (k : K) :
  NoDup (on_right <$> right) →
  k ∈ (λ x : row, x.1.1) <$> merge_outer le on_left on_right left right ↔
  k ∈ on_left <$> left ∨ k ∈ on_right <$> right.
Proof.
  intros Hnd. rewrite merge_outer_keys, elem_of_app by done.
  split.
  - intros [Hl | (b & -> & [_ Hb]%list_elem_of_filter)%list_elem_of_fmap];
      [by left | right; by apply list_elem_of_fmap_2].
  - intros [Hl | (b & -> & Hb)%list_elem_of_fmap]; [by left|].
    destruct (decide (on_right b ∈ on_left <$> left)); [by left | right].
    apply list_elem_of_fmap_2, list_elem_of_filter. done.
Qed.

(** Each side of a merged row is the row of that side with the same key,
    and is missing exactly when that side has no such row. *)
Lemma merge_outer_sides (left : list A) (right : list B) (x : row) :
  x ∈ merge_outer le on_left on_right left right →
  match x.1.2 with
  | Some a => a ∈ left ∧ on_left a = x.1.1
  | None => x.1.1 ∉ on_left <$> left
  end ∧
  match x.2 with
  | Some b => b ∈ right ∧ on_right b = x.1.1
  | None => x.1.1 ∉ on_right <$> right
  end.
Proof.
  unfold merge_outer. rewrite merge_sort_Permutation, elem_of_app.
  intros [Hm | Hr].
  - apply list_elem_of_bind in Hm as (a & Hx & Ha).
    apply elem_of_matches in Hx as (Hk & Hxa & Hxb).
    rewrite Hxa, Hk. split; [done|]. destruct x.2; done.
  - unfold right_only in Hr.
    apply list_elem_of_fmap in Hr as (b & -> & [Hno Hb]%list_elem_of_filter).
    cbn. done.
Qed.

End MergeFacts.

(** ** The integrated table *)

Lemma enrol_agg_keys (e : list EnrolmentRow) :
  ea_key <$> enrol_agg e = group_keys key_le enr_key e.
Proof. apply agg_keys. done. Qed.

Lemma demo_agg_keys (d : list DemographicRow) :
  da_key <$> demo_agg d = group_keys key_le dem_key d.
Proof. apply agg_keys. done. Qed.

Lemma bio_agg_keys (b : list BiometricRow) :
  ba_key <$> bio_agg b = group_keys key_le bio_key b.
Proof. apply agg_keys. done. Qed.

Lemma combined_keys e d b :
  key <$> combined e d b
  = (λ m : EnrolDemoBio, m.1.1)
      <$> merged (enrol_agg e) (demo_agg d) (bio_agg b).
Proof. unfold combined. rewrite <- !list_fmap_compose. done. Qed.

Section Merged.
Variables (ea : list EnrolAgg) (da : list DemoAgg) (ba : list BioAgg).
Hypothesis NoDup_ea : NoDup (ea_key <$> ea).
Hypothesis NoDup_da : NoDup (da_key <$> da).
Hypothesis NoDup_ba : NoDup (ba_key <$> ba).

Lemma merged_NoDup :
  NoDup ((λ m : EnrolDemoBio, m.1.1) <$> merged ea da ba).
Proof.
  unfold merged. apply merge_outer_NoDup; [|done].
  by apply merge_outer_NoDup.
Qed.

Lemma merged_key_union (k : Key) :
  k ∈ (λ m : EnrolDemoBio, m.1.1) <$> merged ea da ba ↔
  k ∈ ea_key <$> ea ∨ k ∈ da_key <$> da ∨ k ∈ ba_key <$> ba.
Proof.
  unfold merged.
  pose proof (merge_outer_key_union key_le ea_key da_key ea da k NoDup_da) as H1.
  etrans; [by apply merge_outer_key_union|].
  unfold EnrolDemo in *. tauto.
Qed.

Lemma merged_enrol_side (m : EnrolDemoBio) :
  m ∈ merged ea da ba →
  match enrol_side m with
  | Some a => a ∈ ea ∧ ea_key a = m.1.1
  | None => m.1.1 ∉ ea_key <$> ea
  end.
Proof.
  intros Hm. apply merge_outer_sides in Hm as [Hl _].
  unfold enrol_side. destruct m.1.2 as [l|]; cbn.
  - destruct Hl as [Hl Hk]. apply merge_outer_sides in Hl as [Ha _].
    rewrite <- Hk. exact Ha.
  - intros Hin. apply Hl. apply merge_outer_key_union; auto.
Qed.

Lemma merged_demo_side (m : EnrolDemoBio) :
  m ∈ merged ea da ba →
  match demo_side m with
  | Some a => a ∈ da ∧ da_key a = m.1.1
  | None => m.1.1 ∉ da_key <$> da
  end.
Proof.
  intros Hm. apply merge_outer_sides in Hm as [Hl _].
  unfold demo_side. destruct m.1.2 as [l|]; cbn.
  - destruct Hl as [Hl Hk]. apply merge_outer_sides in Hl as [_ Ha].
    rewrite <- Hk. exact Ha.
  - intros Hin. apply Hl. apply merge_outer_key_union; auto.
Qed.

Lemma merged_bio_side (m : EnrolDemoBio) :
  m ∈ merged ea da ba →
  match bio_side m with
  | Some a => a ∈ ba ∧ ba_key a = m.1.1
  | None => m.1.1 ∉ ba_key <$> ba
  end.
Proof. intros Hm. by apply merge_outer_sides in Hm as [_ Hr]. Qed.

End Merged.

(** The effect of [create_integrated_dataset] on the analyzer. *)
Lemma create_integrated_dataset_inv (w w' : World) :
  create_integrated_dataset w = inr ((), w') →
  ∃ e d b rows,
    enrolment_data (self w) = Some e ∧
    demographic_data (self w) = Some d ∧
    biometric_data (self w) = Some b ∧
    engineer (combined e d b) = Some rows ∧
    combined_data (self w') = Some (Features rows).
Proof.
  unfold create_integrated_dataset, _engineer_features, attribute,
    set_combined_data, emit, get_self, put_self, raise.
  unfold mbind, M_bind, mret, M_ret. cbn -[engineer combined].
  destruct (enrolment_data (self w)) as [e|]; cbn -[engineer combined]; [|done].
  destruct (demographic_data (self w)) as [d|]; cbn -[engineer combined]; [|done].
  destruct (biometric_data (self w)) as [b|]; cbn -[engineer combined]; [|done].
  destruct (engineer (combined e d b)) as [rows|] eqn:E; [|done].
  intros [= <-]. exists e, d, b, rows. done.
Qed.

Lemma NoDup_fmap_eq {X Y} (f : X → Y) (l : list X) (a a' : X) :
  NoDup (f <$> l) → a ∈ l → a' ∈ l → f a = f a' → a = a'.
Proof.
  induction l as [|x l IH]; [by intros _ ?%elem_of_nil|].
  rewrite fmap_cons, NoDup_cons. intros [Hx Hnd].
  rewrite !elem_of_cons. intros [->|Ha] [->|Ha'] E; [done| | |by apply IH].
  - destruct Hx. rewrite E. by apply list_elem_of_fmap_2.
  - destruct Hx. rewrite <- E. by apply list_elem_of_fmap_2.
Qed.

Lemma combined_sides e d b (c : Combined Q) :
  c ∈ combined e d b →
  (key c ∉ ea_key <$> enrol_agg e → enrol_absent c) ∧
  (key c ∉ da_key <$> demo_agg d → demo_absent c) ∧
  (key c ∉ ba_key <$> bio_agg b → bio_absent c) ∧
  (∀ a, a ∈ enrol_agg e → ea_key a = key c → enrol_from a c) ∧
  (∀ a, a ∈ demo_agg d → da_key a = key c → demo_from a c) ∧
  (∀ a, a ∈ bio_agg b → ba_key a = key c → bio_from a c).
Proof.
  unfold combined. rewrite <- list_fmap_compose.
  intros (m & -> & Hm)%list_elem_of_fmap.
  pose proof (NoDup_group_keys key_le enr_key e) as He.
  pose proof (NoDup_group_keys key_le dem_key d) as Hd.
  pose proof (NoDup_group_keys key_le bio_key b) as Hb.
  rewrite <- enrol_agg_keys in He. rewrite <- demo_agg_keys in Hd.
  rewrite <- bio_agg_keys in Hb.
  pose proof (merged_enrol_side _ _ _ Hd m Hm) as Se.
  pose proof (merged_demo_side _ _ _ Hd m Hm) as Sd.
  pose proof (merged_bio_side _ _ _ m Hm) as Sb.
  unfold enrol_absent, demo_absent, bio_absent, enrol_from, demo_from, bio_from.
  cbn.
  split_and!.
  - destruct (enrol_side m) as [a1|]; [|done].
    intros Habs. destruct Habs. destruct Se as [Hin <-].
    by apply list_elem_of_fmap_2.
  - destruct (demo_side m) as [a1|]; [|done].
    intros Habs. destruct Habs. destruct Sd as [Hin <-].
    by apply list_elem_of_fmap_2.
  - destruct (bio_side m) as [a1|]; [|done].
    intros Habs. destruct Habs. destruct Sb as [Hin <-].
    by apply list_elem_of_fmap_2.
  - intros a Ha Hk. destruct (enrol_side m) as [a1|].
    + destruct Se as [Hin Hk']. rewrite <- Hk in Hk'.
      by rewrite (NoDup_fmap_eq ea_key _ _ _ He Hin Ha Hk').
    + destruct Se. rewrite <- Hk. by apply list_elem_of_fmap_2.
  - intros a Ha Hk. destruct (demo_side m) as [a1|].
    + destruct Sd as [Hin Hk']. rewrite <- Hk in Hk'.
      by rewrite (NoDup_fmap_eq da_key _ _ _ Hd Hin Ha Hk').
    + destruct Sd. rewrite <- Hk. by apply list_elem_of_fmap_2.
  - intros a Ha Hk. destruct (bio_side m) as [a1|].
    + destruct Sb as [Hin Hk']. rewrite <- Hk in Hk'.
      by rewrite (NoDup_fmap_eq ba_key _ _ _ Hb Hin Ha Hk').
    + destruct Sb. rewrite <- Hk. by apply list_elem_of_fmap_2.
Qed.

(** C2: [create_integrated_dataset] aggregates each input table by
    (date, state, district), with one row per key of the input, and
    stores the outer merge of the three aggregates on that key: the
    combined table has exactly one row for every key of at least one
    aggregate, the cells of an absent side are 0 and those of a present
    side are the aggregate's. *)
Theorem create_integrated_dataset_outer_join (w w' : World) :
  create_integrated_dataset w = inr ((), w') →
  ∃ e d b rows,
    enrolment_data (self w) = Some e ∧
    demographic_data (self w) = Some d ∧
    biometric_data (self w) = Some b ∧
    combined_data (self w') = Some (Features rows) ∧
    base <$> rows = combined e d b ∧
    (NoDup (ea_key <$> enrol_agg e) ∧
     ∀ k, k ∈ ea_key <$> enrol_agg e ↔ ∃ r, r ∈ e ∧ enr_key r = Some k) ∧
    (NoDup (da_key <$> demo_agg d) ∧
     ∀ k, k ∈ da_key <$> demo_agg d ↔ ∃ r, r ∈ d ∧ dem_key r = Some k) ∧
    (NoDup (ba_key <$> bio_agg b) ∧
     ∀ k, k ∈ ba_key <$> bio_agg b ↔ ∃ r, r ∈ b ∧ bio_key r = Some k) ∧
    NoDup (key <$> combined e d b) ∧
    (∀ k, k ∈ key <$> combined e d b ↔
          k ∈ ea_key <$> enrol_agg e ∨ k ∈ da_key <$> demo_agg d
          ∨ k ∈ ba_key <$> bio_agg b) ∧
    (∀ c, c ∈ combined e d b →
       (key c ∉ ea_key <$> enrol_agg e → enrol_absent c) ∧
       (key c ∉ da_key <$> demo_agg d → demo_absent c) ∧
       (key c ∉ ba_key <$> bio_agg b → bio_absent c) ∧
       (∀ a, a ∈ enrol_agg e → ea_key a = key c → enrol_from a c) ∧
       (∀ a, a ∈ demo_agg d → da_key a = key c → demo_from a c) ∧
       (∀ a, a ∈ bio_agg b → ba_key a = key c → bio_from a c)).
Proof.
  intros (e & d & b & rows & He & Hd & Hb & Heng & Hw')%create_integrated_dataset_inv.
  exists e, d, b, rows.
  pose proof (NoDup_group_keys key_le enr_key e) as Ne.
  pose proof (NoDup_group_keys key_le dem_key d) as Nd.
  pose proof (NoDup_group_keys key_le bio_key b) as Nb.
  rewrite <- enrol_agg_keys in Ne. rewrite <- demo_agg_keys in Nd.
  rewrite <- bio_agg_keys in Nb.
  split_and!; try done.
  - by apply engineer_base.
  - intros k. rewrite enrol_agg_keys. apply elem_of_group_keys.
  - intros k. rewrite demo_agg_keys. apply elem_of_group_keys.
  - intros k. rewrite bio_agg_keys. apply elem_of_group_keys.
  - rewrite combined_keys. by apply merged_NoDup.
  - intros k. rewrite combined_keys. by apply merged_key_union.
  - intros c. apply combined_sides.
Qed.

Lemma create_integrated_dataset_outer_join_witness :
  ∃ w' rows,
    create_integrated_dataset sample_loaded = inr ((), w') ∧
    combined_data (self w') = Some (Features rows) ∧
    length rows = 4%nat.
Proof.
  destruct (create_integrated_dataset sample_loaded) as [ex|[[] w']] eqn:E;
    [vm_compute in E; discriminate E|].
  destruct (create_integrated_dataset_outer_join _ _ E)
    as (e & d & b & rows & He & Hd & Hb & Hw' & Hbase & _).
  exists w', rows. split; [reflexivity|]. split; [exact Hw'|].
  rewrite <- (length_fmap base), Hbase.
  injection He as <-. injection Hd as <-. injection Hb as <-.
  vm_compute. reflexivity.
Defined.



(** C9: feature engineering never fails, on any table; on every row,
    where [enrol_count] is 0 both completion rates are 100, and where
    [total_enrol], [total_demo] or [total_bio] is 0 the corresponding
    youth ratio is 0: no selected value is a quotient by zero. *)
Theorem engineer_total_guarded (df : list (Combined Q)) :
  ∃ rows,
    engineer df = Some rows ∧
    Forall2
      (λ c r,
         base r = c ∧
         (enrol_count c == 0 →
            demo_completion_rate r = 100 ∧ bio_completion_rate r = 100) ∧
         (total_enrol r == 0 → youth_ratio_enrol r = 0) ∧
         (total_demo r == 0 → youth_ratio_demo r = 0) ∧
         (total_bio r == 0 → youth_ratio_bio r = 0))
      df rows.
Proof.
  destruct (engineer_total df) as [rows Hrows]. exists rows.
  split; [exact Hrows|].
  apply engineer_Forall2 in Hrows.
  eapply Forall2_impl; [exact Hrows|].
  intros c r Hr. cbv beta in Hr.
  rewrite engineer_row_Some in Hr. injection Hr as <-. cbn.
  assert (∀ x, x == 0 → Qlt_bool 0 x = false) as Hz.
  { intros x E. apply Qlt_bool_false. rewrite E. apply Qle_refl. }
  split_and!; [done | | | |]; intros E; rewrite (Hz _ E); done.
Qed.

Lemma engineer_total_guarded_witness :
  ∃ r,
    engineer [idle_row] = Some [r] ∧
    demo_completion_rate r = 100 ∧ bio_completion_rate r = 100 ∧
    youth_ratio_enrol r = 0 ∧ youth_ratio_demo r = 0 ∧ youth_ratio_bio r = 0.
Proof.
  destruct (engineer_total_guarded [idle_row]) as (rows & Hrows & HF).
  apply Forall2_cons_inv_l in HF as (r & rows' & (Hb & He & Hy1 & Hy2 & Hy3) & HF' & ->).
  apply Forall2_nil_inv_l in HF' as ->.
  exists r. split; [exact Hrows|].
  destruct (He eq_refl) as [Hd Hbio].
  assert (total_enrol r == 0 ∧ total_demo r == 0 ∧ total_bio r == 0) as (T1 & T2 & T3).
  { vm_compute in Hrows. injection Hrows as <-. repeat split. }
  split; [exact Hd|]. split; [exact Hbio|].
  split; [exact (Hy1 T1)|]. split; [exact (Hy2 T2) | exact (Hy3 T3)].
Defined.

(** ** The district risk table *)

Lemma series_max_ge (l : list Q) (m x : Q) :
  series_max l = Some m → x ∈ l → x <= m.
Proof.
  destruct l as [|x0 l]; [done|]. cbn. intros [= <-].
  induction l as [|y l IH]; cbn.
  - intros ->%list_elem_of_singleton. apply Qle_refl.
  - set (m := foldr _ x0 l) in *. intros Hx.
    assert (x = y ∨ x ∈ x0 :: l) as [->|Hin].
    { apply elem_of_cons in Hx as [->|Hx]; [right; left|].
      apply elem_of_cons in Hx as [->|Hx]; [by left | right; by right]. }
    + destruct (Qlt_bool m y) eqn:E; [apply Qle_refl|].
      by apply Qlt_bool_false.
    + specialize (IH Hin).
      destruct (Qlt_bool m y) eqn:E; [|exact IH].
      apply Qlt_bool_iff in E. apply Qlt_le_weak.
      eapply Qle_lt_trans; eassumption.
Qed.

Global Instance CERS_descending_total : Total CERS_descending.
Proof.
  intros a b. unfold CERS_descending. rewrite !Qle_bool_iff.
  destruct (Qlt_le_dec (CERS a) (CERS b)) as [Hlt|Hle]; [right | left].
  - by apply Qlt_le_weak.
  - exact Hle.
Qed.

Lemma Sorted_consecutive {X} (R : relation X) (l : list X) (i : nat) (a b : X) :
  Sorted R l → l !! i = Some a → l !! S i = Some b → R a b.
Proof.
  intros Hs. revert i. induction Hs as [|x l Hs IH Hd]; intros i; [done|].
  destruct i as [|i]; cbn.
  - intros [= ->] Hb. destruct Hd as [|y l' Hxy]; [done|].
    cbn in Hb. by injection Hb as <-.
  - apply IH.
Qed.

Section DistrictFacts.
Variable fsqrt : Q → Q.

Lemma elem_of_district_risk (df : list Engineered) (r : DistrictRisk) :
  r ∈ district_risk fsqrt df ↔ r ∈ scored fsqrt df.
Proof. unfold district_risk. by rewrite merge_sort_Permutation. Qed.

Lemma district_risk_Sorted (df : list Engineered) :
  Sorted CERS_descending (district_risk fsqrt df).
Proof. apply Sorted_merge_sort, _. Qed.

Lemma elem_of_scored (df : list Engineered) (r : DistrictRisk) :
  r ∈ scored fsqrt df →
  ∃ a, a ∈ district_agg fsqrt df ∧
       r = score (series_max (bio_gap_volatility
                                <$> (fill_volatility <$> district_agg fsqrt df)))
                 (total_enrolments <$> (fill_volatility <$> district_agg fsqrt df))
                 (fill_volatility a).
Proof.
  unfold scored. cbv zeta.
  intros (a' & -> & (a & -> & Ha)%list_elem_of_fmap)%list_elem_of_fmap.
  exists a. done.
Qed.

Lemma district_agg_keys (df : list Engineered) :
  (λ a, (state a, district a)) <$> district_agg fsqrt df
  = group_keys district_le district_of df.
Proof. apply agg_keys. by intros [[] ?]. Qed.

Lemma scored_keys (df : list Engineered) :
  (λ r, (state (stats r), district (stats r))) <$> scored fsqrt df
  = group_keys district_le district_of df.
Proof.
  unfold scored. cbv zeta. rewrite <- district_agg_keys, <- !list_fmap_compose.
  done.
Qed.

(** The effect of [calculate_exclusion_risk_score]. *)
Lemma calculate_exclusion_risk_score_inv (w w' : World) (t : list DistrictRisk) :
  calculate_exclusion_risk_score fsqrt w = inr (t, w') →
  ∃ df,
    combined_data (self w) = Some (Features df) ∧
    t = district_risk fsqrt df ∧
    insights (self w') =
      <["cers_summary" := CersSummary (risk_summary t)]>
        (<["cers_districts" := CersDistricts t]> (insights (self w))).
Proof.
  unfold calculate_exclusion_risk_score, features, attribute, set_insight,
    emit, get_self, put_self, raise.
  unfold mbind, M_bind, mret, M_ret. cbn -[district_risk risk_summary].
  destruct (combined_data (self w)) as [[rows|df]|];
    cbn -[district_risk risk_summary]; [done| |done].
  intros [= <- <-]. exists df. done.
Qed.

End DistrictFacts.

Lemma sample_scored_eq :
  calculate_exclusion_risk_score sqrt10 sample_integrated
  = inr (sample_scored.1, sample_scored.2).
Proof. vm_compute. reflexivity. Qed.

Lemma sqrt10_nonneg (x : Q) : 0 <= sqrt10 x.
Proof.
  unfold sqrt10. apply Qle_shift_div_l; [reflexivity|].
  rewrite Qmult_0_l. change 0 with (inject_Z 0). rewrite <- Zle_Qle.
  apply Z.sqrt_nonneg.
Qed.

(** C4: the table that [calculate_exclusion_risk_score] returns is sorted
    in descending order of CERS: of two consecutive rows the earlier has
    a CERS greater than or equal to the later's. *)
Theorem district_risk_ranked (fsqrt : Q → Q) (w w' : World)
    (t : list DistrictRisk) (i : nat) (a b : DistrictRisk) :
  calculate_exclusion_risk_score fsqrt w = inr (t, w') →
  t !! i = Some a → t !! S i = Some b →
  CERS b <= CERS a.
Proof.
  intros (df & _ & -> & _)%calculate_exclusion_risk_score_inv Ha Hb.
  apply Qle_bool_iff.
  exact (Sorted_consecutive _ _ _ _ _ (district_risk_Sorted fsqrt df) Ha Hb).
Qed.

Lemma district_risk_ranked_witness :
  ∃ a b, sample_scored.1 !! 0%nat = Some a ∧ sample_scored.1 !! 1%nat = Some b ∧
         CERS a == 75 ∧ CERS b <= CERS a.
Proof.
  eexists _, _. split; [vm_compute; reflexivity|].
  split; [vm_compute; reflexivity|]. split; [reflexivity|].
  eapply (district_risk_ranked sqrt10 sample_integrated sample_scored.2
            sample_scored.1 0).
  - vm_compute. reflexivity.
  - vm_compute. reflexivity.
  - vm_compute. reflexivity.
Defined.

(** C6: the table that [calculate_exclusion_risk_score] returns has
    exactly one row for every (state, district) pair of the combined
    data, and the statistics of a row are taken over that district's rows
    of the combined data: the mean of the two completion rates and of the
    two youth ratios, the mean and the sample standard deviation of
    [bio_enrol_gap] (0 where the district has a single row), and the sum
    of [enrol_count]. *)
Theorem district_risk_per_district (fsqrt : Q → Q) (w w' : World)
    (t : list DistrictRisk) :
  calculate_exclusion_risk_score fsqrt w = inr (t, w') →
  ∃ df,
    combined_data (self w) = Some (Features df) ∧
    NoDup ((λ r, (state (stats r), district (stats r))) <$> t) ∧
    (∀ sd, sd ∈ (λ r, (state (stats r), district (stats r))) <$> t ↔
           ∃ x, x ∈ df ∧ (key_state (base x), key_district (base x)) = sd) ∧
    (∀ r, r ∈ t →
       let g := filter (λ x, district_of x
                             = Some (state (stats r), district (stats r))) df in
       g ≠ [] ∧
       avg_bio_completion (stats r) = mean (bio_completion_rate <$> g) ∧
       avg_demo_completion (stats r) = mean (demo_completion_rate <$> g) ∧
       avg_bio_gap (stats r) = mean (bio_enrol_gap <$> g) ∧
       bio_gap_volatility (stats r)
         = (if decide (2 ≤ length g)%nat
            then fsqrt (var (bio_enrol_gap <$> g)) else 0) ∧
       district_youth_ratio_enrol (stats r) = mean (youth_ratio_enrol <$> g) ∧
       district_youth_ratio_bio (stats r) = mean (youth_ratio_bio <$> g) ∧
       total_enrolments (stats r) = Qsum ((λ x, enrol_count (base x)) <$> g)).
Proof.
  intros (df & Hdf & -> & _)%calculate_exclusion_risk_score_inv.
  exists df. split; [exact Hdf|].
  assert ((λ r, (state (stats r), district (stats r))) <$> district_risk fsqrt df
          ≡ₚ group_keys district_le district_of df) as Hkeys.
  { unfold district_risk. rewrite merge_sort_Permutation.
    by rewrite scored_keys. }
  split_and!.
  - rewrite Hkeys. apply NoDup_group_keys.
  - intros sd. rewrite Hkeys, elem_of_group_keys. unfold district_of.
    split; intros (x & Hx & E); exists x; (split; [done|]); congruence.
  - intros r (a & Ha & ->)%elem_of_district_risk%elem_of_scored.
    unfold district_agg in Ha.
    apply list_elem_of_fmap in Ha as ([k g] & -> & [Hk Hg]%elem_of_groupby).
    cbn in Hk, Hg. subst g. cbn -[mean var filter].
    replace (k.1, k.2) with k by (by destruct k).
    fold (get_group district_of df k).
    split; [by eapply get_group_nonempty|].
    split_and!; try reflexivity.
    unfold std. rewrite length_fmap. by destruct (decide _).
Qed.

Lemma district_risk_per_district_witness :
  ∃ df,
    combined_data (self sample_integrated) = Some (Features df) ∧
    NoDup ((λ r, (state (stats r), district (stats r))) <$> sample_scored.1) ∧
    length sample_scored.1 = 3%nat.
Proof.
  destruct (district_risk_per_district sqrt10 sample_integrated
              sample_scored.2 sample_scored.1)
    as (df & Hdf & Hnd & _); [vm_compute; reflexivity|].
  exists df. split; [exact Hdf|]. split; [exact Hnd|]. reflexivity.
Defined.

Lemma std_nonneg (fsqrt : Q → Q) (l : list Q) :
  (∀ x, 0 <= fsqrt x) → 0 <= default 0 (std fsqrt l).
Proof.
  intros Hs. unfold std. destruct (decide _); cbn; [apply Hs | apply Qle_refl].
Qed.

Lemma composite_bounds (g m v p : Q) :
  0 <= g <= 100 → 0 <= m <= 100 → 0 <= v <= 100 → 0 <= p <= 100 →
  0 <= composite g m v p <= 100.
Proof.
  unfold composite.
  change 0.40 with (40 # 100). change 0.25 with (25 # 100).
  change 0.20 with (20 # 100). change 0.15 with (15 # 100).
  intros [? ?] [? ?] [? ?] [? ?]. split; lra.
Qed.

Lemma volatility_ratio_bounds (v m : Q) :
  0 <= v → v <= m → 0 < m → 0 <= v / m * 100 <= 100.
Proof.
  intros Hv Hvm Hm.
  assert (0 <= v / m) as H0.
  { apply Qle_shift_div_l; [exact Hm|]. lra. }
  assert (v / m <= 1) as H1.
  { apply Qle_shift_div_r; [exact Hm|]. lra. }
  split; lra.
Qed.

(** C8: provided the square root is non-negative, on every row of the
    table that [calculate_exclusion_risk_score] returns each of the four
    component scores lies in [0, 100]; the weights sum to 1, and the CERS
    lies in [0, 100] too. *)
Theorem scores_in_range (fsqrt : Q → Q) (w w' : World)
    (t : list DistrictRisk) (r : DistrictRisk) :
  (∀ x, 0 <= fsqrt x) →
  calculate_exclusion_risk_score fsqrt w = inr (t, w') →
  r ∈ t →
  0 <= gap_risk r <= 100 ∧
  0 <= migration_risk r <= 100 ∧
  0 <= volatility_risk r <= 100 ∧
  0 <= volume_pressure_risk r <= 100 ∧
  0.40 + 0.25 + 0.20 + 0.15 == 1 ∧
  0 <= CERS r <= 100.
Proof.
  intros Hsqrt (df & _ & -> & _)%calculate_exclusion_risk_score_inv
    (a & Ha & ->)%elem_of_district_risk%elem_of_scored.
  set (agg := fill_volatility <$> district_agg fsqrt df) in *.
  assert (0 <= bio_gap_volatility (fill_volatility a)) as Hv0.
  { unfold district_agg in Ha.
    apply list_elem_of_fmap in Ha as (kg & -> & _). cbn -[std].
    by apply std_nonneg. }
  assert (fill_volatility a ∈ agg) as Hin by (by apply list_elem_of_fmap_2).
  cbn -[clip round2 composite series_max rank_pct cut].
  assert (0 <= 100 - clip 0 100 (avg_bio_completion a) <= 100) as Hgap.
  { destruct (clip_bounds 0 100 (avg_bio_completion a)); [done|]. split; lra. }
  assert (∀ x, 0 <= clip 0 100 x <= 100) as Hclip.
  { intros x. by apply clip_bounds. }
  assert (0 <= match series_max (bio_gap_volatility <$> agg) with
               | Some m =>
                   if Qlt_bool 0 m
                   then default 0 (bio_gap_volatility a) / m * 100 else 0
               | None => 0
               end <= 100) as Hvol.
  { destruct (series_max _) as [m|] eqn:Em; [|done].
    destruct (Qlt_bool 0 m) eqn:E; [|done].
    apply volatility_ratio_bounds; [exact Hv0 | | by apply Qlt_bool_iff].
    eapply series_max_ge; [exact Em|].
    by apply (list_elem_of_fmap_2 bio_gap_volatility) in Hin. }
  split_and!; try apply Hgap; try apply Hclip; try apply Hvol; try reflexivity.
  - apply round2_bounds; by apply composite_bounds.
  - apply round2_bounds; by apply composite_bounds.
Qed.

Lemma scores_in_range_witness :
  ∃ r, sample_scored.1 !! 1%nat = Some r ∧
       volatility_risk r == 100 ∧ 0 <= CERS r <= 100.
Proof.
  eexists. split; [vm_compute; reflexivity|]. split; [reflexivity|].
  eapply (scores_in_range sqrt10 sample_integrated sample_scored.2
            sample_scored.1).
  - exact sqrt10_nonneg.
  - vm_compute. reflexivity.
  - right. left.
Defined.

Lemma cut_CERS (x : Q) :
  cut [0; 30; 50; 70; 100] [Low; Medium; High; Critical] x
  = if Qlt_bool 0 x && Qle_bool x 30 then Some Low
    else if Qlt_bool 30 x && Qle_bool x 50 then Some Medium
    else if Qlt_bool 50 x && Qle_bool x 70 then Some High
    else if Qlt_bool 70 x && Qle_bool x 100 then Some Critical
    else None.
Proof. reflexivity. Qed.

Lemma in_bin (lo hi x : Q) :
  Qlt_bool lo x && Qle_bool x hi = true ↔ lo < x ∧ x <= hi.
Proof. by rewrite andb_true_iff, Qlt_bool_iff, Qle_bool_iff. Qed.

Lemma not_in_bin (lo hi x : Q) :
  x <= lo ∨ hi < x → Qlt_bool lo x && Qle_bool x hi = false.
Proof.
  intros H. apply not_true_iff_false. rewrite in_bin. intros [? ?].
  destruct H as [H|H]; lra.
Qed.

(** C10: on every row of the table that [calculate_exclusion_risk_score]
    returns, a CERS in (0, 30] is labelled Low, in (30, 50] Medium, in
    (50, 70] High and in (70, 100] Critical, and a CERS equal to 0 gets no
    category; there is a run in which the four category counts of the
    stored summary add up to fewer than its number of districts. *)
Theorem risk_category_bins (fsqrt : Q → Q) :
  (∀ w w' t r,
     calculate_exclusion_risk_score fsqrt w = inr (t, w') → r ∈ t →
     (0 < CERS r ∧ CERS r <= 30 → risk_category r = Some Low) ∧
     (30 < CERS r ∧ CERS r <= 50 → risk_category r = Some Medium) ∧
     (50 < CERS r ∧ CERS r <= 70 → risk_category r = Some High) ∧
     (70 < CERS r ∧ CERS r <= 100 → risk_category r = Some Critical) ∧
     (CERS r == 0 → risk_category r = None)) ∧
  (∃ w w' t s,
     calculate_exclusion_risk_score fsqrt w = inr (t, w') ∧
     insights (self w') !! "cers_summary" = Some (CersSummary s) ∧
     (low_risk_districts s + medium_risk_districts s + high_risk_districts s
      + critical_risk_districts s < total_districts s)%nat).
Proof.
  split.
  - intros w w' t r (df & _ & -> & _)%calculate_exclusion_risk_score_inv
      (a & Ha & ->)%elem_of_district_risk%elem_of_scored.
    cbn -[clip round2 composite series_max rank_pct cut].
    set (x := round2 _). rewrite cut_CERS. clearbody x.
    split_and!.
    + intros H. by rewrite (proj2 (in_bin 0 30 x) H).
    + intros H. rewrite (proj2 (in_bin 30 50 x) H).
      rewrite not_in_bin; [done|]. right. tauto.
    + intros H. rewrite (proj2 (in_bin 50 70 x) H).
      rewrite !not_in_bin; [done| |]; right; lra.
    + intros H. rewrite (proj2 (in_bin 70 100 x) H).
      rewrite !not_in_bin; [done| | |]; right; lra.
    + intros H. rewrite !not_in_bin; [done| | | |]; left; rewrite H; done.
  - destruct (calculate_exclusion_risk_score fsqrt lone_integrated)
      as [ex|[t w']] eqn:E; [vm_compute in E; discriminate E|].
    exists lone_integrated, w', t, (risk_summary t). split; [done|].
    pose proof E as (df & Hdf & -> & ->)%calculate_exclusion_risk_score_inv.
    split; [by rewrite lookup_insert_eq|].
    vm_compute in Hdf. injection Hdf as <-. vm_compute. lia.
Qed.

Lemma risk_category_bins_witness :
  ∃ r, sample_scored.1 !! 1%nat = Some r ∧ CERS r == 43.81 ∧
       risk_category r = Some Medium.
Proof.
  eexists. split; [vm_compute; reflexivity|]. split; [reflexivity|].
  destruct (risk_category_bins sqrt10) as [Hbins _].
  eapply (Hbins sample_integrated sample_scored.2 sample_scored.1).
  - vm_compute. reflexivity.
  - right. left.
  - split; [reflexivity | apply Qle_bool_iff; reflexivity].
Defined.

(** ** The whole run *)

Ltac step_monad :=
  cbn -[engineer combined district_risk risk_summary seasonal
        insights_serializable strftime_B_d_Y insert lookup concat].

Lemma run_full_analysis_eq (fsqrt : Q → Q) (workspace : string) (dir : bool)
    (files : Files) (now : Date) (uuid4 : nat → UUID) :
  run_full_analysis fsqrt files now uuid4 (boot workspace dir)
  = match api_data_aadhar_enrolment files,
          api_data_aadhar_demographic files,
          api_data_aadhar_biometric files with
    | _ :: _, _ :: _, _ :: _ =>
        inr (report_path workspace,
             final_world fsqrt workspace files now uuid4)
    | _, _, _ => inl ValueError
    end.
Proof.
  destruct files as [[|e0 es] [|d0 ds] [|b0 bs]].
  1-7: reflexivity.
  unfold run_full_analysis, load_all_datasets, create_integrated_dataset,
    _engineer_features, discover_hidden_pattern,
    calculate_exclusion_risk_score, propose_intervention_framework,
    quantify_economic_impact, generate_visualizations,
    generate_executive_report, cers_districts, cers_summary, features,
    attribute, insight, insight_get, set_insight, set_combined_data,
    write_file, makedirs, pd_concat, emit, get_self, put_self, raise, boot,
    __init__, final_world.
  unfold mbind, M_bind, mret, M_ret.
  step_monad.
  destruct (engineer_total
              (combined (concat (e0 :: es)) (concat (d0 :: ds))
                 (concat (b0 :: bs)))) as [df Hdf].
  rewrite Hdf. step_monad.
  repeat (first [ rewrite lookup_insert_eq
                | rewrite lookup_insert_ne by done ]; step_monad).
  unfold final_insights, final_impact, final_interventions, final_summary,
    final_hidden_pattern, final_report, pipeline_trace.
  reflexivity.
Qed.


Lemma run_full_analysis_has_files (fsqrt : Q → Q) (workspace : string)
    (dir : bool) (files : Files) (now : Date) (uuid4 : nat → UUID) :
  has_files files →
  run_full_analysis fsqrt files now uuid4 (boot workspace dir)
  = inr (report_path workspace, final_world fsqrt workspace files now uuid4).
Proof.
  intros (He & Hd & Hb). rewrite run_full_analysis_eq.
  destruct files as [[|e0 es] [|d0 ds] [|b0 bs]]; done.
Qed.

Lemma produced_before_sound (tr : list Event) (seen : list Field) (i : nat)
    (f : Field) :
  produced_before seen tr = true → tr !! i = Some (Consume f) →
  f ∈ seen ∨ ∃ j, (j < i)%nat ∧ tr !! j = Some (Produce f).
Proof.
  revert seen i. induction tr as [|e tr IH]; intros seen i Hok Hi; [done|].
  destruct i as [|i].
  - cbn in Hi. injection Hi as ->. cbn in Hok.
    apply andb_true_iff in Hok as [Hin _]. left. by apply bool_decide_eq_true in Hin.
  - cbn in Hi. destruct e as [m|g|g]; cbn in Hok.
    + destruct (IH _ _ Hok Hi) as [?|(j & Hj & Hp)]; [by left|].
      right. exists (S j). split; [lia | done].
    + apply andb_true_iff in Hok as [_ Hok].
      destruct (IH _ _ Hok Hi) as [?|(j & Hj & Hp)]; [by left|].
      right. exists (S j). split; [lia | done].
    + destruct (IH _ _ Hok Hi) as [Hin|(j & Hj & Hp)].
      * apply elem_of_cons in Hin as [->|Hin]; [|by left].
        right. exists 0%nat. split; [lia | done].
      * right. exists (S j). split; [lia | done].
Qed.




(** C5: on input that has at least one CSV file of each kind, a run from
    a freshly built analyzer returns the report path after entering the
    eight methods once each in source order; the stages load
    ([load_all_datasets]), aggregate and derive
    ([create_integrated_dataset]), score
    ([calculate_exclusion_risk_score]) and render
    ([generate_visualizations], [generate_executive_report]) come in this
    order, once each; and every piece of state a method consumes was
    produced earlier in the run. *)
Theorem run_full_analysis_linear (fsqrt : Q → Q) (workspace : string)
    (dir : bool) (files : Files) (now : Date) (uuid4 : nat → UUID) :
  has_files files →
  ∃ w,
    run_full_analysis fsqrt files now uuid4 (boot workspace dir)
    = inr (report_path workspace, w) ∧
    entered (trace w)
    = [ m_load_all_datasets; m_create_integrated_dataset;
        m_discover_hidden_pattern; m_calculate_exclusion_risk_score;
        m_propose_intervention_framework; m_quantify_economic_impact;
        m_generate_visualizations; m_generate_executive_report ] ∧
    filter (λ m, m ∈ [ m_load_all_datasets; m_create_integrated_dataset;
                       m_calculate_exclusion_risk_score;
                       m_generate_visualizations;
                       m_generate_executive_report ])
      (entered (trace w))
    = [ m_load_all_datasets; m_create_integrated_dataset;
        m_calculate_exclusion_risk_score; m_generate_visualizations;
        m_generate_executive_report ] ∧
    (∀ i f, trace w !! i = Some (Consume f) →
            ∃ j, (j < i)%nat ∧ trace w !! j = Some (Produce f)).
Proof.
  intros Hfiles. eexists. split; [by apply run_full_analysis_has_files|].
  split; [reflexivity|]. split; [reflexivity|].
  intros i f Hi.
  destruct (produced_before_sound
              (trace (final_world fsqrt workspace files now uuid4))
              [] i f) as [Hin|Hj]; [reflexivity | exact Hi | | exact Hj].
  by apply elem_of_nil in Hin.
Qed.

Lemma run_full_analysis_linear_witness :
  ∃ w,
    run_full_analysis sqrt10 sample_files (mkDate 2026 1 15) uuid4_first_run
      (boot "workspace" false)
    = inr ("workspace/analysis_outputs/strategic_analysis/strategic_analysis_REPORT.md",
           w) ∧
    length (entered (trace w)) = 8%nat.
Proof.
  destruct (run_full_analysis_linear sqrt10 "workspace" false sample_files
              (mkDate 2026 1 15) uuid4_first_run) as (w & Hrun & Hentered & _).
  - repeat split; discriminate.
  - exists w. split; [exact Hrun|]. rewrite Hentered. reflexivity.
Defined.

(** ** The order of the input does not matter *)

Lemma order_compare_lex {A B} (c1 : A → A → comparison)
    (c2 : B → B → comparison) :
  order_compare c1 → order_compare c2 →
  order_compare (λ a b : A * B, lex (c1 a.1 b.1) (c2 a.2 b.2)).
Proof.
  intros (E1 & S1 & T1) (E2 & S2 & T2). split_and!.
  - intros [a1 a2] [b1 b2]. cbn. split.
    + destruct (c1 a1 b1) eqn:H1; cbn; try done.
      intros H2. apply E1 in H1. apply E2 in H2. congruence.
    + intros [= -> ->]. rewrite (proj2 (E1 b1 b1) eq_refl). cbn.
      by apply E2.
  - intros [a1 a2] [b1 b2]. cbn. rewrite (S1 a1 b1), (S2 a2 b2).
    by destruct (c1 b1 a1), (c2 b2 a2).
  - intros [a1 a2] [b1 b2] [x1 x2]. cbn.
    destruct (c1 a1 b1) eqn:H1; cbn; try done.
    + apply E1 in H1 as ->. intros H2.
      destruct (c1 b1 x1) eqn:H3; cbn; try done. by apply T2.
    + intros _. destruct (c1 b1 x1) eqn:H3; cbn; try done.
      * apply E1 in H3 as <-. by rewrite H1.
      * by rewrite (T1 _ _ _ H1 H3).
Qed.

Lemma order_compare_Z : order_compare Z.compare.
Proof.
  split_and!.
  - intros a b. apply Z.compare_eq_iff.
  - intros a b. apply Z.compare_antisym.
  - intros a b c. rewrite !Z.compare_lt_iff. lia.
Qed.

Lemma order_compare_string : order_compare String.compare.
Proof.
  split_and!.
  - apply OrderedTypeEx.String_as_OT.cmp_eq.
  - apply String.compare_antisym.
  - intros a b c. change String.compare with OrderedTypeEx.String_as_OT.cmp.
    rewrite !OrderedTypeEx.String_as_OT.cmp_lt.
    apply OrderedTypeEx.String_as_OT.lt_trans.
Qed.

Lemma order_compare_map {A B} (f : A → B) (c : B → B → comparison) :
  (∀ a b, f a = f b → a = b) →
  order_compare c → order_compare (λ a b, c (f a) (f b)).
Proof.
  intros Hf (E & S & T). split_and!.
  - intros a b. rewrite E. split; [apply Hf | by intros ->].
  - intros a b. apply S.
  - intros a b x. apply T.
Qed.

Lemma order_compare_key : order_compare key_compare.
Proof.
  unfold key_compare.
  apply (order_compare_map
           (λ k : Key, (k.1.1, (k.1.2, k.2)))
           (λ a b : Date * (string * string),
              lex (date_compare a.1 b.1)
                  (lex (String.compare a.2.1 b.2.1)
                       (String.compare a.2.2 b.2.2)))).
  { intros [[? ?] ?] [[? ?] ?]. cbn. congruence. }
  apply (order_compare_lex date_compare
           (λ a b : string * string,
              lex (String.compare a.1 b.1) (String.compare a.2 b.2))).
  - unfold date_compare.
    apply (order_compare_map
             (λ d : Date, (dt_year d, (dt_month d, dt_day d)))
             (λ a b : Z * (Z * Z),
                lex (a.1 ?= b.1)%Z (lex (a.2.1 ?= b.2.1)%Z (a.2.2 ?= b.2.2)%Z))).
    { intros [? ? ?] [? ? ?]. cbn. congruence. }
    apply (order_compare_lex Z.compare
             (λ a b : Z * Z, lex (a.1 ?= b.1)%Z (a.2 ?= b.2)%Z)).
    + apply order_compare_Z.
    + apply (order_compare_lex Z.compare Z.compare); apply order_compare_Z.
  - apply (order_compare_lex String.compare String.compare);
      apply order_compare_string.
Qed.

Global Instance key_le_total : Total key_le.
Proof.
  destruct order_compare_key as (_ & S & _).
  intros a b. unfold key_le. rewrite (S a b).
  destruct (key_compare b a); cbn; [left|right|left]; done.
Qed.

Global Instance key_le_antisymm : AntiSymm (=) key_le.
Proof.
  destruct order_compare_key as (E & S & _).
  intros a b. unfold key_le. rewrite (S b a). intros H1 H2.
  apply E. destruct (key_compare a b); cbn in *; done.
Qed.

Global Instance key_le_trans : Transitive key_le.
Proof.
  destruct order_compare_key as (E & S & T).
  intros a b c. unfold key_le. intros H1 H2.
  destruct (key_compare a b) eqn:Hab; [| |done].
  - by apply E in Hab as ->.
  - destruct (key_compare b c) eqn:Hbc; [| |done].
    + apply E in Hbc as <-. by rewrite Hab.
    + by rewrite (T _ _ _ Hab Hbc).
Qed.







Section GroupOrder.
Context {R T : Type}.
Variable by_ : R → option Key.


End GroupOrder.










(** * Further properties of the code *)

(** ** The run and its failures *)

(** X1: if one of the three input folders holds no CSV file, a run from a
    freshly built analyzer raises the [ValueError] of [pd.concat]: it
    raises it inside [load_all_datasets], the first method of the run, so
    that no later method is entered. *)
Theorem run_full_analysis_raises (fsqrt : Q → Q) (workspace : string)
    (dir : bool) (files : Files) (now : Date) (uuid4 : nat → UUID) :
  ¬ has_files files →
  load_all_datasets files (boot workspace dir) = inl ValueError ∧
  run_full_analysis fsqrt files now uuid4 (boot workspace dir) = inl ValueError.
Proof.
  unfold has_files. intros Hno.
  destruct files as [[|e0 es] [|d0 ds] [|b0 bs]]; cbn in Hno.
  1-7: split; reflexivity.
  destruct Hno. split_and!; discriminate.
Qed.

Lemma run_full_analysis_raises_witness :
  load_all_datasets
    {| api_data_aadhar_enrolment := api_data_aadhar_enrolment sample_files;
       api_data_aadhar_demographic := [];
       api_data_aadhar_biometric := api_data_aadhar_biometric sample_files |}
    (boot "workspace" true)
  = inl ValueError ∧
  run_full_analysis sqrt10
    {| api_data_aadhar_enrolment := api_data_aadhar_enrolment sample_files;
       api_data_aadhar_demographic := [];
       api_data_aadhar_biometric := api_data_aadhar_biometric sample_files |}
    (mkDate 2026 1 15) uuid4_first_run (boot "workspace" true)
  = inl ValueError.
Proof.
  apply run_full_analysis_raises. intros (_ & Hd & _). by apply Hd.
Defined.

(** ** The component scores *)

Lemma rank_filters (col : list Q) (x : Q) :
  (length (List.filter (λ y, Qlt_bool y x) col)
   + length (List.filter (λ y, Qeq_bool y x) col) ≤ length col)%nat.
Proof.
  induction col as [|y col IH]; [done|]. cbn.
  destruct (Qlt_bool y x) eqn:Elt, (Qeq_bool y x) eqn:Eeq; cbn; try lia.
  apply Qlt_bool_iff in Elt. apply Qeq_bool_iff in Eeq.
  rewrite Eeq in Elt. by apply Qlt_irrefl in Elt.
Qed.

Lemma rank_equal_pos (col : list Q) (x : Q) :
  x ∈ col → (1 ≤ length (List.filter (λ y, Qeq_bool y x) col))%nat.
Proof.
  induction 1 as [x col|x y col _ IH]; cbn.
  - rewrite (proj2 (Qeq_bool_iff x x) (Qeq_refl x)). cbn. lia.
  - destruct (Qeq_bool y x); cbn; lia.
Qed.

Lemma Qlen_nat {A} (l : list A) (n : nat) :
  length l = n → Qlen l = inject_Z (Z.of_nat n).
Proof. by intros <-. Qed.

(** [rank(pct=True)] of a member of the column lies in (0, 1]. *)
Lemma rank_pct_bounds (col : list Q) (x : Q) :
  x ∈ col → 0 < rank_pct col x ∧ rank_pct col x <= 1.
Proof.
  intros Hx. unfold rank_pct.
  pose proof (rank_filters col x) as Hsum.
  pose proof (rank_equal_pos col x Hx) as Heq.
  unfold Qlen.
  set (l := length (List.filter (λ y, Qlt_bool y x) col)) in *.
  set (e := length (List.filter (λ y, Qeq_bool y x) col)) in *.
  set (n := length col) in *.
  assert (0 <= inject_Z (Z.of_nat l)) as Hl
    by (change 0 with (inject_Z 0); rewrite <- Zle_Qle; lia).
  assert (1 <= inject_Z (Z.of_nat e)) as He
    by (change 1 with (inject_Z 1); rewrite <- Zle_Qle; lia).
  assert (inject_Z (Z.of_nat l) + inject_Z (Z.of_nat e) <= inject_Z (Z.of_nat n))
    as Hn by (rewrite <- inject_Z_plus, <- Zle_Qle; lia).
  generalize dependent (inject_Z (Z.of_nat l)).
  generalize dependent (inject_Z (Z.of_nat e)).
  generalize dependent (inject_Z (Z.of_nat n)).
  intros qn qe He ql Hl Hn.
  assert (0 < qn) as Hpos by lra.
  split.
  - apply Qlt_shift_div_l; [exact Hpos|].
    unfold Qdiv. change (/ 2) with (1 # 2). lra.
  - apply Qle_shift_div_r; [exact Hpos|].
    unfold Qdiv. change (/ 2) with (1 # 2). lra.
Qed.

Lemma clip_above (v : Q) : 0 <= v → clip 0 100 v <= v.
Proof.
  intros Hv. unfold clip.
  destruct (Qlt_bool v 0) eqn:E1; [exact Hv|].
  destruct (Qlt_bool 100 v) eqn:E2; [|apply Qle_refl].
  apply Qlt_bool_iff in E2. by apply Qlt_le_weak.
Qed.

Lemma clip_nonpos (v : Q) : v <= 0 → clip 0 100 v <= 0.
Proof.
  intros Hv. unfold clip.
  destruct (Qlt_bool v 0) eqn:E1; [apply Qle_refl|].
  destruct (Qlt_bool 100 v) eqn:E2; [|exact Hv].
  apply Qlt_bool_iff in E2. lra.
Qed.

Lemma volume_pressure_le_gap (rank avg : Q) :
  0 < rank → rank <= 1 →
  clip 0 100 (rank * (100 - avg)) <= 100 - clip 0 100 avg.
Proof.
  intros Hr0 Hr1.
  destruct (Qlt_le_dec avg 0) as [Hneg|Hnn].
  - assert (clip 0 100 avg = 0) as ->.
    { unfold clip. by rewrite (proj2 (Qlt_bool_iff avg 0) Hneg). }
    destruct (clip_bounds 0 100 (rank * (100 - avg))); [done|]. lra.
  - destruct (Qlt_le_dec 100 avg) as [Hbig|Hle].
    + assert (clip 0 100 avg = 100) as ->.
      { unfold clip. rewrite (proj2 (Qlt_bool_false avg 0) Hnn).
        by rewrite (proj2 (Qlt_bool_iff 100 avg) Hbig). }
      assert (rank * (100 - avg) <= 0) by nra.
      pose proof (clip_nonpos _ H). lra.
    + assert (clip 0 100 avg = avg) as ->.
      { unfold clip. rewrite (proj2 (Qlt_bool_false avg 0) Hnn).
        by rewrite (proj2 (Qlt_bool_false 100 avg) Hle). }
      assert (0 <= rank * (100 - avg)) by nra.
      assert (rank * (100 - avg) <= 100 - avg) by nra.
      pose proof (clip_above _ H). lra.
Qed.

(** X2: on every row of the table that [calculate_exclusion_risk_score]
    returns, the percentile rank of the district's volume lies in (0, 1],
    and the volume pressure risk never exceeds the gap risk. *)
Theorem volume_pressure_bounded (fsqrt : Q → Q) (w w' : World)
    (t : list DistrictRisk) (r : DistrictRisk) :
  calculate_exclusion_risk_score fsqrt w = inr (t, w') → r ∈ t →
  0 < volume_rank r ∧ volume_rank r <= 1 ∧
  volume_pressure_risk r <= gap_risk r.
Proof.
  intros (df & _ & -> & _)%calculate_exclusion_risk_score_inv
    (a & Ha & ->)%elem_of_district_risk%elem_of_scored.
  set (agg := fill_volatility <$> district_agg fsqrt df) in *.
  assert (total_enrolments (fill_volatility a) ∈ total_enrolments <$> agg)
    as Hin by (by apply list_elem_of_fmap_2, list_elem_of_fmap_2).
  destruct (rank_pct_bounds _ _ Hin) as [H0 H1].
  cbn -[clip round2 composite series_max rank_pct cut].
  split; [exact H0|]. split; [exact H1|].
  by apply volume_pressure_le_gap.
Qed.

Lemma volume_pressure_bounded_witness :
  ∃ r, sample_scored.1 !! 0%nat = Some r ∧
       volume_rank r == 2 # 3 ∧ volume_pressure_risk r <= gap_risk r.
Proof.
  eexists. split; [vm_compute; reflexivity|]. split; [reflexivity|].
  eapply (volume_pressure_bounded sqrt10 sample_integrated sample_scored.2
            sample_scored.1).
  - vm_compute. reflexivity.
  - left.
Defined.

Lemma series_max_elem (l : list Q) (m : Q) : series_max l = Some m → m ∈ l.
Proof.
  destruct l as [|x0 l]; [done|]. cbn. intros [= <-].
  induction l as [|y l IH]; cbn; [left|].
  set (m := foldr _ x0 l) in *.
  destruct (Qlt_bool m y); [right; left|].
  apply elem_of_cons in IH as [->|IH]; [left | right; by right].
Qed.

Lemma List_filter_elem {A} (f : A → bool) (l : list A) (x : A) :
  x ∈ List.filter f l ↔ x ∈ l ∧ f x = true.
Proof. rewrite !list_elem_of_In. apply filter_In. Qed.

Lemma List_filter_none {A} (f : A → bool) (l : list A) :
  (∀ x, x ∈ l → f x = false) → List.filter f l = [].
Proof.
  induction l as [|y l IH]; [done|]. intros H. cbn.
  rewrite (H y) by left. apply IH. intros x Hx. apply H. by right.
Qed.

Lemma scored_intro (fsqrt : Q → Q) (df : list Engineered)
    (a : DistrictAgg (option Q)) :
  a ∈ district_agg fsqrt df →
  score (series_max (bio_gap_volatility
                       <$> (fill_volatility <$> district_agg fsqrt df)))
        (total_enrolments <$> (fill_volatility <$> district_agg fsqrt df))
        (fill_volatility a)
  ∈ district_risk fsqrt df.
Proof.
  intros Ha. apply elem_of_district_risk. unfold scored. cbv zeta.
  by apply list_elem_of_fmap_2, list_elem_of_fmap_2.
Qed.

Lemma stats_score (mv : option Q) (totals : list Q) (a : DistrictAgg Q) :
  stats (score mv totals a) = a.
Proof. reflexivity. Qed.

(** X3: the volatility risk is normalised by the most volatile district.
    If some district of the table has a positive volatility, some
    district has a volatility risk of 100, so that capacity building
    targets at least one district; if none has, every volatility risk is
    0 and capacity building targets no district. *)
Theorem volatility_normalised (fsqrt : Q → Q) (w w' : World)
    (t : list DistrictRisk) :
  calculate_exclusion_risk_score fsqrt w = inr (t, w') →
  ((∃ r, r ∈ t ∧ 0 < bio_gap_volatility (stats r)) →
   (∃ r, r ∈ t ∧ volatility_risk r == 100) ∧
   (1 ≤ capacity_target_districts (capacity_building t))%nat) ∧
  ((∀ r, r ∈ t → bio_gap_volatility (stats r) <= 0) →
   (∀ r, r ∈ t → volatility_risk r = 0) ∧
   capacity_target_districts (capacity_building t) = 0%nat).
Proof.
  intros (df & _ & -> & _)%calculate_exclusion_risk_score_inv.
  set (agg := fill_volatility <$> district_agg fsqrt df).
  split.
  - intros (r & (a & Ha & ->)%elem_of_district_risk%elem_of_scored & Hpos).
    rewrite stats_score in Hpos.
    assert (bio_gap_volatility (fill_volatility a) ∈ bio_gap_volatility <$> agg)
      as Hin by (by apply list_elem_of_fmap_2, list_elem_of_fmap_2).
    destruct (series_max (bio_gap_volatility <$> agg)) as [m|] eqn:Em.
    2: { destruct (bio_gap_volatility <$> agg); [by apply elem_of_nil in Hin | done]. }
    pose proof (series_max_ge _ _ _ Em Hin) as Hge.
    assert (0 < m) as Hm by lra.
    pose proof (series_max_elem _ _ Em) as Hmin.
    apply list_elem_of_fmap in Hmin as (am' & Hm' & (am & -> & Ham)%list_elem_of_fmap).
    pose proof (scored_intro fsqrt df am Ham) as Hrow. fold agg in Hrow.
    set (rm := score _ _ (fill_volatility am)) in Hrow.
    assert (volatility_risk rm == 100) as Hvr.
    { subst rm. cbn -[series_max rank_pct clip round2 cut]. fold agg.
      rewrite Em, (proj2 (Qlt_bool_iff 0 m) Hm).
      change (default 0 (bio_gap_volatility am))
        with (bio_gap_volatility (fill_volatility am)).
      rewrite <- Hm'.
      field. intros E0. rewrite E0 in Hm. by apply Qlt_irrefl in Hm. }
    split; [by exists rm|].
    unfold capacity_building, volatile_districts. cbn.
    rewrite merge_sort_Permutation.
    assert (rm ∈ List.filter (λ r, Qlt_bool 70 (volatility_risk r))
                    (district_risk fsqrt df)) as Hf.
    { apply List_filter_elem. split; [exact Hrow|].
      apply Qlt_bool_iff. rewrite Hvr. reflexivity. }
    destruct (List.filter _ _); [by apply elem_of_nil in Hf | cbn; lia].
  - intros Hall.
    assert (∀ r, r ∈ district_risk fsqrt df → volatility_risk r = 0) as Hzero.
    { intros r (a & Ha & ->)%elem_of_district_risk%elem_of_scored.
      fold agg. cbn -[series_max rank_pct clip round2 cut].
      destruct (series_max (bio_gap_volatility <$> agg)) as [m|] eqn:Em; [|done].
      destruct (Qlt_bool 0 m) eqn:E; [|done]. exfalso.
      apply Qlt_bool_iff in E.
      pose proof (series_max_elem _ _ Em) as Hmin.
      apply list_elem_of_fmap in Hmin
        as (am' & Hm' & (am & -> & Ham)%list_elem_of_fmap).
      pose proof (Hall _ (scored_intro fsqrt df am Ham)) as Hle.
      rewrite stats_score, <- Hm' in Hle. lra. }
    split; [exact Hzero|].
    unfold capacity_building, volatile_districts. cbn.
    rewrite merge_sort_Permutation, List_filter_none; [done|].
    intros r Hr. by rewrite (Hzero r Hr).
Qed.

Lemma volatility_normalised_witness :
  (∃ r, r ∈ sample_scored.1 ∧ volatility_risk r == 100) ∧
  (1 ≤ capacity_target_districts (capacity_building sample_scored.1))%nat.
Proof.
  destruct (volatility_normalised sqrt10 sample_integrated sample_scored.2
              sample_scored.1) as [H _]; [vm_compute; reflexivity|].
  apply H. eexists. split; [right; left | reflexivity].
Defined.

(** The CERS of a scored row lies in [0, 100] when the square root is
    non-negative. *)
Lemma score_CERS_range (fsqrt : Q → Q) (df : list Engineered)
    (r : DistrictRisk) :
  (∀ x, 0 <= fsqrt x) → r ∈ district_risk fsqrt df →
  0 <= CERS r ∧ CERS r <= 100.
Proof.
  intros Hsqrt (a & Ha & ->)%elem_of_district_risk%elem_of_scored.
  set (agg := fill_volatility <$> district_agg fsqrt df) in *.
  assert (0 <= bio_gap_volatility (fill_volatility a)) as Hv0.
  { unfold district_agg in Ha.
    apply list_elem_of_fmap in Ha as (kg & -> & _). cbn -[std].
    by apply std_nonneg. }
  assert (fill_volatility a ∈ agg) as Hin by (by apply list_elem_of_fmap_2).
  cbn -[clip round2 composite series_max rank_pct cut].
  apply round2_bounds; apply composite_bounds.
  all: try (by apply clip_bounds).
  all: try (destruct (clip_bounds 0 100 (avg_bio_completion a)); [done|];
            split; lra).
  all: destruct (series_max _) as [m|] eqn:Em; [|done];
    destruct (Qlt_bool 0 m) eqn:E; [|done];
    apply volatility_ratio_bounds; [exact Hv0 | | by apply Qlt_bool_iff];
    (eapply series_max_ge; [exact Em|]);
    by apply (list_elem_of_fmap_2 bio_gap_volatility) in Hin.
Qed.

Lemma category_of_score (x : Q) :
  0 <= x → x <= 100 →
  let c := cut [0; 30; 50; 70; 100] [Low; Medium; High; Critical] x in
  (c = None ↔ x == 0) ∧
  (c = Some Critical ↔ 70 < x) ∧
  (c = Some High ↔ 50 < x ∧ x <= 70) ∧
  (c = Some Medium ↔ 30 < x ∧ x <= 50) ∧
  (c = Some Low ↔ 0 < x ∧ x <= 30).
Proof.
  intros H0 H100. cbv zeta. rewrite cut_CERS.
  destruct (Qlt_bool 0 x && Qle_bool x 30) eqn:B1.
  { apply in_bin in B1 as [? ?].
    split_and!; split; try done; try (intros [? ?]; lra); try (intros ?; lra). }
  destruct (Qlt_bool 30 x && Qle_bool x 50) eqn:B2.
  { apply in_bin in B2 as [? ?].
    split_and!; split; try done; try (intros [? ?]; lra); try (intros ?; lra). }
  destruct (Qlt_bool 50 x && Qle_bool x 70) eqn:B3.
  { apply in_bin in B3 as [? ?].
    split_and!; split; try done; try (intros [? ?]; lra); try (intros ?; lra). }
  destruct (Qlt_bool 70 x && Qle_bool x 100) eqn:B4.
  { apply in_bin in B4 as [? ?].
    split_and!; split; try done; try (intros [? ?]; lra); try (intros ?; lra). }
  assert (∀ lo hi, Qlt_bool lo x && Qle_bool x hi = false → x <= lo ∨ hi < x)
    as Hout.
  { intros lo hi B. destruct (Qlt_le_dec lo x) as [Hl|Hl]; [|by left].
    destruct (Qlt_le_dec hi x) as [Hh|Hh]; [by right|].
    rewrite (proj2 (in_bin lo hi x)) in B; done. }
  apply Hout in B1, B2, B3, B4.
  assert (x == 0) as Hx by (destruct B1, B2, B3, B4; lra).
  split_and!; split; try done; try (intros [? ?]; lra); try (intros ?; lra).
Qed.

Lemma count_partition (t : list DistrictRisk) :
  (count_category Low t + count_category Medium t + count_category High t
   + count_category Critical t + uncategorised t = length t)%nat.
Proof.
  unfold count_category, uncategorised.
  induction t as [|r t IH]; [done|].
  rewrite !filter_cons.
  destruct (risk_category r) as [[]|]; repeat case_decide; try done;
    cbn; lia.
Qed.

(** X4: provided the square root is non-negative, the four categories
    and the rows without a category partition the table that
    [calculate_exclusion_risk_score] returns: the four counts of the
    summary and the number of uncategorised rows add up to
    [total_districts]; a row is uncategorised exactly when its CERS is 0,
    Critical exactly when its CERS exceeds 70, High exactly when it is in
    (50, 70], Medium in (30, 50] and Low in (0, 30]. *)
Theorem categories_partition (fsqrt : Q → Q) (w w' : World)
    (t : list DistrictRisk) :
  (∀ x, 0 <= fsqrt x) →
  calculate_exclusion_risk_score fsqrt w = inr (t, w') →
  (low_risk_districts (risk_summary t) + medium_risk_districts (risk_summary t)
   + high_risk_districts (risk_summary t)
   + critical_risk_districts (risk_summary t) + uncategorised t
   = total_districts (risk_summary t))%nat ∧
  ∀ r, r ∈ t →
    (risk_category r = None ↔ CERS r == 0) ∧
    (risk_category r = Some Critical ↔ 70 < CERS r) ∧
    (risk_category r = Some High ↔ 50 < CERS r ∧ CERS r <= 70) ∧
    (risk_category r = Some Medium ↔ 30 < CERS r ∧ CERS r <= 50) ∧
    (risk_category r = Some Low ↔ 0 < CERS r ∧ CERS r <= 30).
Proof.
  intros Hsqrt (df & _ & -> & _)%calculate_exclusion_risk_score_inv.
  split; [apply count_partition|].
  intros r Hr. destruct (score_CERS_range fsqrt df r Hsqrt Hr) as [H0 H100].
  apply elem_of_district_risk, elem_of_scored in Hr as (a & _ & ->).
  cbn -[clip round2 composite series_max rank_pct cut] in *.
  by apply category_of_score.
Qed.

Lemma categories_partition_witness :
  (uncategorised sample_scored.1 = 1%nat) ∧
  (low_risk_districts (risk_summary sample_scored.1)
   + medium_risk_districts (risk_summary sample_scored.1)
   + high_risk_districts (risk_summary sample_scored.1)
   + critical_risk_districts (risk_summary sample_scored.1) + 1
   = total_districts (risk_summary sample_scored.1))%nat.
Proof.
  assert (uncategorised sample_scored.1 = 1%nat) as Hu by reflexivity.
  split; [exact Hu|]. rewrite <- Hu.
  apply (categories_partition sqrt10 sample_integrated sample_scored.2).
  - exact sqrt10_nonneg.
  - vm_compute. reflexivity.
Defined.

(** ** The summary and the plans built on the table *)

Global Instance CERS_descending_trans : Transitive CERS_descending.
Proof.
  intros a b c. unfold CERS_descending. rewrite !Qle_bool_iff.
  intros Hab Hbc. eapply Qle_trans; eassumption.
Qed.

Lemma StronglySorted_lookup_le {X} (R : relation X) `{!Reflexive R}
    (l : list X) (i j : nat) (a b : X) :
  StronglySorted R l → (i ≤ j)%nat →
  l !! i = Some a → l !! j = Some b → R a b.
Proof.
  intros Hs. revert i j. induction Hs as [|x l Hs IH Hall]; intros i j Hij; [done|].
  destruct i as [|i], j as [|j]; cbn; try lia.
  - intros [= ->] [= ->]. reflexivity.
  - intros [= ->] Hb. rewrite Forall_forall in Hall. apply Hall.
    by eapply list_elem_of_lookup_2.
  - apply IH. lia.
Qed.

Global Instance CERS_descending_refl : Reflexive CERS_descending.
Proof. intros a. unfold CERS_descending. apply Qle_bool_iff, Qle_refl. Qed.

(** X5: the [top_10_districts] of the stored summary are the first
    [min 10 n] rows of the returned table, in order, and no district from
    that position on has a greater CERS; the dashboard's [top_20]
    selection of this list is the list itself. *)
Theorem top_10_highest (fsqrt : Q → Q) (w w' : World) (t : list DistrictRisk) :
  calculate_exclusion_risk_score fsqrt w = inr (t, w') →
  ∃ s,
    insights (self w') !! "cers_summary" = Some (CersSummary s) ∧
    length (top_10_districts s) = (10 `min` length t)%nat ∧
    (∀ i e, top_10_districts s !! i = Some e →
       ∃ r, t !! i = Some r ∧
            e = (state (stats r), district (stats r), CERS r,
                 risk_category r, total_enrolments (stats r)) ∧
            ∀ j r', (i ≤ j)%nat → t !! j = Some r' → CERS r' <= CERS r) ∧
    top_20 (top_10_districts s) = top_10_districts s.
Proof.
  intros H. pose proof H as (df & _ & -> & Hins)%calculate_exclusion_risk_score_inv.
  exists (risk_summary (district_risk fsqrt df)).
  split; [by rewrite Hins, lookup_insert_eq|].
  set (t := district_risk fsqrt df) in *.
  assert (length (top_10_districts (risk_summary t)) = (10 `min` length t)%nat)
    as Hlen by (cbn; by rewrite length_fmap, length_take).
  split; [exact Hlen|]. split.
  - intros i e Hi. cbn in Hi. rewrite list_lookup_fmap in Hi.
    destruct (take 10 t !! i) as [r|] eqn:Hr; [|done].
    cbn in Hi. injection Hi as <-.
    apply lookup_take_Some in Hr as [Hr _].
    exists r. split; [exact Hr|]. split; [done|].
    intros j r' Hij Hj. apply Qle_bool_iff.
    eapply (StronglySorted_lookup_le CERS_descending t i j r r');
      [|done..].
    apply StronglySorted_merge_sort; apply _.
  - unfold top_20. case_decide; [lia | done].
Qed.

Lemma top_10_highest_witness :
  ∃ s, insights (self sample_scored.2) !! "cers_summary" = Some (CersSummary s) ∧
       length (top_10_districts s) = 3%nat.
Proof.
  destruct (top_10_highest sqrt10 sample_integrated sample_scored.2
              sample_scored.1) as (s & Hs & Hlen & _);
    [vm_compute; reflexivity|].
  exists s. split; [exact Hs|]. rewrite Hlen. reflexivity.
Defined.

(** X6: provided the square root is non-negative, the priority districts
    of the mobile van plan are exactly the districts of the table whose
    CERS exceeds 50, the documented target, and their number is the sum
    of the Critical and High counts of the summary. *)
Theorem priority_districts_target (fsqrt : Q → Q) (w w' : World)
    (t : list DistrictRisk) :
  (∀ x, 0 <= fsqrt x) →
  calculate_exclusion_risk_score fsqrt w = inr (t, w') →
  (∀ r, r ∈ priority_districts t ↔ r ∈ t ∧ 50 < CERS r) ∧
  total_districts_to_cover (mobile_van_optimizer t)
  = (critical_risk_districts (risk_summary t)
     + high_risk_districts (risk_summary t))%nat.
Proof.
  intros Hsqrt (df & _ & -> & _)%calculate_exclusion_risk_score_inv.
  split; [|cbn; unfold priority_districts; by rewrite length_app].
  intros r. unfold priority_districts.
  rewrite elem_of_app, !list_elem_of_filter.
  assert (r ∈ district_risk fsqrt df →
          (risk_category r = Some Critical ↔ 70 < CERS r) ∧
          (risk_category r = Some High ↔ 50 < CERS r ∧ CERS r <= 70)) as Hcat.
  { intros Hr. destruct (score_CERS_range fsqrt df r Hsqrt Hr) as [H0 H100].
    apply elem_of_district_risk, elem_of_scored in Hr as (a & _ & ->).
    cbn -[clip round2 composite series_max rank_pct cut] in *.
    destruct (category_of_score _ H0 H100) as (_ & Hc & Hh & _). done. }
  split.
  - intros [[Hc Hr]|[Hh Hr]]; (split; [exact Hr|]);
      destruct (Hcat Hr) as [Hc' Hh'].
    + apply Hc' in Hc. lra.
    + apply Hh' in Hh. tauto.
  - intros [Hr H50]. destruct (Hcat Hr) as [Hc' Hh'].
    destruct (Qlt_le_dec 70 (CERS r)) as [H70|H70].
    + left. split; [by apply Hc' | exact Hr].
    + right. split; [by apply Hh' | exact Hr].
Qed.

Lemma priority_districts_target_witness :
  ∃ r, sample_scored.1 !! 0%nat = Some r ∧ CERS r == 75 ∧
       r ∈ priority_districts sample_scored.1.
Proof.
  eexists. split; [vm_compute; reflexivity|]. split; [reflexivity|].
  destruct (priority_districts_target sqrt10 sample_integrated sample_scored.2
              sample_scored.1) as [H _];
    [exact sqrt10_nonneg | vm_compute; reflexivity |].
  apply H. split; [left | reflexivity].
Defined.

(** ** The economic figures *)

Lemma int__nonneg (x : Q) : 0 <= x → (0 ≤ int_ x)%Z.
Proof.
  intros Hx. unfold int_. apply Z.quot_pos; [|lia].
  unfold Qle in Hx. cbn in Hx. lia.
Qed.

Lemma py_min_le_r (a b : Q) : py_min a b <= b.
Proof.
  unfold py_min. destruct (Qlt_bool b a) eqn:E; [apply Qle_refl|].
  by apply Qlt_bool_false in E.
Qed.

Lemma py_min_glb (a b c : Q) : c <= a → c <= b → c <= py_min a b.
Proof. intros Ha Hb. unfold py_min. by destruct (Qlt_bool b a). Qed.

Lemma inject_Z_nonneg (z : Z) : (0 ≤ z)%Z → 0 <= inject_Z z.
Proof. intros Hz. change 0 with (inject_Z 0). by rewrite <- Zle_Qle. Qed.

(** X7: in the figures of [quantify_economic_impact], the citizens
    helped never exceed the citizens at risk, so the exclusion prevention
    savings never exceed the current exclusion cost; the ROI is 0 where
    the intervention cost is not positive and the quotient otherwise, and
    the payback period is 'N/A' exactly where the savings are not
    positive, so that no quotient has a zero divisor; on non-negative
    inputs every cost and every saving is non-negative, while the net
    benefit and the ROI can be negative, as they are for 1000 people
    reached in 10 districts; and with no interventions stored the cost is
    0, the ROI 0 and the payback period 'N/A'. *)
Theorem economic_figures_guarded (population districts : Z) (cost : Q)
    (beneficiaries targets : Z) :
  let f := economic_figures population districts cost beneficiaries targets in
  citizens_helped f <= inject_Z (citizens_at_risk f) ∧
  exclusion_prevented_savings f <= inject_Z (annual_exclusion_cost f) ∧
  (total_intervention_cost f <= 0 → roi f = 0) ∧
  (0 < total_intervention_cost f →
   roi f * total_intervention_cost f == net_benefit f * 100) ∧
  (payback_period_months f = None ↔ total_annual_savings f <= 0) ∧
  ((0 ≤ population)%Z → (0 ≤ districts)%Z → 0 <= cost →
   (0 ≤ beneficiaries)%Z → (0 ≤ targets)%Z →
   (0 ≤ citizens_at_risk f)%Z ∧ (0 ≤ annual_exclusion_cost f)%Z ∧
   (0 ≤ num_vans_needed f)%Z ∧ (0 ≤ mobile_van_annual_cost f)%Z ∧
   0 <= citizens_served_by_vans f ∧ 0 <= alert_cost f ∧
   (0 ≤ capacity_building_cost f)%Z ∧ 0 <= total_intervention_cost f ∧
   0 <= citizens_helped f ∧ 0 <= exclusion_prevented_savings f ∧
   0 <= efficiency_savings f ∧ 0 <= admin_savings f ∧
   0 <= total_annual_savings f ∧
   efficiency_savings f <= total_annual_savings f) ∧
  (net_benefit (economic_figures 1000 10 30 90 2) < 0 ∧
   roi (economic_figures 1000 10 30 90 2) < 0) ∧
  (total_intervention_cost (economic_impact_figures None) == 0 ∧
   roi (economic_impact_figures None) = 0 ∧
   payback_period_months (economic_impact_figures None) = None).
Proof.
  cbv zeta.
  set (f := economic_figures population districts cost beneficiaries targets).
  assert (citizens_helped f <= inject_Z (citizens_at_risk f)) as Hhelp
    by apply py_min_le_r.
  split_and!.
  - exact Hhelp.
  - change (exclusion_prevented_savings f) with (citizens_helped f * inject_Z 5000).
    change (annual_exclusion_cost f) with (citizens_at_risk f * 5000)%Z.
    rewrite inject_Z_mult. by apply Qmult_le_compat_r.
  - intros Hle. change (roi f) with
      (if Qlt_bool 0 (total_intervention_cost f)
       then net_benefit f / total_intervention_cost f * 100 else 0).
    by rewrite (proj2 (Qlt_bool_false _ _) Hle).
  - intros Hpos. change (roi f) with
      (if Qlt_bool 0 (total_intervention_cost f)
       then net_benefit f / total_intervention_cost f * 100 else 0).
    rewrite (proj2 (Qlt_bool_iff _ _) Hpos). field.
    intros E. rewrite E in Hpos. by apply Qlt_irrefl in Hpos.
  - change (payback_period_months f) with
      (if Qlt_bool 0 (total_annual_savings f)
       then Some (total_intervention_cost f / (total_annual_savings f / 12))
       else None).
    destruct (Qlt_bool 0 (total_annual_savings f)) eqn:E.
    + apply Qlt_bool_iff in E. split; [done | intros ?; lra].
    + by apply Qlt_bool_false in E.
  - intros Hp Hd Hc Hb Ht.
    assert (0 ≤ citizens_at_risk f)%Z as Hrisk.
    { apply int__nonneg. apply Qmult_le_0_compat; [by apply inject_Z_nonneg | done]. }
    assert (0 ≤ num_vans_needed f)%Z as Hvans.
    { apply int__nonneg. apply Qle_shift_div_l; [reflexivity|].
      rewrite Qmult_0_l. by apply inject_Z_nonneg. }
    assert (0 <= citizens_served_by_vans f) as Hserved.
    { change (citizens_served_by_vans f)
        with (inject_Z (num_vans_needed f * 150 * 25 * 12) * 0.7).
      apply Qmult_le_0_compat; [apply inject_Z_nonneg; lia | done]. }
    assert (0 <= citizens_helped f) as Hh0.
    { apply py_min_glb; [|by apply inject_Z_nonneg].
      apply (Qle_trans _ (0 + 0)); [done|].
      apply Qplus_le_compat; [exact Hserved | by apply inject_Z_nonneg]. }
    assert (0 <= efficiency_savings f) as He0.
    { change (efficiency_savings f)
        with (inject_Z (population * 12000) * 0.15).
      apply Qmult_le_0_compat; [apply inject_Z_nonneg; lia | done]. }
    assert (0 <= total_intervention_cost f) as Hcost.
    { change (total_intervention_cost f)
        with (inject_Z (num_vans_needed f * 200000 * 12) + cost
              + inject_Z (targets * 2 * 500000)).
      pose proof (inject_Z_nonneg (num_vans_needed f * 200000 * 12) ltac:(lia)) as H1.
      pose proof (inject_Z_nonneg (targets * 2 * 500000) ltac:(lia)) as H2.
      revert H1 H2.
      generalize (inject_Z (num_vans_needed f * 200000 * 12)).
      generalize (inject_Z (targets * 2 * 500000)).
      intros q1 q2 H2 H1. lra. }
    assert (0 <= total_annual_savings f
            ∧ efficiency_savings f <= total_annual_savings f) as [Hs0 Hes].
    { change (total_annual_savings f)
        with (citizens_helped f * inject_Z 5000 + efficiency_savings f
              + citizens_helped f * 0.5 * 500).
      change (inject_Z 5000) with 5000. change 0.5 with (5 # 10).
      revert Hh0 He0. generalize (citizens_helped f), (efficiency_savings f).
      intros h e Hh0 He0. split; lra. }
    split_and!; try done.
    + change (annual_exclusion_cost f) with (citizens_at_risk f * 5000)%Z. lia.
    + change (mobile_van_annual_cost f)
        with (num_vans_needed f * 200000 * 12)%Z. lia.
    + change (capacity_building_cost f) with (targets * 2 * 500000)%Z. lia.
    + change (exclusion_prevented_savings f)
        with (citizens_helped f * inject_Z 5000).
      apply Qmult_le_0_compat; [exact Hh0 | done].
    + change (admin_savings f) with (citizens_helped f * 0.5 * 500).
      change 0.5 with (5 # 10).
      revert Hh0. generalize (citizens_helped f). intros h Hh0. lra.
  - vm_compute. reflexivity.
  - vm_compute. reflexivity.
  - reflexivity.
  - reflexivity.
  - reflexivity.
Qed.

Lemma economic_figures_guarded_witness :
  let f := economic_figures 1000 10 30 90 2 in
  citizens_at_risk f = 200%Z ∧ citizens_helped f == 200 ∧
  total_intervention_cost f == 6800030 ∧
  total_annual_savings f == 2850000 ∧
  net_benefit f == -3950030 ∧
  roi f * total_intervention_cost f == net_benefit f * 100 ∧
  0 <= total_annual_savings f.
Proof.
  cbv zeta.
  destruct (economic_figures_guarded 1000 10 30 90 2)
    as (_ & _ & _ & Hroi & _ & Hnonneg & _).
  split; [reflexivity|]. split; [reflexivity|]. split; [reflexivity|].
  split; [reflexivity|]. split; [reflexivity|].
  split; [apply Hroi; reflexivity|].
  apply Hnonneg; [lia | lia | apply Qle_bool_iff; reflexivity | lia | lia].
Defined.

(** ** The rendering methods *)

Ltac unfold_methods :=
  unfold generate_visualizations, generate_executive_report, cers_districts,
    cers_summary, features, attribute, insight, insight_get, set_insight,
    set_combined_data, write_file, makedirs, emit, get_self, put_self, raise;
  unfold mbind, M_bind, mret, M_ret.

Ltac step_methods :=
  cbn -[seasonal insights_serializable strftime_B_d_Y insert lookup
        report_path].

(** X8: [generate_executive_report] never modifies the analyzer.  When it
    returns, it returns the path of the report in the output directory
    of the workspace, and it has written the report, dated with the date
    of the run, and a JSON snapshot of the insights, and nothing else;
    the snapshot is the insights dictionary with its district table cut
    to its first 100 rows, every other key unchanged, and the dictionary
    itself keeps the whole table. *)
Theorem generate_executive_report_read_only (now : Date) (w w' : World)
    (p : string) :
  generate_executive_report now w = inr (p, w') →
  self w' = self w ∧
  p = report_path (workspace_path (self w)) ∧
  ∃ r j,
    written w' = written w ++ [ ("strategic_analysis_REPORT.md", ExecutiveReport r);
                                ("strategic_analysis_insights.json", InsightsJson j) ] ∧
    report_date r = strftime_B_d_Y now ∧
    (∀ k, k ≠ "cers_districts" → j !! k = insights (self w) !! k) ∧
    (∀ t, insights (self w) !! "cers_districts" = Some (CersDistricts t) →
          j !! "cers_districts" = Some (CersDistricts (take 100 t))).
Proof.
  unfold_methods. step_methods.
  destruct (insights (self w) !! "cers_summary") as [[]|]; step_methods; try done.
  destruct (insights (self w) !! "hidden_pattern") as [hp|]; step_methods; [|done].
  destruct (insights (self w) !! "interventions") as [iv|]; step_methods; [|done].
  destruct (insights (self w) !! "economic_impact") as [ei|]; step_methods; [|done].
  destruct (output_dir w); step_methods; [|done].
  intros [= <- <-]. split; [done|]. split; [done|].
  eexists _, _. split.
  { cbn. rewrite <- app_assoc. reflexivity. }
  split; [reflexivity|]. unfold insights_serializable. split.
  - intros k Hk. destruct (insights (self w) !! "cers_districts") as [[]|]; try done.
    by rewrite lookup_insert_ne.
  - intros t ->. by rewrite lookup_insert_eq.
Qed.

Lemma generate_executive_report_read_only_witness :
  ∃ w', generate_executive_report (mkDate 2026 1 15)
          (final_world sqrt10 "workspace" lone_files (mkDate 2026 1 14)
             uuid4_first_run)
        = inr ("workspace/analysis_outputs/strategic_analysis/strategic_analysis_REPORT.md",
               w') ∧
        self w' = self (final_world sqrt10 "workspace" lone_files
                          (mkDate 2026 1 14) uuid4_first_run) ∧
        length (written w') = 8%nat.
Proof.
  destruct (generate_executive_report (mkDate 2026 1 15)
              (final_world sqrt10 "workspace" lone_files (mkDate 2026 1 14)
                 uuid4_first_run))
    as [e|[p w']] eqn:E; [vm_compute in E; discriminate E|].
  destruct (generate_executive_report_read_only _ _ _ _ E)
    as (Hself & -> & r & j & Hw & _).
  exists w'. split; [reflexivity|]. split; [exact Hself|].
  rewrite Hw. reflexivity.
Defined.

(** X9: [generate_executive_report] relies on an earlier method for the
    output directory.  On an analyzer that holds the four insights it
    reads, it returns when the directory exists and raises
    [FileNotFoundError] when it does not; where an insight is missing it
    raises the [KeyError] of the first missing key, whatever the
    directory; run right after [generate_visualizations], it never raises
    [FileNotFoundError]. *)
Theorem generate_executive_report_needs (now : Date) (w : World) :
  (insights (self w) !! "cers_summary" = None →
   generate_executive_report now w = inl (KeyError "cers_summary")) ∧
  (∀ s, insights (self w) !! "cers_summary" = Some (CersSummary s) →
     (insights (self w) !! "hidden_pattern" = None →
      generate_executive_report now w = inl (KeyError "hidden_pattern")) ∧
     (∀ hp, insights (self w) !! "hidden_pattern" = Some hp →
        (insights (self w) !! "interventions" = None →
         generate_executive_report now w = inl (KeyError "interventions")) ∧
        (∀ iv, insights (self w) !! "interventions" = Some iv →
           (insights (self w) !! "economic_impact" = None →
            generate_executive_report now w
            = inl (KeyError "economic_impact")) ∧
           (∀ ei, insights (self w) !! "economic_impact" = Some ei →
              (output_dir w = false →
               generate_executive_report now w = inl FileNotFoundError) ∧
              (output_dir w = true →
               ∃ w', generate_executive_report now w
                     = inr (report_path (workspace_path (self w)), w')))))) ∧
  (∀ uuid4, (generate_visualizations uuid4;; generate_executive_report now) w
            ≠ inl FileNotFoundError).
Proof.
  split_and!.
  - intros H. unfold_methods. step_methods. by rewrite H.
  - intros s Hs. split.
    { intros H. unfold_methods. step_methods. rewrite Hs. step_methods.
      by rewrite H. }
    intros hp Hhp. split.
    { intros H. unfold_methods. step_methods. rewrite Hs. step_methods.
      rewrite Hhp. step_methods. by rewrite H. }
    intros iv Hiv. split.
    { intros H. unfold_methods. step_methods. rewrite Hs. step_methods.
      rewrite Hhp. step_methods. rewrite Hiv. step_methods. by rewrite H. }
    intros ei Hei.
    unfold_methods. step_methods. rewrite Hs. step_methods.
    rewrite Hhp. step_methods. rewrite Hiv. step_methods.
    rewrite Hei. step_methods.
    split; intros ->; step_methods; [done | eauto].
  - intros uuid4. unfold_methods. step_methods.
    destruct (insights (self w) !! "cers_districts") as [[]|]; step_methods; try done.
    destruct (insights (self w) !! "economic_impact") as [ei|] eqn:Hei;
      step_methods; [|done].
    destruct (combined_data (self w)) as [[]|]; step_methods; try done.
    destruct (insights (self w) !! "cers_summary") as [[]|]; step_methods; try done.
    destruct (insights (self w) !! "hidden_pattern") as [hp|]; step_methods; [|done].
    destruct (insights (self w) !! "interventions") as [iv|]; step_methods;
      [|done].
    rewrite Hei. step_methods. done.
Qed.

Lemma generate_executive_report_needs_witness :
  generate_executive_report (mkDate 2026 1 15) sample_scored.2
  = inl (KeyError "hidden_pattern") ∧
  generate_executive_report (mkDate 2026 1 15) (boot "workspace" true)
  = inl (KeyError "cers_summary").
Proof.
  split.
  - destruct (generate_executive_report_needs (mkDate 2026 1 15)
                sample_scored.2) as (_ & H & _).
    eapply H; reflexivity.
  - apply (generate_executive_report_needs (mkDate 2026 1 15)
             (boot "workspace" true)).
    reflexivity.
Defined.

(** ** Sums over the integrated table *)

Lemma Qsum_app (l k : list Q) : Qsum (l ++ k) == Qsum l + Qsum k.
Proof.
  induction l as [|x l IH]; cbn; [by rewrite Qplus_0_l|].
  rewrite IH. apply Qplus_assoc.
Qed.

Lemma Qsum_Permutation (l k : list Q) : l ≡ₚ k → Qsum l == Qsum k.
Proof.
  induction 1 as [|x l k _ IH|x y l|l k m _ IH1 _ IH2]; cbn.
  - reflexivity.
  - by rewrite IH.
  - rewrite !Qplus_assoc. by rewrite (Qplus_comm y x).
  - by rewrite IH1.
Qed.

Lemma Qsum_nonneg (l : list Q) : Forall (λ x, 0 <= x) l → 0 <= Qsum l.
Proof.
  induction 1 as [|x l Hx _ IH]; cbn; [apply Qle_refl|].
  apply (Qle_trans _ (0 + 0)); [done|]. by apply Qplus_le_compat.
Qed.

Lemma Qsum_inject (l : list nat) :
  Qsum ((λ n, inject_Z (Z.of_nat n)) <$> l) == inject_Z (Z.of_nat (sum_list l)).
Proof.
  induction l as [|n l IH]; cbn; [reflexivity|].
  rewrite IH, <- inject_Z_plus. by rewrite Nat2Z.inj_add.
Qed.

Lemma Qsum_omap {A} (f : A → option Q) (l : list A) :
  Qsum ((λ x, default 0 (f x)) <$> l) == Qsum (omap f l).
Proof.
  induction l as [|x l IH]; cbn; [reflexivity|].
  destruct (f x) as [q|]; cbn; rewrite IH; [reflexivity | apply Qplus_0_l].
Qed.

Lemma Qlen_nonneg {A} (l : list A) : 0 <= Qlen l.
Proof. unfold Qlen. apply inject_Z_nonneg. lia. Qed.

Lemma nansum_nonneg (l : list (option Q)) :
  Forall nonneg_cell l → 0 <= nansum l.
Proof.
  intros H. unfold nansum. apply Qsum_nonneg.
  induction H as [|c l Hc _ IH]; cbn; [done|].
  destruct c as [q|]; cbn; [|exact IH]. constructor; [by apply Hc | exact IH].
Qed.

Lemma count_filter {A B} (f : A → option B) (l : list A) :
  length (omap id (f <$> l)) = length (filter (λ x, is_Some (f x)) l).
Proof.
  induction l as [|x l IH]; [done|]. rewrite fmap_cons, filter_cons.
  destruct (f x) as [y|] eqn:E; cbn -[filter].
  - rewrite decide_True by eauto. cbn -[filter]. by rewrite IH.
  - rewrite decide_False by (by intros [? ?]). exact IH.
Qed.

Section GroupSizes.
Context {R K : Type} `{EqDecision K}.
Variable by_ : R → option K.

Lemma indicator_sum_none (ks : list K) (o : option K) :
  o = None →
  sum_list ((λ k, if decide (o = Some k) then 1 else 0)%nat <$> ks) = 0%nat.
Proof.
  intros Ho. induction ks as [|k ks IH]; [done|]. cbn.
  rewrite decide_False by congruence. exact IH.
Qed.

Lemma indicator_sum_absent (ks : list K) (o : option K) (k0 : K) :
  o = Some k0 → k0 ∉ ks →
  sum_list ((λ k, if decide (o = Some k) then 1 else 0)%nat <$> ks) = 0%nat.
Proof.
  intros Ho. induction ks as [|k ks IH]; [done|]. cbn.
  intros [Hne Hk]%not_elem_of_cons.
  rewrite decide_False by congruence. by apply IH.
Qed.

Lemma indicator_sum (ks : list K) (o : option K) (k0 : K) :
  o = Some k0 → NoDup ks → k0 ∈ ks →
  sum_list ((λ k, if decide (o = Some k) then 1 else 0)%nat <$> ks) = 1%nat.
Proof.
  intros Ho. induction 1 as [|k ks Hk Hnd IH]; [by intros ?%elem_of_nil|].
  intros Hin. cbn. destruct (decide (o = Some k)) as [Heq|Hne].
  - assert (k0 = k) as -> by congruence.
    by rewrite (indicator_sum_absent ks o k).
  - apply elem_of_cons in Hin as [->|Hin]; [done|]. by rewrite IH.
Qed.

(** The groups of a grouping partition the rows that have a key. *)
Lemma group_sizes (ks : list K) (df : list R) :
  NoDup ks → (∀ r k, r ∈ df → by_ r = Some k → k ∈ ks) →
  sum_list ((λ k, length (filter (λ r, by_ r = Some k) df)) <$> ks)
  = length (filter (λ r, is_Some (by_ r)) df).
Proof.
  intros Hnd. induction df as [|r df IH]; intros Hks.
  - clear. induction ks as [|k ks IHk]; [done|]. cbn. exact IHk.
  - assert (sum_list ((λ k, length (filter (λ r, by_ r = Some k) (r :: df))) <$> ks)
            = (sum_list ((λ k, if decide (by_ r = Some k) then 1 else 0)%nat <$> ks)
               + sum_list ((λ k, length (filter (λ r, by_ r = Some k) df)) <$> ks))%nat)
      as ->.
    { clear. induction ks as [|k ks IHk]; [done|]. cbn -[filter].
      rewrite filter_cons, IHk. destruct (decide (by_ r = Some k)); cbn; lia. }
    rewrite IH by (intros r' k Hr'; apply Hks; by right).
    rewrite filter_cons. destruct (by_ r) as [k0|] eqn:Hr.
    + rewrite decide_True by eauto. cbn.
      rewrite (indicator_sum ks _ k0); [done | done | done |].
      eapply Hks; [left | done].
    + rewrite decide_False by (by intros [? ?]).
      by rewrite indicator_sum_none.
Qed.

End GroupSizes.

Lemma side_permutation {T} (side : EnrolDemoBio → option T) (key_of : T → Key)
    (agg : list T) (ms : list EnrolDemoBio) :
  NoDup ((λ m : EnrolDemoBio, m.1.1) <$> ms) → NoDup (key_of <$> agg) →
  (∀ m, m ∈ ms →
        match side m with
        | Some a => a ∈ agg ∧ key_of a = m.1.1
        | None => m.1.1 ∉ key_of <$> agg
        end) →
  (∀ a, a ∈ agg → key_of a ∈ (λ m : EnrolDemoBio, m.1.1) <$> ms) →
  omap side ms ≡ₚ agg.
Proof.
  intros Hms Hagg Hside Hcover. apply NoDup_Permutation.
  - clear Hcover. induction ms as [|m ms IH]; [constructor|].
    rewrite fmap_cons, NoDup_cons in Hms. destruct Hms as [Hm Hms].
    cbn. pose proof (Hside m ltac:(left)) as Hsm.
    destruct (side m) as [a|] eqn:Em; cbn.
    + apply NoDup_cons. split.
      * intros (m' & Hm' & Ea)%list_elem_of_omap. apply Hm.
        pose proof (Hside m' ltac:(by right)) as Hsm'. rewrite Ea in Hsm'.
        destruct Hsm as [_ Hk], Hsm' as [_ Hk'].
        apply list_elem_of_fmap. exists m'. split; [congruence|done].
      * apply IH; [done|]. intros m' Hm'. apply Hside. by right.
    + apply IH; [done|]. intros m' Hm'. apply Hside. by right.
  - by apply NoDup_fmap_1 in Hagg.
  - intros a. rewrite list_elem_of_omap. split.
    + intros (m & Hm & Ea). specialize (Hside m Hm). rewrite Ea in Hside. tauto.
    + intros Ha. specialize (Hcover a Ha).
      apply list_elem_of_fmap in Hcover as (m & Hk & Hm).
      exists m. split; [done|]. specialize (Hside m Hm).
      destruct (side m) as [a'|].
      * destruct Hside as [Ha' Hk']. f_equal.
        apply (NoDup_fmap_eq key_of agg a' a Hagg Ha' Ha). congruence.
      * destruct Hside. rewrite <- Hk. apply list_elem_of_fmap. by exists a.
Qed.

Lemma group_count {R} (by_ : R → option Key) (pin : R → option string)
    (df : list R) :
  Qsum ((λ k, count (pin <$> get_group by_ df k)) <$> group_keys key_le by_ df)
  == Qlen (filter (λ r, is_Some (by_ r) ∧ is_Some (pin r)) df).
Proof.
  unfold count, Qlen.
  transitivity
    (Qsum ((λ n, inject_Z (Z.of_nat n))
             <$> ((λ k, length (filter (λ r, by_ r = Some k)
                                  (filter (λ r, is_Some (pin r)) df)))
                    <$> group_keys key_le by_ df))).
  { rewrite <- list_fmap_compose.
    assert (∀ k, (λ k, inject_Z (Z.of_nat (length (omap id (pin <$> get_group by_ df k))))) k
                 = ((λ n, inject_Z (Z.of_nat n))
                    ∘ (λ k, length (filter (λ r, by_ r = Some k)
                                      (filter (λ r, is_Some (pin r)) df)))) k)
      as Hext.
    { intros k. cbn. do 3 f_equal. rewrite count_filter. unfold get_group.
      f_equal. rewrite !list_filter_filter.
      apply list_filter_iff. tauto. }
    erewrite (list_fmap_ext _ _ _ (λ _ k _, Hext k)). reflexivity. }
  rewrite Qsum_inject, group_sizes.
  - do 3 f_equal. rewrite list_filter_filter. reflexivity.
  - apply NoDup_group_keys.
  - intros r k [_ Hr]%list_elem_of_filter Hk.
    apply elem_of_group_keys. eauto.
Qed.

Lemma side_sum {T} (side : EnrolDemoBio → option T) (key_of : T → Key)
    (val : T → Q) (agg : list T) (ms : list EnrolDemoBio) :
  NoDup ((λ m : EnrolDemoBio, m.1.1) <$> ms) → NoDup (key_of <$> agg) →
  (∀ m, m ∈ ms →
        match side m with
        | Some a => a ∈ agg ∧ key_of a = m.1.1
        | None => m.1.1 ∉ key_of <$> agg
        end) →
  (∀ a, a ∈ agg → key_of a ∈ (λ m : EnrolDemoBio, m.1.1) <$> ms) →
  Qsum ((λ m, default 0 (val <$> side m)) <$> ms) == Qsum (val <$> agg).
Proof.
  intros Hms Hagg Hside Hcover.
  rewrite (Qsum_omap (λ m, val <$> side m)).
  assert (omap (λ m, val <$> side m) ms = val <$> omap side ms) as ->.
  { clear. induction ms as [|m ms IH]; cbn; [done|].
    destruct (side m); cbn; congruence. }
  apply Qsum_Permutation, fmap_Permutation.
  by apply side_permutation with key_of.
Qed.

Lemma NoDup_enrol_agg (e : list EnrolmentRow) : NoDup (ea_key <$> enrol_agg e).
Proof. rewrite enrol_agg_keys. apply NoDup_group_keys. Qed.

Lemma NoDup_demo_agg (d : list DemographicRow) : NoDup (da_key <$> demo_agg d).
Proof. rewrite demo_agg_keys. apply NoDup_group_keys. Qed.

Lemma NoDup_bio_agg (b : list BiometricRow) : NoDup (ba_key <$> bio_agg b).
Proof. rewrite bio_agg_keys. apply NoDup_group_keys. Qed.

Section Conservation.
Variables (e : list EnrolmentRow) (d : list DemographicRow)
  (b : list BiometricRow).

Lemma combined_enrol_count :
  Qsum (enrol_count <$> combined e d b)
  == Qlen (filter (λ r, is_Some (enr_key r) ∧ is_Some (enr_pincode r)) e).
Proof.
  unfold combined. rewrite <- !list_fmap_compose.
  etransitivity;
    [apply (side_sum enrol_side ea_key ea_enrol_count (enrol_agg e))|].
  - apply merged_NoDup;
      auto using NoDup_enrol_agg, NoDup_demo_agg, NoDup_bio_agg.
  - auto using NoDup_enrol_agg, NoDup_demo_agg, NoDup_bio_agg.
  - intros m Hm. apply (merged_enrol_side _ (demo_agg d) (bio_agg b));
      auto using NoDup_demo_agg.
  - intros a Ha. apply (merged_key_union (enrol_agg e) (demo_agg d) (bio_agg b));
      [auto using NoDup_demo_agg, NoDup_bio_agg..|].
    left. by apply list_elem_of_fmap_2.
  - unfold enrol_agg, groupby. rewrite <- !list_fmap_compose.
    apply (group_count enr_key enr_pincode).
Qed.

Lemma combined_demo_count :
  Qsum (demo_count <$> combined e d b)
  == Qlen (filter (λ r, is_Some (dem_key r) ∧ is_Some (dem_pincode r)) d).
Proof.
  unfold combined. rewrite <- !list_fmap_compose.
  etransitivity;
    [apply (side_sum demo_side da_key da_demo_count (demo_agg d))|].
  - apply merged_NoDup;
      auto using NoDup_enrol_agg, NoDup_demo_agg, NoDup_bio_agg.
  - auto using NoDup_enrol_agg, NoDup_demo_agg, NoDup_bio_agg.
  - intros m Hm. apply (merged_demo_side (enrol_agg e) _ (bio_agg b));
      auto using NoDup_demo_agg.
  - intros a Ha. apply (merged_key_union (enrol_agg e) (demo_agg d) (bio_agg b));
      [auto using NoDup_demo_agg, NoDup_bio_agg..|].
    right; left. by apply list_elem_of_fmap_2.
  - unfold demo_agg, groupby. rewrite <- !list_fmap_compose.
    apply (group_count dem_key dem_pincode).
Qed.

Lemma combined_bio_count :
  Qsum (bio_count <$> combined e d b)
  == Qlen (filter (λ r, is_Some (bio_key r) ∧ is_Some (bio_pincode r)) b).
Proof.
  unfold combined. rewrite <- !list_fmap_compose.
  etransitivity;
    [apply (side_sum bio_side ba_key ba_bio_count (bio_agg b))|].
  - apply merged_NoDup;
      auto using NoDup_enrol_agg, NoDup_demo_agg, NoDup_bio_agg.
  - auto using NoDup_enrol_agg, NoDup_demo_agg, NoDup_bio_agg.
  - intros m Hm. by apply (merged_bio_side (enrol_agg e) (demo_agg d)).
  - intros a Ha. apply (merged_key_union (enrol_agg e) (demo_agg d) (bio_agg b));
      [auto using NoDup_demo_agg, NoDup_bio_agg..|].
    right; right. by apply list_elem_of_fmap_2.
  - unfold bio_agg, groupby. rewrite <- !list_fmap_compose.
    apply (group_count bio_key bio_pincode).
Qed.

End Conservation.

(** X10: [create_integrated_dataset] loses and invents no record: over the
    rows it stores, the column [enrol_count] adds up to the number of
    enrolment records that have a date, a state, a district and a pincode,
    and likewise [demo_count] and [bio_count] for the other two tables. *)
Theorem create_integrated_dataset_conserves (w w' : World) :
  create_integrated_dataset w = inr ((), w') →
  ∃ e d b rows,
    enrolment_data (self w) = Some e ∧
    demographic_data (self w) = Some d ∧
    biometric_data (self w) = Some b ∧
    combined_data (self w') = Some (Features rows) ∧
    Qsum ((λ r, enrol_count (base r)) <$> rows)
    == Qlen (filter (λ x, is_Some (enr_key x) ∧ is_Some (enr_pincode x)) e) ∧
    Qsum ((λ r, demo_count (base r)) <$> rows)
    == Qlen (filter (λ x, is_Some (dem_key x) ∧ is_Some (dem_pincode x)) d) ∧
    Qsum ((λ r, bio_count (base r)) <$> rows)
    == Qlen (filter (λ x, is_Some (bio_key x) ∧ is_Some (bio_pincode x)) b).
Proof.
  intros (e & d & b & rows & He & Hd & Hb & Hrows & Hw')%create_integrated_dataset_inv.
  exists e, d, b, rows. split_and!; try done.
  - rewrite (list_fmap_compose base enrol_count), (engineer_base _ _ Hrows).
    apply combined_enrol_count.
  - rewrite (list_fmap_compose base demo_count), (engineer_base _ _ Hrows).
    apply combined_demo_count.
  - rewrite (list_fmap_compose base bio_count), (engineer_base _ _ Hrows).
    apply combined_bio_count.
Qed.

Lemma create_integrated_dataset_conserves_witness :
  ∃ w' rows,
    create_integrated_dataset sample_loaded = inr ((), w') ∧
    combined_data (self w') = Some (Features rows) ∧
    Qsum ((λ r, enrol_count (base r)) <$> rows) == 4 ∧
    Qsum ((λ r, demo_count (base r)) <$> rows) == 2 ∧
    Qsum ((λ r, bio_count (base r)) <$> rows) == 4.
Proof.
  destruct (create_integrated_dataset sample_loaded) as [ex|[[] w']] eqn:E;
    [vm_compute in E; discriminate E|].
  destruct (create_integrated_dataset_conserves _ _ E)
    as (e & d & b & rows & He & Hd & Hb & Hw' & H1 & H2 & H3).
  exists w', rows. split; [reflexivity|]. split; [exact Hw'|].
  injection He as <-. injection Hd as <-. injection Hb as <-.
  rewrite H1, H2, H3. split_and!; vm_compute; reflexivity.
Defined.

(** ** Ranges of the engineered columns *)

Lemma rate_nonneg (x y : Q) :
  0 <= x → 0 <= (if Qlt_bool 0 y then x / y * 100 else 100).
Proof.
  intros Hx. destruct (Qlt_bool 0 y) eqn:E; [|done].
  apply Qlt_bool_iff in E.
  apply Qmult_le_0_compat; [|done].
  apply Qle_shift_div_l; [done|]. by rewrite Qmult_0_l.
Qed.

Lemma share_bounds (x t : Q) :
  0 <= x → x <= t →
  0 <= (if Qlt_bool 0 t then x / t else 0) ∧
  (if Qlt_bool 0 t then x / t else 0) <= 1.
Proof.
  intros Hx Ht. destruct (Qlt_bool 0 t) eqn:E; [|done].
  apply Qlt_bool_iff in E. split.
  - apply Qle_shift_div_l; [done|]. by rewrite Qmult_0_l.
  - apply Qle_shift_div_r; [done|]. by rewrite Qmult_1_l.
Qed.

Lemma nansum_group_nonneg {R} (by_ : R → option Key) (col : R → option Q)
    (df : list R) (k : Key) :
  Forall (λ r, nonneg_cell (col r)) df →
  0 <= nansum (col <$> get_group by_ df k).
Proof.
  intros H. apply nansum_nonneg, Forall_fmap, Forall_forall.
  intros r [_ Hr]%list_elem_of_filter.
  by apply (proj1 (Forall_forall _ _) H).
Qed.

Lemma enrol_agg_nonneg (e : list EnrolmentRow) (a : EnrolAgg) :
  a ∈ enrol_agg e →
  0 <= ea_enrol_count a ∧
  (Forall (λ r, nonneg_cell (enr_age_0_5 r) ∧ nonneg_cell (enr_age_5_17 r)
                ∧ nonneg_cell (enr_age_18_greater r)) e →
   0 <= ea_age_0_5 a ∧ 0 <= ea_age_5_17 a ∧ 0 <= ea_age_18_greater a).
Proof.
  unfold enrol_agg, groupby. rewrite <- list_fmap_compose.
  intros (k & -> & _)%list_elem_of_fmap. cbn. split; [apply Qlen_nonneg|].
  intros H. split_and!; apply nansum_group_nonneg;
    (eapply Forall_impl; [exact H|]); cbn; intros r Hr; tauto.
Qed.

Lemma demo_agg_nonneg (d : list DemographicRow) (a : DemoAgg) :
  a ∈ demo_agg d →
  0 <= da_demo_count a ∧
  (Forall (λ r, nonneg_cell (dem_demo_age_5_17 r)
                ∧ nonneg_cell (dem_demo_age_17_ r)) d →
   0 <= da_demo_age_5_17 a ∧ 0 <= da_demo_age_17_ a).
Proof.
  unfold demo_agg, groupby. rewrite <- list_fmap_compose.
  intros (k & -> & _)%list_elem_of_fmap. cbn. split; [apply Qlen_nonneg|].
  intros H. split_and!; apply nansum_group_nonneg;
    (eapply Forall_impl; [exact H|]); cbn; intros r Hr; tauto.
Qed.

Lemma bio_agg_nonneg (b : list BiometricRow) (a : BioAgg) :
  a ∈ bio_agg b →
  0 <= ba_bio_count a ∧
  (Forall (λ r, nonneg_cell (bio_bio_age_5_17 r)
                ∧ nonneg_cell (bio_bio_age_17_ r)) b →
   0 <= ba_bio_age_5_17 a ∧ 0 <= ba_bio_age_17_ a).
Proof.
  unfold bio_agg, groupby. rewrite <- list_fmap_compose.
  intros (k & -> & _)%list_elem_of_fmap. cbn. split; [apply Qlen_nonneg|].
  intros H. split_and!; apply nansum_group_nonneg;
    (eapply Forall_impl; [exact H|]); cbn; intros r Hr; tauto.
Qed.

(** No cell of the merged table is negative when no age cell of the inputs
    is; the three counts never are. *)
Lemma combined_nonneg e d b (c : Combined Q) :
  c ∈ combined e d b →
  (0 <= enrol_count c ∧ 0 <= demo_count c ∧ 0 <= bio_count c) ∧
  (nonneg_ages e d b →
   0 <= age_0_5 c ∧ 0 <= age_5_17 c ∧ 0 <= age_18_greater c ∧
   0 <= demo_age_5_17 c ∧ 0 <= demo_age_17_ c ∧
   0 <= bio_age_5_17 c ∧ 0 <= bio_age_17_ c).
Proof.
  unfold combined. rewrite <- list_fmap_compose.
  intros (m & -> & Hm)%list_elem_of_fmap.
  pose proof (merged_enrol_side _ _ _ (NoDup_demo_agg d) m Hm) as Se.
  pose proof (merged_demo_side _ _ _ (NoDup_demo_agg d) m Hm) as Sd.
  pose proof (merged_bio_side _ _ _ m Hm) as Sb.
  cbn.
  destruct (enrol_side m) as [a1|]; cbn;
    [destruct Se as [[Ce Ae]%enrol_agg_nonneg _]|];
  (destruct (demo_side m) as [a2|]; cbn;
    [destruct Sd as [[Cd Ad]%demo_agg_nonneg _]|]);
  (destruct (bio_side m) as [a3|]; cbn;
    [destruct Sb as [[Cb Ab]%bio_agg_nonneg _]|]);
  (split; [split_and!; done|]); intros (He & Hd & Hb);
  repeat match goal with
         | H : Forall _ ?l → _, H' : Forall _ ?l |- _ => specialize (H H')
         end;
  split_and!; try done; tauto.
Qed.

(** X11: on every row that [create_integrated_dataset] stores, the three
    record counts are never negative, and neither are the two completion
    rates. *)
Theorem engineered_ranges (w w' : World) :
  create_integrated_dataset w = inr ((), w') →
  ∃ rows,
    combined_data (self w') = Some (Features rows) ∧
    ∀ r, r ∈ rows →
      0 <= enrol_count (base r) ∧ 0 <= demo_count (base r) ∧
      0 <= bio_count (base r) ∧
      0 <= demo_completion_rate r ∧ 0 <= bio_completion_rate r.
Proof.
  intros (e & d & b & rows & He & Hd & Hb & Hrows & Hw')%create_integrated_dataset_inv.
  exists rows. split; [done|].
  intros r Hr. destruct (engineer_elem _ _ _ Hrows Hr) as [Hc Er].
  rewrite engineer_row_Some in Er. injection Er as Er.
  apply combined_nonneg in Hc as [(Ce & Cd & Cb) _].
  split; [exact Ce|]. split; [exact Cd|]. split; [exact Cb|].
  rewrite <- Er. cbn. split; by apply rate_nonneg.
Qed.

Lemma engineered_ranges_witness :
  ∃ w' rows,
    create_integrated_dataset sample_loaded = inr ((), w') ∧
    combined_data (self w') = Some (Features rows) ∧
    ∀ r, r ∈ rows →
      0 <= demo_completion_rate r ∧ 0 <= bio_completion_rate r.
Proof.
  destruct (create_integrated_dataset sample_loaded) as [ex|[[] w']] eqn:E;
    [vm_compute in E; discriminate E|].
  destruct (engineered_ranges _ _ E) as (rows & Hw' & H).
  exists w', rows. split; [reflexivity|]. split; [exact Hw'|].
  intros r Hr. by destruct (H r Hr) as (_ & _ & _ & H1 & H2).
Defined.

(** X19: when no age cell of the three loaded tables is negative and the
    age cells of each table add up to less than 2^63, so that no [int64]
    sum of them wraps, then on every row that [create_integrated_dataset]
    stores the three totals are not negative and each of the three youth
    ratios lies between 0 and 1. *)
Theorem youth_ratios_bounded (w w' : World) (e : list EnrolmentRow)
    (d : list DemographicRow) (b : list BiometricRow) :
  enrolment_data (self w) = Some e →
  demographic_data (self w) = Some d →
  biometric_data (self w) = Some b →
  nonneg_ages e d b → within_int64 e d b →
  create_integrated_dataset w = inr ((), w') →
  ∃ rows,
    combined_data (self w') = Some (Features rows) ∧
    ∀ r, r ∈ rows →
      0 <= total_enrol r ∧ 0 <= total_demo r ∧ 0 <= total_bio r ∧
      (0 <= youth_ratio_enrol r ∧ youth_ratio_enrol r <= 1) ∧
      (0 <= youth_ratio_demo r ∧ youth_ratio_demo r <= 1) ∧
      (0 <= youth_ratio_bio r ∧ youth_ratio_bio r <= 1).
Proof.
  intros He Hd Hb Hnonneg _
    (e' & d' & b' & rows & He' & Hd' & Hb' & Hrows & Hw')%create_integrated_dataset_inv.
  rewrite He in He'. rewrite Hd in Hd'. rewrite Hb in Hb'.
  injection He' as <-. injection Hd' as <-. injection Hb' as <-.
  exists rows. split; [done|].
  intros r Hr. destruct (engineer_elem _ _ _ Hrows Hr) as [Hc Er].
  rewrite engineer_row_Some in Er. injection Er as Er.
  apply combined_nonneg in Hc as [_ Hages].
  destruct (Hages Hnonneg) as (A1 & A2 & A3 & A4 & A5 & A6 & A7).
  rewrite <- Er. cbn.
  split_and!; try lra; apply share_bounds; try done; lra.
Qed.

Lemma youth_ratios_bounded_witness :
  ∃ w' rows,
    create_integrated_dataset sample_loaded = inr ((), w') ∧
    combined_data (self w') = Some (Features rows) ∧
    ∀ r, r ∈ rows →
      (0 <= youth_ratio_enrol r ∧ youth_ratio_enrol r <= 1) ∧
      (0 <= youth_ratio_demo r ∧ youth_ratio_demo r <= 1) ∧
      (0 <= youth_ratio_bio r ∧ youth_ratio_bio r <= 1).
Proof.
  destruct (create_integrated_dataset sample_loaded) as [ex|[[] w']] eqn:E;
    [vm_compute in E; discriminate E|].
  destruct (enrolment_data (self sample_loaded)) as [e|] eqn:He;
    [|discriminate He].
  destruct (demographic_data (self sample_loaded)) as [d|] eqn:Hd;
    [|discriminate Hd].
  destruct (biometric_data (self sample_loaded)) as [b|] eqn:Hb;
    [|discriminate Hb].
  assert (nonneg_ages e d b) as Hnonneg.
  { injection He as <-. injection Hd as <-. injection Hb as <-.
    unfold nonneg_ages, nonneg_cell.
    split_and!; repeat constructor; intros q [= <-]; vm_compute; discriminate. }
  assert (within_int64 e d b) as Hwithin.
  { injection He as <-. injection Hd as <-. injection Hb as <-.
    split_and!; vm_compute; reflexivity. }
  destruct (youth_ratios_bounded _ _ e d b He Hd Hb Hnonneg Hwithin E)
    as (rows & Hw' & H).
  exists w', rows. split; [reflexivity|]. split; [exact Hw'|].
  intros r Hr. by destruct (H r Hr) as (_ & _ & _ & H1 & H2 & H3).
Defined.

(** ** The interventions *)

Lemma int__floor (x : Q) : 0 <= x → int_ x = Qfloor x.
Proof.
  intros Hx. unfold int_. destruct x as [n d]. cbn.
  apply Z.quot_div_nonneg; [|lia]. unfold Qle in Hx. cbn in Hx. lia.
Qed.

Lemma Qsum_ge (c : Q) (l : list Q) :
  Forall (λ x, c <= x) l → c * Qlen l <= Qsum l.
Proof.
  unfold Qlen. induction 1 as [|x l Hx _ IH].
  - cbn. rewrite Qmult_0_r. apply Qle_refl.
  - change (Qsum (x :: l)) with (x + Qsum l).
    change (length (x :: l)) with (S (length l)).
    rewrite Nat2Z.inj_succ, <- Z.add_1_r, inject_Z_plus.
    change (inject_Z 1) with 1. revert IH.
    generalize (inject_Z (Z.of_nat (length l))), (Qsum l). intros n s IH. lra.
Qed.

Lemma latest_day_max (df : list Engineered) (m : Z) :
  latest_day df = Some m →
  (∀ r, r ∈ df → (days_from_civil (date (base r)) ≤ m)%Z) ∧
  (∃ r, r ∈ df ∧ days_from_civil (date (base r)) = m).
Proof.
  destruct df as [|r0 df]; [done|]. cbn. intros [= <-].
  induction df as [|x df [IH1 (r & Hr & IH2)]]; cbn.
  - split; [|exists r0; split; [left|done]].
    intros r ->%list_elem_of_singleton. lia.
  - split.
    + intros r' [->|[->|Hr']%elem_of_cons]%elem_of_cons.
      * pose proof (IH1 r0 ltac:(left)). lia.
      * lia.
      * pose proof (IH1 r' ltac:(by right)). lia.
    + destruct (Z.max_spec_le (days_from_civil (date (base x)))
                  (foldr (λ x m, Z.max (days_from_civil (date (base x))) m)
                     (days_from_civil (date (base r0))) df)) as [[_ E]|[_ E]];
        rewrite E.
      * exists r. split; [|done].
        apply elem_of_cons in Hr as [->|Hr]; [left|right; by right].
      * exists x. split; [right; left|done].
Qed.

Lemma elem_of_recent_data (df : list Engineered) (r : Engineered) :
  r ∈ recent_data df ↔
  r ∈ df ∧ ∃ m, latest_day df = Some m ∧
                (m - 90 ≤ days_from_civil (date (base r)))%Z.
Proof.
  unfold recent_data. destruct (latest_day df) as [m|].
  - rewrite list_elem_of_filter. split.
    + intros [H1 H2]. eauto.
    + intros [H1 (m' & [= <-] & H2)]. done.
  - split; [by intros ?%elem_of_nil | by intros [_ (m & ? & _)]].
Qed.

Lemma elem_of_alert_candidates (df : list Engineered) (a : AlertCandidate) :
  a ∈ alert_candidates df →
  alert_bio_completion_rate a < 80 ∧ 50 < alert_enrol_count a ∧
  ∃ r, r ∈ recent_data df ∧ key_state (base r) = alert_state a
       ∧ key_district (base r) = alert_district a.
Proof.
  unfold alert_candidates, groupby. rewrite <- list_fmap_compose.
  intros [(k & -> & Hk)%list_elem_of_fmap Hf]%List_filter_elem.
  apply andb_prop in Hf as [H1%Qlt_bool_iff H2%Qlt_bool_iff].
  split; [exact H1|]. split; [exact H2|].
  apply elem_of_group_keys in Hk as (r & Hr & Ek).
  exists r. split; [exact Hr|]. injection Ek as <-. done.
Qed.

(** X12: in the proactive alert plan of [propose_intervention_framework],
    every target district has a record dated within the 90 days before the
    latest date of the data, a mean biometric completion rate under 80 and
    more than 50 enrolment records over these days; the plan estimates at
    least 15 beneficiaries per target district; and the campaign cost is
    the price of one SMS per estimated beneficiary, up to the fraction of
    a beneficiary that [int] drops. *)
Theorem proactive_alerts_recent (df : list Engineered) :
  (∀ a, a ∈ alert_candidates df →
     alert_bio_completion_rate a < 80 ∧ 50 < alert_enrol_count a ∧
     ∃ r m, r ∈ df ∧ latest_day df = Some m ∧
            key_state (base r) = alert_state a ∧
            key_district (base r) = alert_district a ∧
            (m - 90 ≤ days_from_civil (date (base r)) ≤ m)%Z) ∧
  (15 * Z.of_nat (alert_target_districts (proactive_alerts df))
   ≤ estimated_beneficiaries (proactive_alerts df))%Z ∧
  inject_Z (estimated_beneficiaries (proactive_alerts df))
  * cost_per_sms (proactive_alerts df)
  <= total_campaign_cost (proactive_alerts df) ∧
  total_campaign_cost (proactive_alerts df)
  < (inject_Z (estimated_beneficiaries (proactive_alerts df)) + 1)
    * cost_per_sms (proactive_alerts df).
Proof.
  split.
  { intros a (Hb & He & r & Hr & Hs & Hd)%elem_of_alert_candidates.
    split; [exact Hb|]. split; [exact He|].
    apply elem_of_recent_data in Hr as (Hr & m & Hm & Hlo).
    exists r, m. split_and!; try done.
    by apply (proj1 (latest_day_max df m Hm)). }
  unfold proactive_alerts. cbn.
  set (enrol := Qsum (alert_enrol_count <$> alert_candidates df)).
  assert (50 * Qlen (alert_candidates df) <= enrol) as Hsum.
  { unfold enrol, Qlen. rewrite <- (length_fmap alert_enrol_count).
    apply Qsum_ge, Forall_fmap, Forall_forall.
    intros a (_ & He & _)%elem_of_alert_candidates. by apply Qlt_le_weak. }
  pose proof (Qlen_nonneg (alert_candidates df)) as Hn.
  assert (0 <= enrol * 0.3) as Hx.
  { change 0.3 with (3 # 10). lra. }
  rewrite (int__floor _ Hx).
  pose proof (Qfloor_le (enrol * 0.3)) as Hlo.
  pose proof (Qlt_floor (enrol * 0.3)) as Hhi.
  rewrite inject_Z_plus in Hhi. change (inject_Z 1) with 1 in Hhi.
  split_and!.
  - rewrite <- (Qfloor_Z (15 * Z.of_nat (length (alert_candidates df)))).
    apply Qfloor_resp_le. rewrite inject_Z_mult.
    change (inject_Z 15) with 15. unfold Qlen in Hsum.
    revert Hsum. generalize (inject_Z (Z.of_nat (length (alert_candidates df)))).
    intros n Hsum. change 0.3 with (3 # 10). lra.
  - revert Hlo. generalize (inject_Z (Qfloor (enrol * 0.3))). intros f Hlo.
    change 0.10 with (10 # 100). lra.
  - revert Hhi. generalize (inject_Z (Qfloor (enrol * 0.3))). intros f Hhi.
    change 0.10 with (10 # 100). lra.
Qed.

Lemma proactive_alerts_recent_witness :
  (∃ a, a ∈ alert_candidates busy_rows ∧
        alert_state a = "Goa" ∧ alert_district a = "North Goa" ∧
        alert_bio_completion_rate a < 80 ∧ 50 < alert_enrol_count a) ∧
  estimated_beneficiaries (proactive_alerts busy_rows) = 18%Z ∧
  total_campaign_cost (proactive_alerts busy_rows) == 18 * (1 # 10).
Proof.
  split.
  - assert (∃ a, alert_candidates busy_rows = [a] ∧ alert_state a = "Goa"
                 ∧ alert_district a = "North Goa") as (a & Ea & Hs & Hd).
    { eexists. split; [vm_compute; reflexivity|]. split; reflexivity. }
    exists a. assert (a ∈ alert_candidates busy_rows) as Ha.
    { rewrite Ea. left. }
    destruct (proj1 (proactive_alerts_recent busy_rows) a Ha) as (H1 & H2 & _).
    split_and!; done.
  - split; vm_compute; reflexivity.
Defined.

Global Instance avg_risk_descending_total : Total avg_risk_descending.
Proof.
  intros a b. unfold avg_risk_descending. rewrite !Qle_bool_iff.
  destruct (Qlt_le_dec (avg_risk_score a) (avg_risk_score b)) as [Hlt|Hle];
    [right | left].
  - by apply Qlt_le_weak.
  - exact Hle.
Qed.

Global Instance avg_risk_descending_trans : Transitive avg_risk_descending.
Proof.
  intros a b c. unfold avg_risk_descending. rewrite !Qle_bool_iff.
  intros Hab Hbc. eapply Qle_trans; eassumption.
Qed.

Global Instance avg_risk_descending_refl : Reflexive avg_risk_descending.
Proof. intros a. unfold avg_risk_descending. apply Qle_bool_iff, Qle_refl. Qed.

Lemma StronglySorted_take {X} (R : relation X) (n : nat) (l : list X) :
  StronglySorted R l → StronglySorted R (take n l).
Proof.
  intros H. revert n. induction H as [|x l _ IH Hx]; intros [|n]; cbn;
    try constructor.
  - apply IH.
  - apply Forall_take, Hx.
Qed.

Lemma sum_list_with_take {X} (f : X → nat) (n : nat) (l : list X) :
  (sum_list_with f (take n l) ≤ sum_list_with f l)%nat.
Proof.
  rewrite <- (take_drop n l) at 2. rewrite sum_list_with_app. lia.
Qed.

Lemma omap_Some {X Y} (f : X → Y) (l : list X) :
  omap (λ x, Some (f x)) l = f <$> l.
Proof. induction l as [|x l IH]; cbn; [done|]. by rewrite IH. Qed.

Lemma elem_of_priority_districts (t : list DistrictRisk) (r : DistrictRisk) :
  r ∈ priority_districts t ↔
  r ∈ t ∧ (risk_category r = Some Critical ∨ risk_category r = Some High).
Proof.
  unfold priority_districts.
  rewrite elem_of_app, !list_elem_of_filter. tauto.
Qed.

(** The routes before sorting: one per state of a priority district. *)
Lemma routes_by_state_Permutation (p : list DistrictRisk) :
  routes_by_state p ≡ₚ
  (λ k, {| route_state := k;
           route_priority_districts :=
             (λ r, district (stats r))
               <$> get_group (λ r, Some (state (stats r))) p k;
           avg_risk_score :=
             mean (CERS <$> get_group (λ r, Some (state (stats r))) p k);
           affected_population :=
             Qsum ((λ r, total_enrolments (stats r))
                     <$> get_group (λ r, Some (state (stats r))) p k) |})
    <$> group_keys string_le (λ r, Some (state (stats r))) p.
Proof.
  unfold routes_by_state, groupby. rewrite merge_sort_Permutation.
  by rewrite <- list_fmap_compose.
Qed.

Lemma routes_by_state_cover (p : list DistrictRisk) :
  sum_list_with (λ ro, length (route_priority_districts ro)) (routes_by_state p)
  = length p.
Proof.
  rewrite routes_by_state_Permutation.
  transitivity
    (sum_list ((λ k, length (filter (λ r, Some (state (stats r)) = Some k) p))
                 <$> group_keys string_le (λ r, Some (state (stats r))) p)).
  - generalize (group_keys string_le (λ r : DistrictRisk, Some (state (stats r))) p).
    intros ks. induction ks as [|k ks IH]; [done|].
    cbn -[filter]. rewrite length_fmap. unfold get_group at 1.
    f_equal. exact IH.
  - rewrite group_sizes.
    + f_equal. clear. induction p as [|r p IH]; [done|].
      rewrite filter_cons_True by eauto. by rewrite IH.
    + apply NoDup_group_keys.
    + intros r k Hr Hk. apply elem_of_group_keys. eauto.
Qed.

Lemma routes_by_state_length (p : list DistrictRisk) :
  length (routes_by_state p)
  = length (remove_dups ((λ r, state (stats r)) <$> p)).
Proof.
  rewrite routes_by_state_Permutation, length_fmap.
  unfold group_keys. rewrite merge_sort_Permutation.
  by rewrite (omap_Some (λ r, state (stats r))).
Qed.

(** X13: the mobile van plan lists at most 10 routes, one per state, in
    descending order of average risk; every district on a route is a
    Critical or High district of that state; the routes never list more
    districts than [total_districts_to_cover], and they list exactly that
    many when the priority districts lie in at most 10 states. *)
Theorem mobile_van_routes (t : list DistrictRisk) :
  (length (priority_states (mobile_van_optimizer t)) ≤ 10)%nat ∧
  (∀ i j a b, (i ≤ j)%nat →
     priority_states (mobile_van_optimizer t) !! i = Some a →
     priority_states (mobile_van_optimizer t) !! j = Some b →
     avg_risk_score b <= avg_risk_score a) ∧
  (∀ ro d, ro ∈ priority_states (mobile_van_optimizer t) →
     d ∈ route_priority_districts ro →
     ∃ r, r ∈ t ∧ state (stats r) = route_state ro ∧ district (stats r) = d ∧
          (risk_category r = Some Critical ∨ risk_category r = Some High)) ∧
  (sum_list_with (λ ro, length (route_priority_districts ro))
     (priority_states (mobile_van_optimizer t))
   ≤ total_districts_to_cover (mobile_van_optimizer t))%nat ∧
  ((length (remove_dups ((λ r, state (stats r)) <$> priority_districts t))
    ≤ 10)%nat →
   sum_list_with (λ ro, length (route_priority_districts ro))
     (priority_states (mobile_van_optimizer t))
   = total_districts_to_cover (mobile_van_optimizer t)).
Proof.
  unfold mobile_van_optimizer. cbn -[take].
  set (p := priority_districts t). split_and!.
  - rewrite length_take. lia.
  - intros i j a b Hij Ha Hb. apply Qle_bool_iff.
    apply (StronglySorted_lookup_le avg_risk_descending
             (take 10 (routes_by_state p)) i j a b); [|done..].
    apply StronglySorted_take.
    unfold routes_by_state. apply (StronglySorted_merge_sort _).
  - intros ro d Hro Hd.
    apply (subseteq_take 10) in Hro.
    rewrite routes_by_state_Permutation in Hro.
    apply list_elem_of_fmap in Hro as (k & -> & _). cbn in Hd.
    apply list_elem_of_fmap in Hd as (r & -> & Hr).
    apply elem_of_get_group in Hr as [Hr [= <-]].
    apply elem_of_priority_districts in Hr as [Hr Hcat].
    exists r. done.
  - rewrite <- (routes_by_state_cover p). apply sum_list_with_take.
  - intros Hstates. rewrite <- routes_by_state_length in Hstates.
    rewrite take_ge by done. apply routes_by_state_cover.
Qed.

Lemma mobile_van_routes_witness :
  sum_list_with (λ ro, length (route_priority_districts ro))
    (priority_states (mobile_van_optimizer sample_scored.1))
  = total_districts_to_cover (mobile_van_optimizer sample_scored.1) ∧
  total_districts_to_cover (mobile_van_optimizer sample_scored.1) = 1%nat.
Proof.
  split; [|vm_compute; reflexivity].
  apply (mobile_van_routes sample_scored.1).
  vm_compute. lia.
Defined.

(** ** What each method needs *)

Ltac unfold_steps :=
  unfold create_integrated_dataset, _engineer_features,
    discover_hidden_pattern, calculate_exclusion_risk_score,
    propose_intervention_framework, quantify_economic_impact,
    generate_visualizations, cers_districts, cers_summary, features,
    attribute, insight, insight_get, set_insight, set_combined_data,
    write_file, makedirs, emit, get_self, put_self, raise;
  unfold mbind, M_bind, mret, M_ret.

Ltac step_steps :=
  cbn -[engineer combined district_risk risk_summary seasonal insert lookup
        List.filter].

(** X14: a method called before the method that prepares its input
    raises at its first access.  [create_integrated_dataset] raises on
    [enrolment_data] while it is still [None]; [discover_hidden_pattern],
    [calculate_exclusion_risk_score] and, given a district table,
    [propose_intervention_framework] raise on [combined_data] while it is
    still [None]; [generate_visualizations] raises the [KeyError] of
    ['cers_districts'] while no district table is stored. *)
Theorem methods_need_predecessors (fsqrt : Q → Q) (uuid4 : nat → UUID)
    (w : World) :
  (enrolment_data (self w) = None →
   create_integrated_dataset w = inl (NoneTypeError f_enrolment_data)) ∧
  (combined_data (self w) = None →
   discover_hidden_pattern w = inl (NoneTypeError f_combined_data) ∧
   calculate_exclusion_risk_score fsqrt w = inl (NoneTypeError f_combined_data) ∧
   ∀ t, propose_intervention_framework t w
        = inl (NoneTypeError f_combined_data)) ∧
  (insights (self w) !! "cers_districts" = None →
   generate_visualizations uuid4 w = inl (KeyError "cers_districts")).
Proof.
  destruct w as [[wp e d b c ins] tr od wr]. split_and!.
  - intros H. cbn in H. subst e. reflexivity.
  - intros H. cbn in H. subst c. split_and!; [reflexivity..|].
    intros t. reflexivity.
  - intros H. cbn in H. unfold_steps. step_steps. by rewrite H.
Qed.

Lemma methods_need_predecessors_witness :
  create_integrated_dataset (boot "workspace" false)
  = inl (NoneTypeError f_enrolment_data) ∧
  calculate_exclusion_risk_score sqrt10 sample_loaded
  = inl (NoneTypeError f_combined_data) ∧
  generate_visualizations uuid4_first_run sample_integrated
  = inl (KeyError "cers_districts").
Proof.
  pose proof (methods_need_predecessors sqrt10 uuid4_first_run
                (boot "workspace" false)) as (H1 & _ & _).
  pose proof (methods_need_predecessors sqrt10 uuid4_first_run sample_loaded)
    as (_ & H2 & _).
  pose proof (methods_need_predecessors sqrt10 uuid4_first_run
                sample_integrated) as (_ & _ & H3).
  split_and!.
  - apply H1. reflexivity.
  - apply H2. reflexivity.
  - apply H3. reflexivity.
Defined.

(** ** File names *)

Lemma elem_of_str_replace (old new c : ascii) (s : string) :
  c ∈ list_ascii_of_string (str_replace old new s) →
  c = new ∨ (c ≠ old ∧ c ∈ list_ascii_of_string s).
Proof.
  induction s as [|x s IH]; cbn; [by intros ?%elem_of_nil|].
  intros [->|Hc]%elem_of_cons.
  - destruct (Ascii.eqb x old) eqn:E; [by left|].
    right. split; [by apply Ascii.eqb_neq|left].
  - destruct (IH Hc) as [->|[Hne Hin]]; [by left|].
    right. split; [done|by right].
Qed.

Lemma str_replace_absent (old new : ascii) (s : string) :
  old ∉ list_ascii_of_string s → str_replace old new s = s.
Proof.
  induction s as [|x s IH]; cbn; [done|].
  intros [Hx Hs]%not_elem_of_cons.
  destruct (Ascii.eqb x old) eqn:E.
  - apply Ascii.eqb_eq in E. congruence.
  - by rewrite IH.
Qed.

Lemma safe_name_chars (name : string) (c : ascii) :
  c ∈ list_ascii_of_string (safe_name name) →
  c ≠ " "%char ∧ c ≠ "/"%char.
Proof.
  unfold safe_name.
  intros [->|[Hne [->|[Hne' _]]%elem_of_str_replace]]%elem_of_str_replace;
    done.
Qed.

Lemma os_path_join_relative (a b : string) :
  String.prefix "/" b = false →
  ∃ sep, (sep = "" ∨ sep = "/") ∧
         os_path_join a b = String.append a (String.append sep b).
Proof.
  intros Hb. unfold os_path_join. rewrite Hb.
  destruct (bool_decide (a = "") || endswith_sep a).
  - exists "". split; [by left|done].
  - exists "/". split; [by right|done].
Qed.

Lemma safe_file_relative (name ext : string) :
  String.prefix "/" ext = false →
  String.prefix "/" (String.append (safe_name name) ext) = false.
Proof.
  intros Hext. pose proof (safe_name_chars name) as H. revert H.
  generalize (safe_name name). intros [|c s] H; [exact Hext|].
  destruct (H c ltac:(left)) as [_ Hc].
  change (String.append (String c s) ext) with (String c (String.append s ext)).
  change (String.prefix "/" (String c (String.append s ext)))
    with (if ascii_dec "/" c
          then String.prefix "" (String.append s ext) else false).
  destruct (ascii_dec "/" c) as [E|_]; [congruence|reflexivity].
Qed.

(** X15: the file name that [save_plot] and [save_html] build holds no
    space and no slash, whatever the name of the figure, so that the file
    is written directly into [out_dir]: the path is [out_dir], a
    separator where [out_dir] needs one, the safe name and the extension.
    Making a safe name safe again changes nothing. *)
Theorem saved_file_in_out_dir (out_dir name : string) :
  (∀ c, c ∈ list_ascii_of_string (safe_name name) →
        c ≠ " "%char ∧ c ≠ "/"%char) ∧
  safe_name (safe_name name) = safe_name name ∧
  (∃ sep, (sep = "" ∨ sep = "/") ∧
     save_plot out_dir name
     = String.append out_dir
         (String.append sep (String.append (safe_name name) ".png"))) ∧
  (∃ sep, (sep = "" ∨ sep = "/") ∧
     save_html out_dir name
     = String.append out_dir
         (String.append sep (String.append (safe_name name) ".html"))).
Proof.
  split_and!.
  - apply safe_name_chars.
  - unfold safe_name at 1.
    rewrite (str_replace_absent " " "_" (safe_name name)).
    + apply str_replace_absent. intros H. by apply safe_name_chars in H as [_ ?].
    + intros H. by apply safe_name_chars in H as [? _].
  - apply os_path_join_relative. by apply safe_file_relative.
  - apply os_path_join_relative. by apply safe_file_relative.
Qed.

Lemma saved_file_in_out_dir_witness :
  safe_name "top 3/corr" = "top_3-corr" ∧
  save_plot "analysis_outputs/biometric" "top 3/corr"
  = "analysis_outputs/biometric/top_3-corr.png" ∧
  (∀ c, c ∈ list_ascii_of_string (safe_name "top 3/corr") → c ≠ "/"%char).
Proof.
  split; [reflexivity|]. split; [reflexivity|].
  intros c Hc.
  by apply (proj1 (saved_file_in_out_dir "analysis_outputs/biometric" "top 3/corr")).
Defined.

(** ** Columns *)

Lemma pick_col_spec (lower : string → string) (cols keys : list string) :
  match pick_col lower cols keys with
  | Some c =>
      ∃ before after, cols = before ++ c :: after ∧
        any_key_in lower keys c = true ∧
        ∀ x, x ∈ before → any_key_in lower keys x = false
  | None => ∀ x, x ∈ cols → any_key_in lower keys x = false
  end.
Proof.
  induction cols as [|c cols IH]; cbn; [by intros x ?%elem_of_nil|].
  destruct (any_key_in lower keys c) eqn:E.
  - exists [], cols. split; [done|]. split; [done|]. by intros x ?%elem_of_nil.
  - destruct (pick_col lower cols keys) as [c'|].
    + destruct IH as (before & after & -> & Hc' & Hb).
      exists (c :: before), after. split; [done|]. split; [done|].
      intros x [->|Hx]%elem_of_cons; auto.
    + intros x [->|Hx]%elem_of_cons; auto.
Qed.

Lemma any_key_in_mono (lower : string → string) (keys keys' : list string)
    (c : string) :
  keys ⊆ keys' → any_key_in lower keys c = true →
  any_key_in lower keys' c = true.
Proof.
  unfold any_key_in. rewrite !existsb_exists.
  intros Hsub (k & Hk & Hin). exists k. split; [|done].
  apply list_elem_of_In, Hsub, list_elem_of_In, Hk.
Qed.

(** X16: [pick_col] returns the first column whose lower-cased name holds
    one of the keys, and [None] exactly when no column does; the state
    column and the district column that [kpis_for_df] picks this way are
    always among the [geo_candidates] of [identify_columns]. *)
Theorem pick_col_first (lower : string → string) (cols keys : list string) :
  match pick_col lower cols keys with
  | Some c =>
      ∃ before after, cols = before ++ c :: after ∧
        any_key_in lower keys c = true ∧
        ∀ x, x ∈ before → any_key_in lower keys x = false
  | None => ∀ x, x ∈ cols → any_key_in lower keys x = false
  end ∧
  (∀ c, state_col lower cols = Some c → c ∈ geo_candidates lower cols) ∧
  (∀ c, district_col lower cols = Some c → c ∈ geo_candidates lower cols).
Proof.
  split; [apply pick_col_spec|]. split.
  - intros c Hc. unfold state_col in Hc.
    pose proof (pick_col_spec lower cols ["state"]) as H. rewrite Hc in H.
    destruct H as (before & after & -> & Hk & _).
    apply List_filter_elem. split; [apply elem_of_app; right; left|].
    revert Hk. apply any_key_in_mono.
    intros k ->%list_elem_of_singleton. repeat constructor.
  - intros c Hc. unfold district_col in Hc.
    pose proof (pick_col_spec lower cols ["district"]) as H. rewrite Hc in H.
    destruct H as (before & after & -> & Hk & _).
    apply List_filter_elem. split; [apply elem_of_app; right; left|].
    revert Hk. apply any_key_in_mono.
    intros k ->%list_elem_of_singleton. repeat constructor.
Qed.

Lemma pick_col_first_witness :
  state_col id ["date"; "state"; "district"; "pincode"] = Some "state" ∧
  "state" ∈ geo_candidates id ["date"; "state"; "district"; "pincode"] ∧
  state_col id ["date"; "pincode"] = None.
Proof.
  split; [reflexivity|]. split; [|reflexivity].
  pose proof (pick_col_first id ["date"; "state"; "district"; "pincode"]
                ["state"]) as (_ & H & _).
  apply H. reflexivity.
Defined.

(** ** Shares *)

Lemma Qsum_div (t : Q) (l : list Q) :
  Qsum ((λ x, x / t) <$> l) == Qsum l / t.
Proof.
  induction l as [|x l IH]; cbn.
  - unfold Qdiv. by rewrite Qmult_0_l.
  - rewrite IH. unfold Qdiv. by rewrite Qmult_plus_distr_l.
Qed.

Lemma Qsum_shares {A} (t : Q) (l : list (A * Q)) :
  Qsum (snd <$> ((λ kv, (kv.1, kv.2 / t)) <$> l)) == Qsum (snd <$> l) / t.
Proof.
  rewrite <- Qsum_div, <- !list_fmap_compose. reflexivity.
Qed.

Lemma fst_fmap_pair {A B} (g : A → B) (l : list A) :
  fst <$> ((λ v, (v, g v)) <$> l) = l.
Proof. induction l as [|x l IH]; cbn; [done|]. by rewrite IH. Qed.

Lemma Qlen_pos {A} (l : list A) : l ≠ [] → 0 < Qlen l.
Proof.
  destruct l as [|x l]; [done|]. intros _. unfold Qlen.
  change 0 with (inject_Z 0). rewrite <- Zlt_Qlt. cbn. lia.
Qed.

Lemma Qlen_le {A} (l k : list A) :
  (length l ≤ length k)%nat → Qlen l <= Qlen k.
Proof. intros H. unfold Qlen. rewrite <- Zle_Qle. lia. Qed.

Section SharesFacts.
Context {Cell : Type} `{EqDecision Cell}.

Global Instance count_descending_total : Total (@count_descending Cell).
Proof.
  intros a b. unfold count_descending. rewrite !Qle_bool_iff.
  destruct (Qlt_le_dec a.2 b.2) as [Hlt|Hle]; [right | left].
  - by apply Qlt_le_weak.
  - exact Hle.
Qed.

Global Instance count_descending_trans : Transitive (@count_descending Cell).
Proof.
  intros a b c. unfold count_descending. rewrite !Qle_bool_iff.
  intros Hab Hbc. eapply Qle_trans; eassumption.
Qed.

Global Instance count_descending_refl : Reflexive (@count_descending Cell).
Proof. intros a. unfold count_descending. apply Qle_bool_iff, Qle_refl. Qed.

Lemma value_counts_Permutation (s : list (option Cell)) :
  value_counts s
  ≡ₚ (λ v, (v, Qlen (filter (λ x, x = v) s))) <$> remove_dups s.
Proof. unfold value_counts. apply merge_sort_Permutation. Qed.

Lemma value_counts_total (s : list (option Cell)) :
  Qsum (snd <$> value_counts s) == Qlen s.
Proof.
  rewrite (Qsum_Permutation _ _
             (fmap_Permutation snd _ _ (value_counts_Permutation s))).
  rewrite <- list_fmap_compose.
  transitivity
    (Qsum ((λ n, inject_Z (Z.of_nat n))
             <$> ((λ v, length (filter (λ x, Some x = Some v) s))
                    <$> remove_dups s))).
  { rewrite <- list_fmap_compose.
    assert (∀ v, (snd ∘ (λ v, (v, Qlen (filter (λ x, x = v) s)))) v
                 = ((λ n, inject_Z (Z.of_nat n))
                    ∘ (λ v, length (filter (λ x, Some x = Some v) s))) v)
      as Hext.
    { intros v. cbn. unfold Qlen. do 3 f_equal.
      apply list_filter_iff. intros x. split; congruence. }
    erewrite (list_fmap_ext _ _ _ (λ _ v _, Hext v)). reflexivity. }
  rewrite Qsum_inject, (group_sizes Some).
  - assert (filter (λ r : option Cell, is_Some (Some r)) s = s) as ->; [|done].
    clear. induction s as [|x s IH]; [done|].
    rewrite filter_cons_True by eauto. by rewrite IH.
  - apply NoDup_remove_dups.
  - intros r k Hr [= <-]. by apply elem_of_remove_dups.
Qed.
End SharesFacts.

Section SharesTheorem.
Context {Cell : Type} `{EqDecision Cell}.

Lemma state_shares_unfold (df : DataFrame) (c : string)
    (s : list (option Cell)) :
  c ≠ EmptyString → df_column df c = Some s → s ≠ [] →
  state_shares df (Some c)
  = merge_sort count_descending
      ((λ kv, (kv.1, kv.2 / Qsum (snd <$> value_counts s)))
         <$> value_counts s).
Proof.
  intros Hc Hs Hne. unfold state_shares.
  rewrite decide_False by done. rewrite Hs.
  destruct (Qeq_bool (Qsum (snd <$> value_counts s)) 0) eqn:E; [|done].
  apply Qeq_bool_iff in E. rewrite value_counts_total in E.
  pose proof (Qlen_pos s Hne) as Hpos. rewrite E in Hpos.
  by apply Qlt_irrefl in Hpos.
Qed.

Lemma state_shares_Permutation (df : DataFrame) (c : string)
    (s : list (option Cell)) :
  c ≠ EmptyString → df_column df c = Some s → s ≠ [] →
  state_shares df (Some c)
  ≡ₚ (λ v, (v, Qlen (filter (λ x, x = v) s) / Qsum (snd <$> value_counts s)))
       <$> remove_dups s.
Proof.
  intros Hc Hs Hne. rewrite (state_shares_unfold df c s) by done.
  rewrite merge_sort_Permutation, value_counts_Permutation.
  by rewrite <- list_fmap_compose.
Qed.

End SharesTheorem.

(** X17: [state_shares] gives the empty series when no column is named,
    when the table has no such column and when the column has no row.
    Otherwise it is a distribution over the values of the column, the
    missing value among them: one entry per distinct value, each share
    the value's count over the number of rows, hence in (0, 1], the
    shares adding up to 1, the largest first. *)
Theorem state_shares_distribution {Cell : Type} `{EqDecision Cell}
    (df : @DataFrame Cell) (c : string) :
  state_shares df None = [] ∧
  state_shares df (Some EmptyString) = [] ∧
  (df_column df c = None → state_shares df (Some c) = []) ∧
  (df_column df c = Some [] → state_shares df (Some c) = []) ∧
  ∀ s : list (option Cell),
    c ≠ EmptyString → df_column df c = Some s → s ≠ [] →
    Qsum (snd <$> state_shares df (Some c)) == 1 ∧
    NoDup (fst <$> state_shares df (Some c)) ∧
    (∀ v, v ∈ fst <$> state_shares df (Some c) ↔ v ∈ s) ∧
    (∀ v q, (v, q) ∈ state_shares df (Some c) →
       q == Qlen (filter (λ x, x = v) s) / Qlen s ∧ 0 < q ∧ q <= 1) ∧
    (∀ i j a b, (i ≤ j)%nat →
       state_shares df (Some c) !! i = Some a →
       state_shares df (Some c) !! j = Some b → b.2 <= a.2).
Proof.
  split; [reflexivity|]. split; [reflexivity|]. split_and!.
  - intros H. unfold state_shares. rewrite H. by destruct (decide _).
  - intros H. unfold state_shares. rewrite H. by destruct (decide _).
  - intros s Hc Hs Hne.
    pose proof (state_shares_Permutation df c s Hc Hs Hne) as HP.
    pose proof (value_counts_total s) as Htot.
    pose proof (Qlen_pos s Hne) as Hpos.
    split_and!.
    + rewrite (state_shares_unfold df c s) by done.
      rewrite (Qsum_Permutation _ _
                 (fmap_Permutation snd _ _ (merge_sort_Permutation _ _))).
      rewrite Qsum_shares. apply Qmult_inv_r.
      rewrite Htot. intros E. rewrite E in Hpos. by apply Qlt_irrefl in Hpos.
    + rewrite HP, fst_fmap_pair. apply NoDup_remove_dups.
    + intros v. rewrite HP, fst_fmap_pair. apply elem_of_remove_dups.
    + intros v q Hvq. rewrite HP in Hvq.
      apply list_elem_of_fmap in Hvq as (v' & [= -> ->] & Hv').
      rewrite elem_of_remove_dups in Hv'.
      assert (Qlen (filter (λ x, x = v') s) / Qsum (snd <$> value_counts s)
              == Qlen (filter (λ x, x = v') s) / Qlen s) as Eq.
      { by rewrite Htot. }
      split; [exact Eq|]. rewrite Eq. split.
      * apply Qlt_shift_div_l; [done|]. rewrite Qmult_0_l.
        apply Qlen_pos. intros Hnil.
        assert (v' ∈ filter (λ x, x = v') s) as Hin.
        { apply list_elem_of_filter. split; [reflexivity|exact Hv']. }
        rewrite Hnil in Hin. by apply elem_of_nil in Hin.
      * apply Qle_shift_div_r; [done|]. rewrite Qmult_1_l.
        apply Qlen_le, length_filter.
    + intros i j a b Hij Ha Hb. apply Qle_bool_iff.
      apply (StronglySorted_lookup_le count_descending
               (state_shares df (Some c)) i j a b); [|done..].
      rewrite (state_shares_unfold df c s) by done.
      apply (StronglySorted_merge_sort _).
Qed.

Lemma state_shares_distribution_witness :
  Qsum (snd <$> state_shares sample_states (Some "state")) == 1 ∧
  (∃ q, (Some "Goa", q) ∈ state_shares sample_states (Some "state")
        ∧ q == 1 # 2) ∧
  (∃ q, (None, q) ∈ state_shares sample_states (Some "state")
        ∧ q == 1 # 4) ∧
  state_shares sample_states (Some "district") = [].
Proof.
  pose proof (state_shares_distribution sample_states "state")
    as (_ & _ & _ & _ & H).
  pose proof (state_shares_distribution sample_states "district")
    as (_ & _ & H' & _).
  split_and!.
  - apply (H [Some "Goa"; None; Some "Kerala"; Some "Goa"]); done.
  - exists (2 # 4). split; [vm_compute; left | reflexivity].
  - exists (1 # 4). split; [vm_compute; right; right; left | reflexivity].
  - apply H'. reflexivity.
Defined.

(** ** The rows of the hidden pattern *)

(** X18: the rows that [discover_hidden_pattern] analyses after
    [create_integrated_dataset] are the stored rows with a positive
    [enrol_count] and a positive [bio_count]; on each of them the two
    completion rates are the quotients [100 * count / enrol_count], never
    the value 100 that [_engineer_features] fills in where there is no
    enrolment, and the biometric completion rate is positive. *)
Theorem discover_hidden_pattern_active (w w' : World) (i : Insight) :
  (create_integrated_dataset;; discover_hidden_pattern) w = inr (i, w') →
  ∃ rows active,
    combined_data (self w') = Some (Features rows) ∧
    i = HiddenPattern active ∧
    insights (self w') !! "hidden_pattern" = Some (HiddenPattern active) ∧
    ∀ r, r ∈ active ↔
         r ∈ rows ∧ 0 < enrol_count (base r) ∧ 0 < bio_count (base r) ∧
         bio_completion_rate r
         = bio_count (base r) / enrol_count (base r) * 100 ∧
         demo_completion_rate r
         = demo_count (base r) / enrol_count (base r) * 100 ∧
         0 < bio_completion_rate r.
Proof.
  unfold mbind at 1. unfold M_bind.
  destruct (create_integrated_dataset w) as [ex|[[] w1]] eqn:E1; [done|].
  apply create_integrated_dataset_inv in E1
    as (e & d & b & rows & _ & _ & _ & Hrows & Hw1).
  destruct w1 as [[wp e1 d1 b1 c1 ins] tr od wr]. cbn in Hw1. subst c1.
  unfold discover_hidden_pattern, features, attribute, insight, set_insight,
    emit, get_self, put_self, raise.
  unfold mbind, M_bind, mret, M_ret. cbn -[insert lookup List.filter].
  rewrite lookup_insert_eq. intros [= <- <-].
  eexists rows, _. split; [reflexivity|]. split; [reflexivity|].
  split; [cbn; by rewrite lookup_insert_eq|].
  intros r. rewrite List_filter_elem, andb_true_iff, !Qlt_bool_iff. split.
  - intros (Hr & He & Hb). split_and!; try done.
    all: destruct (engineer_elem _ _ _ Hrows Hr) as [_ Er];
      rewrite engineer_row_Some in Er; injection Er as Er; rewrite <- Er; cbn;
      apply Qlt_bool_iff in He as He'; rewrite He'; try reflexivity.
    apply Qmult_lt_0_compat; [|done].
    apply Qlt_shift_div_l; [done|]. by rewrite Qmult_0_l.
  - intros (Hr & He & Hb & _). done.
Qed.

Lemma discover_hidden_pattern_active_witness :
  ∃ i w' active,
    (create_integrated_dataset;; discover_hidden_pattern) sample_loaded
    = inr (i, w') ∧
    i = HiddenPattern active ∧
    ∀ r, r ∈ active → 0 < bio_completion_rate r.
Proof.
  destruct ((create_integrated_dataset;; discover_hidden_pattern) sample_loaded)
    as [ex|[i w']] eqn:E; [vm_compute in E; discriminate E|].
  destruct (discover_hidden_pattern_active _ _ _ E)
    as (rows & active & _ & Hi & _ & H).
  exists i, w', active. split; [reflexivity|]. split; [exact Hi|].
  intros r Hr. by apply H in Hr as (_ & _ & _ & _ & _ & ?).
Defined.
